(** * gmailfilters: the [bulkfilter] command

    A shallow embedding of [gmailfilters/cmd/bulkfilter.py]: the two
    specification parsers ([labelspec], [flagspec]) and the
    [BulkFilter] command ([take_action], [process_one_folder],
    [process_messages], [show_message]) running against an IMAP server
    that is modelled as an oracle, with every call, log record and
    printed line recorded in a trace. *)

From Stdlib Require Import ZArith Ascii String DecimalString List Sorted Permutation Lia.
From stdpp Require Import base option list sorting strings gmap.

Local Open Scope string_scope.
Local Open Scope list_scope.
Local Open Scope Z_scope.

(* ===================================================================== *)
(** ** Strings

    A Python string is modelled by its UTF-8 bytes, the way a token
    reaches the command on its command line; a byte that starts no
    valid UTF-8 sequence stands for itself, as it does in a string
    decoded with [surrogateescape].  [upper] is [str.upper]: it
    replaces every code point by its upper-case mapping. *)

Definition upper_ascii (c : ascii) : ascii :=
  let n := N_of_ascii c in
  if ((97 <=? n) && (n <=? 122))%N then ascii_of_N (n - 32) else c.

Definition lower_ascii (c : ascii) : ascii :=
  let n := N_of_ascii c in
  if ((65 <=? n) && (n <=? 90))%N then ascii_of_N (n + 32) else c.

(** The letters [a-z] to upper case and the letters [A-Z] to lower
    case, every other byte left alone: the vocabulary for tokens that
    differ only in the case of their ASCII letters. *)
Fixpoint ascii_upper (s : string) : string :=
  match s with
  | EmptyString => EmptyString
  | String c s' => String (upper_ascii c) (ascii_upper s')
  end.

Fixpoint lower (s : string) : string :=
  match s with
  | EmptyString => EmptyString
  | String c s' => String (lower_ascii c) (lower s')
  end.

(** The value of a byte from [0x80] on, and [0] for an ASCII byte. *)
Definition high (b : ascii) : N :=
  let n := N_of_ascii b in
  if (n <? 128)%N then 0%N else n.

Definition between (lo n hi : N) : bool := ((lo <=? n) && (n <=? hi))%N.

(** A continuation byte, [0x80..0xBF]. *)
Definition is_cont (b : ascii) : bool := between 128 (high b) 191.

(** The well-formed three-byte and four-byte sequences of UTF-8: no
    overlong form, no surrogate, nothing above [U+10FFFF]. *)
Definition three_bytes (b1 b2 b3 : ascii) : bool :=
  is_cont b3 &&
  ((high b1 =? 224)%N && between 160 (high b2) 191
   || between 225 (high b1) 236 && is_cont b2
   || (high b1 =? 237)%N && between 128 (high b2) 159
   || between 238 (high b1) 239 && is_cont b2).

Definition four_bytes (b1 b2 b3 b4 : ascii) : bool :=
  is_cont b3 && is_cont b4 &&
  ((high b1 =? 240)%N && between 144 (high b2) 191
   || between 241 (high b1) 243 && is_cont b2
   || (high b1 =? 244)%N && between 128 (high b2) 143).

(** The number of bytes of the code point at the head of a string: the
    length of the well-formed UTF-8 sequence there, and [1] for a byte
    that starts none. *)
Definition utf8_len (s : string) : nat :=
  match s with
  | EmptyString => 0%nat
  | String b1 s1 =>
      if (high b1 =? 0)%N then 1%nat
      else
        match s1 with
        | EmptyString => 1%nat
        | String b2 s2 =>
            if between 194 (high b1) 223 && is_cont b2 then 2%nat
            else
              match s2 with
              | EmptyString => 1%nat
              | String b3 s3 =>
                  if three_bytes b1 b2 b3 then 3%nat
                  else
                    match s3 with
                    | EmptyString => 1%nat
                    | String b4 _ => if four_bytes b1 b2 b3 b4 then 4%nat else 1%nat
                    end
              end
        end
  end.

Fixpoint str_take (k : nat) (s : string) : string :=
  match k, s with
  | S k', String b s' => String b (str_take k' s')
  | _, _ => EmptyString
  end.

Fixpoint str_drop (k : nat) (s : string) : string :=
  match k, s with
  | S k', String _ s' => str_drop k' s'
  | _, _ => s
  end.

(** The code points of a string, each as its bytes.  Every step takes
    at least one byte, so the length of the string is fuel enough. *)
Fixpoint codepoints_from (fuel : nat) (s : string) : list string :=
  match fuel with
  | O => []
  | S fuel' =>
      match s with
      | EmptyString => []
      | String _ _ =>
          str_take (utf8_len s) s :: codepoints_from fuel' (str_drop (utf8_len s) s)
      end
  end.

Definition codepoints (s : string) : list string :=
  codepoints_from (String.length s) s.

Fixpoint cat (parts : list string) : string :=
  match parts with
  | [] => ""
  | part :: parts' => part +:+ cat parts'
  end.

Fixpoint case_lookup (c : string) (table : list (string * string)) : option string :=
  match table with
  | [] => None
  | (k, v) :: table' => if String.eqb c k then Some v else case_lookup c table'
  end.

(** The twenty-six letters from the byte [first] on, each with its
    image by [f]. *)
Definition letters (first : N) (f : ascii -> ascii) : list (string * string) :=
  map (fun k => let b := ascii_of_N (first + N.of_nat k) in (String b "", String (f b) ""))
      (seq 0 26).

(** The code points that [str.upper] changes, each with what it becomes
    (one to three code points), as UTF-8: the full upper-case mapping
    of Unicode 14.0.0.  Every other code point is left as it is. *)
Definition upper_table : list (string * string) :=
  letters 97 upper_ascii ++
  [("µ", "Μ"); ("ß", "SS"); ("à", "À"); ("á", "Á");
   ("â", "Â"); ("ã", "Ã"); ("ä", "Ä"); ("å", "Å"); ("æ", "Æ"); ("ç", "Ç");
   ("è", "È"); ("é", "É"); ("ê", "Ê"); ("ë", "Ë"); ("ì", "Ì"); ("í", "Í");
   ("î", "Î"); ("ï", "Ï"); ("ð", "Ð"); ("ñ", "Ñ"); ("ò", "Ò"); ("ó", "Ó");
   ("ô", "Ô"); ("õ", "Õ"); ("ö", "Ö"); ("ø", "Ø"); ("ù", "Ù"); ("ú", "Ú");
   ("û", "Û"); ("ü", "Ü"); ("ý", "Ý"); ("þ", "Þ"); ("ÿ", "Ÿ"); ("ā", "Ā");
   ("ă", "Ă"); ("ą", "Ą"); ("ć", "Ć"); ("ĉ", "Ĉ"); ("ċ", "Ċ"); ("č", "Č");
   ("ď", "Ď"); ("đ", "Đ"); ("ē", "Ē"); ("ĕ", "Ĕ"); ("ė", "Ė"); ("ę", "Ę");
   ("ě", "Ě"); ("ĝ", "Ĝ"); ("ğ", "Ğ"); ("ġ", "Ġ"); ("ģ", "Ģ"); ("ĥ", "Ĥ");
   ("ħ", "Ħ"); ("ĩ", "Ĩ"); ("ī", "Ī"); ("ĭ", "Ĭ"); ("į", "Į"); ("ı", "I");
   ("ĳ", "Ĳ"); ("ĵ", "Ĵ"); ("ķ", "Ķ"); ("ĺ", "Ĺ"); ("ļ", "Ļ"); ("ľ", "Ľ");
   ("ŀ", "Ŀ"); ("ł", "Ł"); ("ń", "Ń"); ("ņ", "Ņ"); ("ň", "Ň"); ("ŉ", "ʼN");
   ("ŋ", "Ŋ"); ("ō", "Ō"); ("ŏ", "Ŏ"); ("ő", "Ő"); ("œ", "Œ"); ("ŕ", "Ŕ");
   ("ŗ", "Ŗ"); ("ř", "Ř"); ("ś", "Ś"); ("ŝ", "Ŝ"); ("ş", "Ş"); ("š", "Š");
   ("ţ", "Ţ"); ("ť", "Ť"); ("ŧ", "Ŧ"); ("ũ", "Ũ"); ("ū", "Ū"); ("ŭ", "Ŭ");
   ("ů", "Ů"); ("ű", "Ű"); ("ų", "Ų"); ("ŵ", "Ŵ"); ("ŷ", "Ŷ"); ("ź", "Ź");
   ("ż", "Ż"); ("ž", "Ž"); ("ſ", "S"); ("ƀ", "Ƀ"); ("ƃ", "Ƃ"); ("ƅ", "Ƅ");
   ("ƈ", "Ƈ"); ("ƌ", "Ƌ"); ("ƒ", "Ƒ"); ("ƕ", "Ƕ"); ("ƙ", "Ƙ"); ("ƚ", "Ƚ");
   ("ƞ", "Ƞ"); ("ơ", "Ơ"); ("ƣ", "Ƣ"); ("ƥ", "Ƥ"); ("ƨ", "Ƨ"); ("ƭ", "Ƭ");
   ("ư", "Ư"); ("ƴ", "Ƴ"); ("ƶ", "Ƶ"); ("ƹ", "Ƹ"); ("ƽ", "Ƽ"); ("ƿ", "Ƿ");
   ("ǅ", "Ǆ"); ("ǆ", "Ǆ"); ("ǈ", "Ǉ"); ("ǉ", "Ǉ"); ("ǋ", "Ǌ"); ("ǌ", "Ǌ");
   ("ǎ", "Ǎ"); ("ǐ", "Ǐ"); ("ǒ", "Ǒ"); ("ǔ", "Ǔ"); ("ǖ", "Ǖ"); ("ǘ", "Ǘ");
   ("ǚ", "Ǚ"); ("ǜ", "Ǜ"); ("ǝ", "Ǝ"); ("ǟ", "Ǟ"); ("ǡ", "Ǡ"); ("ǣ", "Ǣ");
   ("ǥ", "Ǥ"); ("ǧ", "Ǧ"); ("ǩ", "Ǩ"); ("ǫ", "Ǫ"); ("ǭ", "Ǭ"); ("ǯ", "Ǯ");
   ("ǰ", "J̌"); ("ǲ", "Ǳ"); ("ǳ", "Ǳ"); ("ǵ", "Ǵ"); ("ǹ", "Ǹ"); ("ǻ", "Ǻ");
   ("ǽ", "Ǽ"); ("ǿ", "Ǿ"); ("ȁ", "Ȁ"); ("ȃ", "Ȃ"); ("ȅ", "Ȅ"); ("ȇ", "Ȇ");
   ("ȉ", "Ȉ"); ("ȋ", "Ȋ"); ("ȍ", "Ȍ"); ("ȏ", "Ȏ"); ("ȑ", "Ȑ"); ("ȓ", "Ȓ");
   ("ȕ", "Ȕ"); ("ȗ", "Ȗ"); ("ș", "Ș"); ("ț", "Ț"); ("ȝ", "Ȝ"); ("ȟ", "Ȟ");
   ("ȣ", "Ȣ"); ("ȥ", "Ȥ"); ("ȧ", "Ȧ"); ("ȩ", "Ȩ"); ("ȫ", "Ȫ"); ("ȭ", "Ȭ");
   ("ȯ", "Ȯ"); ("ȱ", "Ȱ"); ("ȳ", "Ȳ"); ("ȼ", "Ȼ"); ("ȿ", "Ȿ"); ("ɀ", "Ɀ");
   ("ɂ", "Ɂ"); ("ɇ", "Ɇ"); ("ɉ", "Ɉ"); ("ɋ", "Ɋ"); ("ɍ", "Ɍ"); ("ɏ", "Ɏ");
   ("ɐ", "Ɐ"); ("ɑ", "Ɑ"); ("ɒ", "Ɒ"); ("ɓ", "Ɓ"); ("ɔ", "Ɔ"); ("ɖ", "Ɖ");
   ("ɗ", "Ɗ"); ("ə", "Ə"); ("ɛ", "Ɛ"); ("ɜ", "Ɜ"); ("ɠ", "Ɠ"); ("ɡ", "Ɡ");
   ("ɣ", "Ɣ"); ("ɥ", "Ɥ"); ("ɦ", "Ɦ"); ("ɨ", "Ɨ"); ("ɩ", "Ɩ"); ("ɪ", "Ɪ");
   ("ɫ", "Ɫ"); ("ɬ", "Ɬ"); ("ɯ", "Ɯ"); ("ɱ", "Ɱ"); ("ɲ", "Ɲ"); ("ɵ", "Ɵ");
   ("ɽ", "Ɽ"); ("ʀ", "Ʀ"); ("ʂ", "Ʂ"); ("ʃ", "Ʃ"); ("ʇ", "Ʇ"); ("ʈ", "Ʈ");
   ("ʉ", "Ʉ"); ("ʊ", "Ʊ"); ("ʋ", "Ʋ"); ("ʌ", "Ʌ"); ("ʒ", "Ʒ"); ("ʝ", "Ʝ");
   ("ʞ", "Ʞ"); ("ͅ", "Ι"); ("ͱ", "Ͱ"); ("ͳ", "Ͳ"); ("ͷ", "Ͷ"); ("ͻ", "Ͻ");
   ("ͼ", "Ͼ"); ("ͽ", "Ͽ"); ("ΐ", "Ϊ́"); ("ά", "Ά"); ("έ", "Έ"); ("ή", "Ή");
   ("ί", "Ί"); ("ΰ", "Ϋ́"); ("α", "Α"); ("β", "Β"); ("γ", "Γ"); ("δ", "Δ");
   ("ε", "Ε"); ("ζ", "Ζ"); ("η", "Η"); ("θ", "Θ"); ("ι", "Ι"); ("κ", "Κ");
   ("λ", "Λ"); ("μ", "Μ"); ("ν", "Ν"); ("ξ", "Ξ"); ("ο", "Ο"); ("π", "Π");
   ("ρ", "Ρ"); ("ς", "Σ"); ("σ", "Σ"); ("τ", "Τ"); ("υ", "Υ"); ("φ", "Φ");
   ("χ", "Χ"); ("ψ", "Ψ"); ("ω", "Ω"); ("ϊ", "Ϊ"); ("ϋ", "Ϋ"); ("ό", "Ό");
   ("ύ", "Ύ"); ("ώ", "Ώ"); ("ϐ", "Β"); ("ϑ", "Θ"); ("ϕ", "Φ"); ("ϖ", "Π");
   ("ϗ", "Ϗ"); ("ϙ", "Ϙ"); ("ϛ", "Ϛ"); ("ϝ", "Ϝ"); ("ϟ", "Ϟ"); ("ϡ", "Ϡ");
   ("ϣ", "Ϣ"); ("ϥ", "Ϥ"); ("ϧ", "Ϧ"); ("ϩ", "Ϩ"); ("ϫ", "Ϫ"); ("ϭ", "Ϭ");
   ("ϯ", "Ϯ"); ("ϰ", "Κ"); ("ϱ", "Ρ"); ("ϲ", "Ϲ"); ("ϳ", "Ϳ"); ("ϵ", "Ε");
   ("ϸ", "Ϸ"); ("ϻ", "Ϻ"); ("а", "А"); ("б", "Б"); ("в", "В"); ("г", "Г");
   ("д", "Д"); ("е", "Е"); ("ж", "Ж"); ("з", "З"); ("и", "И"); ("й", "Й");
   ("к", "К"); ("л", "Л"); ("м", "М"); ("н", "Н"); ("о", "О"); ("п", "П");
   ("р", "Р"); ("с", "С"); ("т", "Т"); ("у", "У"); ("ф", "Ф"); ("х", "Х");
   ("ц", "Ц"); ("ч", "Ч"); ("ш", "Ш"); ("щ", "Щ"); ("ъ", "Ъ"); ("ы", "Ы");
   ("ь", "Ь"); ("э", "Э"); ("ю", "Ю"); ("я", "Я"); ("ѐ", "Ѐ"); ("ё", "Ё");
   ("ђ", "Ђ"); ("ѓ", "Ѓ"); ("є", "Є"); ("ѕ", "Ѕ"); ("і", "І"); ("ї", "Ї");
   ("ј", "Ј"); ("љ", "Љ"); ("њ", "Њ"); ("ћ", "Ћ"); ("ќ", "Ќ"); ("ѝ", "Ѝ");
   ("ў", "Ў"); ("џ", "Џ"); ("ѡ", "Ѡ"); ("ѣ", "Ѣ"); ("ѥ", "Ѥ"); ("ѧ", "Ѧ");
   ("ѩ", "Ѩ"); ("ѫ", "Ѫ"); ("ѭ", "Ѭ"); ("ѯ", "Ѯ"); ("ѱ", "Ѱ"); ("ѳ", "Ѳ");
   ("ѵ", "Ѵ"); ("ѷ", "Ѷ"); ("ѹ", "Ѹ"); ("ѻ", "Ѻ"); ("ѽ", "Ѽ"); ("ѿ", "Ѿ");
   ("ҁ", "Ҁ"); ("ҋ", "Ҋ"); ("ҍ", "Ҍ"); ("ҏ", "Ҏ"); ("ґ", "Ґ"); ("ғ", "Ғ");
   ("ҕ", "Ҕ"); ("җ", "Җ"); ("ҙ", "Ҙ"); ("қ", "Қ"); ("ҝ", "Ҝ"); ("ҟ", "Ҟ");
   ("ҡ", "Ҡ"); ("ң", "Ң"); ("ҥ", "Ҥ"); ("ҧ", "Ҧ"); ("ҩ", "Ҩ"); ("ҫ", "Ҫ");
   ("ҭ", "Ҭ"); ("ү", "Ү"); ("ұ", "Ұ"); ("ҳ", "Ҳ"); ("ҵ", "Ҵ"); ("ҷ", "Ҷ");
   ("ҹ", "Ҹ"); ("һ", "Һ"); ("ҽ", "Ҽ"); ("ҿ", "Ҿ"); ("ӂ", "Ӂ"); ("ӄ", "Ӄ");
   ("ӆ", "Ӆ"); ("ӈ", "Ӈ"); ("ӊ", "Ӊ"); ("ӌ", "Ӌ"); ("ӎ", "Ӎ"); ("ӏ", "Ӏ");
   ("ӑ", "Ӑ"); ("ӓ", "Ӓ"); ("ӕ", "Ӕ"); ("ӗ", "Ӗ"); ("ә", "Ә"); ("ӛ", "Ӛ");
   ("ӝ", "Ӝ"); ("ӟ", "Ӟ"); ("ӡ", "Ӡ"); ("ӣ", "Ӣ"); ("ӥ", "Ӥ"); ("ӧ", "Ӧ");
   ("ө", "Ө"); ("ӫ", "Ӫ"); ("ӭ", "Ӭ"); ("ӯ", "Ӯ"); ("ӱ", "Ӱ"); ("ӳ", "Ӳ");
   ("ӵ", "Ӵ"); ("ӷ", "Ӷ"); ("ӹ", "Ӹ"); ("ӻ", "Ӻ"); ("ӽ", "Ӽ"); ("ӿ", "Ӿ");
   ("ԁ", "Ԁ"); ("ԃ", "Ԃ"); ("ԅ", "Ԅ"); ("ԇ", "Ԇ"); ("ԉ", "Ԉ"); ("ԋ", "Ԋ");
   ("ԍ", "Ԍ"); ("ԏ", "Ԏ"); ("ԑ", "Ԑ"); ("ԓ", "Ԓ"); ("ԕ", "Ԕ"); ("ԗ", "Ԗ");
   ("ԙ", "Ԙ"); ("ԛ", "Ԛ"); ("ԝ", "Ԝ"); ("ԟ", "Ԟ"); ("ԡ", "Ԡ"); ("ԣ", "Ԣ");
   ("ԥ", "Ԥ"); ("ԧ", "Ԧ"); ("ԩ", "Ԩ"); ("ԫ", "Ԫ"); ("ԭ", "Ԭ"); ("ԯ", "Ԯ");
   ("ա", "Ա"); ("բ", "Բ"); ("գ", "Գ"); ("դ", "Դ"); ("ե", "Ե"); ("զ", "Զ");
   ("է", "Է"); ("ը", "Ը"); ("թ", "Թ"); ("ժ", "Ժ"); ("ի", "Ի"); ("լ", "Լ");
   ("խ", "Խ"); ("ծ", "Ծ"); ("կ", "Կ"); ("հ", "Հ"); ("ձ", "Ձ"); ("ղ", "Ղ");
   ("ճ", "Ճ"); ("մ", "Մ"); ("յ", "Յ"); ("ն", "Ն"); ("շ", "Շ"); ("ո", "Ո");
   ("չ", "Չ"); ("պ", "Պ"); ("ջ", "Ջ"); ("ռ", "Ռ"); ("ս", "Ս"); ("վ", "Վ");
   ("տ", "Տ"); ("ր", "Ր"); ("ց", "Ց"); ("ւ", "Ւ"); ("փ", "Փ"); ("ք", "Ք");
   ("օ", "Օ"); ("ֆ", "Ֆ"); ("և", "ԵՒ"); ("ა", "Ა"); ("ბ", "Ბ"); ("გ", "Გ");
   ("დ", "Დ"); ("ე", "Ე"); ("ვ", "Ვ"); ("ზ", "Ზ"); ("თ", "Თ"); ("ი", "Ი");
   ("კ", "Კ"); ("ლ", "Ლ"); ("მ", "Მ"); ("ნ", "Ნ"); ("ო", "Ო"); ("პ", "Პ");
   ("ჟ", "Ჟ"); ("რ", "Რ"); ("ს", "Ს"); ("ტ", "Ტ"); ("უ", "Უ"); ("ფ", "Ფ");
   ("ქ", "Ქ"); ("ღ", "Ღ"); ("ყ", "Ყ"); ("შ", "Შ"); ("ჩ", "Ჩ"); ("ც", "Ც");
   ("ძ", "Ძ"); ("წ", "Წ"); ("ჭ", "Ჭ"); ("ხ", "Ხ"); ("ჯ", "Ჯ"); ("ჰ", "Ჰ");
   ("ჱ", "Ჱ"); ("ჲ", "Ჲ"); ("ჳ", "Ჳ"); ("ჴ", "Ჴ"); ("ჵ", "Ჵ"); ("ჶ", "Ჶ");
   ("ჷ", "Ჷ"); ("ჸ", "Ჸ"); ("ჹ", "Ჹ"); ("ჺ", "Ჺ"); ("ჽ", "Ჽ"); ("ჾ", "Ჾ");
   ("ჿ", "Ჿ"); ("ᏸ", "Ᏸ"); ("ᏹ", "Ᏹ"); ("ᏺ", "Ᏺ"); ("ᏻ", "Ᏻ"); ("ᏼ", "Ᏼ");
   ("ᏽ", "Ᏽ"); ("ᲀ", "В"); ("ᲁ", "Д"); ("ᲂ", "О"); ("ᲃ", "С"); ("ᲄ", "Т");
   ("ᲅ", "Т"); ("ᲆ", "Ъ"); ("ᲇ", "Ѣ"); ("ᲈ", "Ꙋ"); ("ᵹ", "Ᵹ"); ("ᵽ", "Ᵽ");
   ("ᶎ", "Ᶎ"); ("ḁ", "Ḁ"); ("ḃ", "Ḃ"); ("ḅ", "Ḅ"); ("ḇ", "Ḇ"); ("ḉ", "Ḉ");
   ("ḋ", "Ḋ"); ("ḍ", "Ḍ"); ("ḏ", "Ḏ"); ("ḑ", "Ḑ"); ("ḓ", "Ḓ"); ("ḕ", "Ḕ");
   ("ḗ", "Ḗ"); ("ḙ", "Ḙ"); ("ḛ", "Ḛ"); ("ḝ", "Ḝ"); ("ḟ", "Ḟ"); ("ḡ", "Ḡ");
   ("ḣ", "Ḣ"); ("ḥ", "Ḥ"); ("ḧ", "Ḧ"); ("ḩ", "Ḩ"); ("ḫ", "Ḫ"); ("ḭ", "Ḭ");
   ("ḯ", "Ḯ"); ("ḱ", "Ḱ"); ("ḳ", "Ḳ"); ("ḵ", "Ḵ"); ("ḷ", "Ḷ"); ("ḹ", "Ḹ");
   ("ḻ", "Ḻ"); ("ḽ", "Ḽ"); ("ḿ", "Ḿ"); ("ṁ", "Ṁ"); ("ṃ", "Ṃ"); ("ṅ", "Ṅ");
   ("ṇ", "Ṇ"); ("ṉ", "Ṉ"); ("ṋ", "Ṋ"); ("ṍ", "Ṍ"); ("ṏ", "Ṏ"); ("ṑ", "Ṑ");
   ("ṓ", "Ṓ"); ("ṕ", "Ṕ"); ("ṗ", "Ṗ"); ("ṙ", "Ṙ"); ("ṛ", "Ṛ"); ("ṝ", "Ṝ");
   ("ṟ", "Ṟ"); ("ṡ", "Ṡ"); ("ṣ", "Ṣ"); ("ṥ", "Ṥ"); ("ṧ", "Ṧ"); ("ṩ", "Ṩ");
   ("ṫ", "Ṫ"); ("ṭ", "Ṭ"); ("ṯ", "Ṯ"); ("ṱ", "Ṱ"); ("ṳ", "Ṳ"); ("ṵ", "Ṵ");
   ("ṷ", "Ṷ"); ("ṹ", "Ṹ"); ("ṻ", "Ṻ"); ("ṽ", "Ṽ"); ("ṿ", "Ṿ"); ("ẁ", "Ẁ");
   ("ẃ", "Ẃ"); ("ẅ", "Ẅ"); ("ẇ", "Ẇ"); ("ẉ", "Ẉ"); ("ẋ", "Ẋ"); ("ẍ", "Ẍ");
   ("ẏ", "Ẏ"); ("ẑ", "Ẑ"); ("ẓ", "Ẓ"); ("ẕ", "Ẕ"); ("ẖ", "H̱"); ("ẗ", "T̈");
   ("ẘ", "W̊"); ("ẙ", "Y̊"); ("ẚ", "Aʾ"); ("ẛ", "Ṡ"); ("ạ", "Ạ"); ("ả", "Ả");
   ("ấ", "Ấ"); ("ầ", "Ầ"); ("ẩ", "Ẩ"); ("ẫ", "Ẫ"); ("ậ", "Ậ"); ("ắ", "Ắ");
   ("ằ", "Ằ"); ("ẳ", "Ẳ"); ("ẵ", "Ẵ"); ("ặ", "Ặ"); ("ẹ", "Ẹ"); ("ẻ", "Ẻ");
   ("ẽ", "Ẽ"); ("ế", "Ế"); ("ề", "Ề"); ("ể", "Ể"); ("ễ", "Ễ"); ("ệ", "Ệ");
   ("ỉ", "Ỉ"); ("ị", "Ị"); ("ọ", "Ọ"); ("ỏ", "Ỏ"); ("ố", "Ố"); ("ồ", "Ồ");
   ("ổ", "Ổ"); ("ỗ", "Ỗ"); ("ộ", "Ộ"); ("ớ", "Ớ"); ("ờ", "Ờ"); ("ở", "Ở");
   ("ỡ", "Ỡ"); ("ợ", "Ợ"); ("ụ", "Ụ"); ("ủ", "Ủ"); ("ứ", "Ứ"); ("ừ", "Ừ");
   ("ử", "Ử"); ("ữ", "Ữ"); ("ự", "Ự"); ("ỳ", "Ỳ"); ("ỵ", "Ỵ"); ("ỷ", "Ỷ");
   ("ỹ", "Ỹ"); ("ỻ", "Ỻ"); ("ỽ", "Ỽ"); ("ỿ", "Ỿ"); ("ἀ", "Ἀ"); ("ἁ", "Ἁ");
   ("ἂ", "Ἂ"); ("ἃ", "Ἃ"); ("ἄ", "Ἄ"); ("ἅ", "Ἅ"); ("ἆ", "Ἆ"); ("ἇ", "Ἇ");
   ("ἐ", "Ἐ"); ("ἑ", "Ἑ"); ("ἒ", "Ἒ"); ("ἓ", "Ἓ"); ("ἔ", "Ἔ"); ("ἕ", "Ἕ");
   ("ἠ", "Ἠ"); ("ἡ", "Ἡ"); ("ἢ", "Ἢ"); ("ἣ", "Ἣ"); ("ἤ", "Ἤ"); ("ἥ", "Ἥ");
   ("ἦ", "Ἦ"); ("ἧ", "Ἧ"); ("ἰ", "Ἰ"); ("ἱ", "Ἱ"); ("ἲ", "Ἲ"); ("ἳ", "Ἳ");
   ("ἴ", "Ἴ"); ("ἵ", "Ἵ"); ("ἶ", "Ἶ"); ("ἷ", "Ἷ"); ("ὀ", "Ὀ"); ("ὁ", "Ὁ");
   ("ὂ", "Ὂ"); ("ὃ", "Ὃ"); ("ὄ", "Ὄ"); ("ὅ", "Ὅ"); ("ὐ", "Υ̓"); ("ὑ", "Ὑ");
   ("ὒ", "Υ̓̀"); ("ὓ", "Ὓ"); ("ὔ", "Υ̓́"); ("ὕ", "Ὕ"); ("ὖ", "Υ̓͂");
   ("ὗ", "Ὗ"); ("ὠ", "Ὠ"); ("ὡ", "Ὡ"); ("ὢ", "Ὢ"); ("ὣ", "Ὣ"); ("ὤ", "Ὤ");
   ("ὥ", "Ὥ"); ("ὦ", "Ὦ"); ("ὧ", "Ὧ"); ("ὰ", "Ὰ"); ("ά", "Ά"); ("ὲ", "Ὲ");
   ("έ", "Έ"); ("ὴ", "Ὴ"); ("ή", "Ή"); ("ὶ", "Ὶ"); ("ί", "Ί"); ("ὸ", "Ὸ");
   ("ό", "Ό"); ("ὺ", "Ὺ"); ("ύ", "Ύ"); ("ὼ", "Ὼ"); ("ώ", "Ώ"); ("ᾀ", "ἈΙ");
   ("ᾁ", "ἉΙ"); ("ᾂ", "ἊΙ"); ("ᾃ", "ἋΙ"); ("ᾄ", "ἌΙ"); ("ᾅ", "ἍΙ");
   ("ᾆ", "ἎΙ"); ("ᾇ", "ἏΙ"); ("ᾈ", "ἈΙ"); ("ᾉ", "ἉΙ"); ("ᾊ", "ἊΙ");
   ("ᾋ", "ἋΙ"); ("ᾌ", "ἌΙ"); ("ᾍ", "ἍΙ"); ("ᾎ", "ἎΙ"); ("ᾏ", "ἏΙ");
   ("ᾐ", "ἨΙ"); ("ᾑ", "ἩΙ"); ("ᾒ", "ἪΙ"); ("ᾓ", "ἫΙ"); ("ᾔ", "ἬΙ");
   ("ᾕ", "ἭΙ"); ("ᾖ", "ἮΙ"); ("ᾗ", "ἯΙ"); ("ᾘ", "ἨΙ"); ("ᾙ", "ἩΙ");
   ("ᾚ", "ἪΙ"); ("ᾛ", "ἫΙ"); ("ᾜ", "ἬΙ"); ("ᾝ", "ἭΙ"); ("ᾞ", "ἮΙ");
   ("ᾟ", "ἯΙ"); ("ᾠ", "ὨΙ"); ("ᾡ", "ὩΙ"); ("ᾢ", "ὪΙ"); ("ᾣ", "ὫΙ");
   ("ᾤ", "ὬΙ"); ("ᾥ", "ὭΙ"); ("ᾦ", "ὮΙ"); ("ᾧ", "ὯΙ"); ("ᾨ", "ὨΙ");
   ("ᾩ", "ὩΙ"); ("ᾪ", "ὪΙ"); ("ᾫ", "ὫΙ"); ("ᾬ", "ὬΙ"); ("ᾭ", "ὭΙ");
   ("ᾮ", "ὮΙ"); ("ᾯ", "ὯΙ"); ("ᾰ", "Ᾰ"); ("ᾱ", "Ᾱ"); ("ᾲ", "ᾺΙ"); ("ᾳ", "ΑΙ");
   ("ᾴ", "ΆΙ"); ("ᾶ", "Α͂"); ("ᾷ", "Α͂Ι"); ("ᾼ", "ΑΙ"); ("ι", "Ι");
   ("ῂ", "ῊΙ"); ("ῃ", "ΗΙ"); ("ῄ", "ΉΙ"); ("ῆ", "Η͂"); ("ῇ", "Η͂Ι");
   ("ῌ", "ΗΙ"); ("ῐ", "Ῐ"); ("ῑ", "Ῑ"); ("ῒ", "Ϊ̀"); ("ΐ", "Ϊ́");
   ("ῖ", "Ι͂"); ("ῗ", "Ϊ͂"); ("ῠ", "Ῠ"); ("ῡ", "Ῡ"); ("ῢ", "Ϋ̀");
   ("ΰ", "Ϋ́"); ("ῤ", "Ρ̓"); ("ῥ", "Ῥ"); ("ῦ", "Υ͂"); ("ῧ", "Ϋ͂");
   ("ῲ", "ῺΙ"); ("ῳ", "ΩΙ"); ("ῴ", "ΏΙ"); ("ῶ", "Ω͂"); ("ῷ", "Ω͂Ι");
   ("ῼ", "ΩΙ"); ("ⅎ", "Ⅎ"); ("ⅰ", "Ⅰ"); ("ⅱ", "Ⅱ"); ("ⅲ", "Ⅲ"); ("ⅳ", "Ⅳ");
   ("ⅴ", "Ⅴ"); ("ⅵ", "Ⅵ"); ("ⅶ", "Ⅶ"); ("ⅷ", "Ⅷ"); ("ⅸ", "Ⅸ"); ("ⅹ", "Ⅹ");
   ("ⅺ", "Ⅺ"); ("ⅻ", "Ⅻ"); ("ⅼ", "Ⅼ"); ("ⅽ", "Ⅽ"); ("ⅾ", "Ⅾ"); ("ⅿ", "Ⅿ");
   ("ↄ", "Ↄ"); ("ⓐ", "Ⓐ"); ("ⓑ", "Ⓑ"); ("ⓒ", "Ⓒ"); ("ⓓ", "Ⓓ"); ("ⓔ", "Ⓔ");
   ("ⓕ", "Ⓕ"); ("ⓖ", "Ⓖ"); ("ⓗ", "Ⓗ"); ("ⓘ", "Ⓘ"); ("ⓙ", "Ⓙ"); ("ⓚ", "Ⓚ");
   ("ⓛ", "Ⓛ"); ("ⓜ", "Ⓜ"); ("ⓝ", "Ⓝ"); ("ⓞ", "Ⓞ"); ("ⓟ", "Ⓟ"); ("ⓠ", "Ⓠ");
   ("ⓡ", "Ⓡ"); ("ⓢ", "Ⓢ"); ("ⓣ", "Ⓣ"); ("ⓤ", "Ⓤ"); ("ⓥ", "Ⓥ"); ("ⓦ", "Ⓦ");
   ("ⓧ", "Ⓧ"); ("ⓨ", "Ⓨ"); ("ⓩ", "Ⓩ"); ("ⰰ", "Ⰰ"); ("ⰱ", "Ⰱ"); ("ⰲ", "Ⰲ");
   ("ⰳ", "Ⰳ"); ("ⰴ", "Ⰴ"); ("ⰵ", "Ⰵ"); ("ⰶ", "Ⰶ"); ("ⰷ", "Ⰷ"); ("ⰸ", "Ⰸ");
   ("ⰹ", "Ⰹ"); ("ⰺ", "Ⰺ"); ("ⰻ", "Ⰻ"); ("ⰼ", "Ⰼ"); ("ⰽ", "Ⰽ"); ("ⰾ", "Ⰾ");
   ("ⰿ", "Ⰿ"); ("ⱀ", "Ⱀ"); ("ⱁ", "Ⱁ"); ("ⱂ", "Ⱂ"); ("ⱃ", "Ⱃ"); ("ⱄ", "Ⱄ");
   ("ⱅ", "Ⱅ"); ("ⱆ", "Ⱆ"); ("ⱇ", "Ⱇ"); ("ⱈ", "Ⱈ"); ("ⱉ", "Ⱉ"); ("ⱊ", "Ⱊ");
   ("ⱋ", "Ⱋ"); ("ⱌ", "Ⱌ"); ("ⱍ", "Ⱍ"); ("ⱎ", "Ⱎ"); ("ⱏ", "Ⱏ"); ("ⱐ", "Ⱐ");
   ("ⱑ", "Ⱑ"); ("ⱒ", "Ⱒ"); ("ⱓ", "Ⱓ"); ("ⱔ", "Ⱔ"); ("ⱕ", "Ⱕ"); ("ⱖ", "Ⱖ");
   ("ⱗ", "Ⱗ"); ("ⱘ", "Ⱘ"); ("ⱙ", "Ⱙ"); ("ⱚ", "Ⱚ"); ("ⱛ", "Ⱛ"); ("ⱜ", "Ⱜ");
   ("ⱝ", "Ⱝ"); ("ⱞ", "Ⱞ"); ("ⱟ", "Ⱟ"); ("ⱡ", "Ⱡ"); ("ⱥ", "Ⱥ"); ("ⱦ", "Ⱦ");
   ("ⱨ", "Ⱨ"); ("ⱪ", "Ⱪ"); ("ⱬ", "Ⱬ"); ("ⱳ", "Ⱳ"); ("ⱶ", "Ⱶ"); ("ⲁ", "Ⲁ");
   ("ⲃ", "Ⲃ"); ("ⲅ", "Ⲅ"); ("ⲇ", "Ⲇ"); ("ⲉ", "Ⲉ"); ("ⲋ", "Ⲋ"); ("ⲍ", "Ⲍ");
   ("ⲏ", "Ⲏ"); ("ⲑ", "Ⲑ"); ("ⲓ", "Ⲓ"); ("ⲕ", "Ⲕ"); ("ⲗ", "Ⲗ"); ("ⲙ", "Ⲙ");
   ("ⲛ", "Ⲛ"); ("ⲝ", "Ⲝ"); ("ⲟ", "Ⲟ"); ("ⲡ", "Ⲡ"); ("ⲣ", "Ⲣ"); ("ⲥ", "Ⲥ");
   ("ⲧ", "Ⲧ"); ("ⲩ", "Ⲩ"); ("ⲫ", "Ⲫ"); ("ⲭ", "Ⲭ"); ("ⲯ", "Ⲯ"); ("ⲱ", "Ⲱ");
   ("ⲳ", "Ⲳ"); ("ⲵ", "Ⲵ"); ("ⲷ", "Ⲷ"); ("ⲹ", "Ⲹ"); ("ⲻ", "Ⲻ"); ("ⲽ", "Ⲽ");
   ("ⲿ", "Ⲿ"); ("ⳁ", "Ⳁ"); ("ⳃ", "Ⳃ"); ("ⳅ", "Ⳅ"); ("ⳇ", "Ⳇ"); ("ⳉ", "Ⳉ");
   ("ⳋ", "Ⳋ"); ("ⳍ", "Ⳍ"); ("ⳏ", "Ⳏ"); ("ⳑ", "Ⳑ"); ("ⳓ", "Ⳓ"); ("ⳕ", "Ⳕ");
   ("ⳗ", "Ⳗ"); ("ⳙ", "Ⳙ"); ("ⳛ", "Ⳛ"); ("ⳝ", "Ⳝ"); ("ⳟ", "Ⳟ"); ("ⳡ", "Ⳡ");
   ("ⳣ", "Ⳣ"); ("ⳬ", "Ⳬ"); ("ⳮ", "Ⳮ"); ("ⳳ", "Ⳳ"); ("ⴀ", "Ⴀ"); ("ⴁ", "Ⴁ");
   ("ⴂ", "Ⴂ"); ("ⴃ", "Ⴃ"); ("ⴄ", "Ⴄ"); ("ⴅ", "Ⴅ"); ("ⴆ", "Ⴆ"); ("ⴇ", "Ⴇ");
   ("ⴈ", "Ⴈ"); ("ⴉ", "Ⴉ"); ("ⴊ", "Ⴊ"); ("ⴋ", "Ⴋ"); ("ⴌ", "Ⴌ"); ("ⴍ", "Ⴍ");
   ("ⴎ", "Ⴎ"); ("ⴏ", "Ⴏ"); ("ⴐ", "Ⴐ"); ("ⴑ", "Ⴑ"); ("ⴒ", "Ⴒ"); ("ⴓ", "Ⴓ");
   ("ⴔ", "Ⴔ"); ("ⴕ", "Ⴕ"); ("ⴖ", "Ⴖ"); ("ⴗ", "Ⴗ"); ("ⴘ", "Ⴘ"); ("ⴙ", "Ⴙ");
   ("ⴚ", "Ⴚ"); ("ⴛ", "Ⴛ"); ("ⴜ", "Ⴜ"); ("ⴝ", "Ⴝ"); ("ⴞ", "Ⴞ"); ("ⴟ", "Ⴟ");
   ("ⴠ", "Ⴠ"); ("ⴡ", "Ⴡ"); ("ⴢ", "Ⴢ"); ("ⴣ", "Ⴣ"); ("ⴤ", "Ⴤ"); ("ⴥ", "Ⴥ");
   ("ⴧ", "Ⴧ"); ("ⴭ", "Ⴭ"); ("ꙁ", "Ꙁ"); ("ꙃ", "Ꙃ"); ("ꙅ", "Ꙅ"); ("ꙇ", "Ꙇ");
   ("ꙉ", "Ꙉ"); ("ꙋ", "Ꙋ"); ("ꙍ", "Ꙍ"); ("ꙏ", "Ꙏ"); ("ꙑ", "Ꙑ"); ("ꙓ", "Ꙓ");
   ("ꙕ", "Ꙕ"); ("ꙗ", "Ꙗ"); ("ꙙ", "Ꙙ"); ("ꙛ", "Ꙛ"); ("ꙝ", "Ꙝ"); ("ꙟ", "Ꙟ");
   ("ꙡ", "Ꙡ"); ("ꙣ", "Ꙣ"); ("ꙥ", "Ꙥ"); ("ꙧ", "Ꙧ"); ("ꙩ", "Ꙩ"); ("ꙫ", "Ꙫ");
   ("ꙭ", "Ꙭ"); ("ꚁ", "Ꚁ"); ("ꚃ", "Ꚃ"); ("ꚅ", "Ꚅ"); ("ꚇ", "Ꚇ"); ("ꚉ", "Ꚉ");
   ("ꚋ", "Ꚋ"); ("ꚍ", "Ꚍ"); ("ꚏ", "Ꚏ"); ("ꚑ", "Ꚑ"); ("ꚓ", "Ꚓ"); ("ꚕ", "Ꚕ");
   ("ꚗ", "Ꚗ"); ("ꚙ", "Ꚙ"); ("ꚛ", "Ꚛ"); ("ꜣ", "Ꜣ"); ("ꜥ", "Ꜥ"); ("ꜧ", "Ꜧ");
   ("ꜩ", "Ꜩ"); ("ꜫ", "Ꜫ"); ("ꜭ", "Ꜭ"); ("ꜯ", "Ꜯ"); ("ꜳ", "Ꜳ"); ("ꜵ", "Ꜵ");
   ("ꜷ", "Ꜷ"); ("ꜹ", "Ꜹ"); ("ꜻ", "Ꜻ"); ("ꜽ", "Ꜽ"); ("ꜿ", "Ꜿ"); ("ꝁ", "Ꝁ");
   ("ꝃ", "Ꝃ"); ("ꝅ", "Ꝅ"); ("ꝇ", "Ꝇ"); ("ꝉ", "Ꝉ"); ("ꝋ", "Ꝋ"); ("ꝍ", "Ꝍ");
   ("ꝏ", "Ꝏ"); ("ꝑ", "Ꝑ"); ("ꝓ", "Ꝓ"); ("ꝕ", "Ꝕ"); ("ꝗ", "Ꝗ"); ("ꝙ", "Ꝙ");
   ("ꝛ", "Ꝛ"); ("ꝝ", "Ꝝ"); ("ꝟ", "Ꝟ"); ("ꝡ", "Ꝡ"); ("ꝣ", "Ꝣ"); ("ꝥ", "Ꝥ");
   ("ꝧ", "Ꝧ"); ("ꝩ", "Ꝩ"); ("ꝫ", "Ꝫ"); ("ꝭ", "Ꝭ"); ("ꝯ", "Ꝯ"); ("ꝺ", "Ꝺ");
   ("ꝼ", "Ꝼ"); ("ꝿ", "Ꝿ"); ("ꞁ", "Ꞁ"); ("ꞃ", "Ꞃ"); ("ꞅ", "Ꞅ"); ("ꞇ", "Ꞇ");
   ("ꞌ", "Ꞌ"); ("ꞑ", "Ꞑ"); ("ꞓ", "Ꞓ"); ("ꞔ", "Ꞔ"); ("ꞗ", "Ꞗ"); ("ꞙ", "Ꞙ");
   ("ꞛ", "Ꞛ"); ("ꞝ", "Ꞝ"); ("ꞟ", "Ꞟ"); ("ꞡ", "Ꞡ"); ("ꞣ", "Ꞣ"); ("ꞥ", "Ꞥ");
   ("ꞧ", "Ꞧ"); ("ꞩ", "Ꞩ"); ("ꞵ", "Ꞵ"); ("ꞷ", "Ꞷ"); ("ꞹ", "Ꞹ"); ("ꞻ", "Ꞻ");
   ("ꞽ", "Ꞽ"); ("ꞿ", "Ꞿ"); ("ꟁ", "Ꟁ"); ("ꟃ", "Ꟃ"); ("ꟈ", "Ꟈ"); ("ꟊ", "Ꟊ");
   ("ꟑ", "Ꟑ"); ("ꟗ", "Ꟗ"); ("ꟙ", "Ꟙ"); ("ꟶ", "Ꟶ"); ("ꭓ", "Ꭓ"); ("ꭰ", "Ꭰ");
   ("ꭱ", "Ꭱ"); ("ꭲ", "Ꭲ"); ("ꭳ", "Ꭳ"); ("ꭴ", "Ꭴ"); ("ꭵ", "Ꭵ"); ("ꭶ", "Ꭶ");
   ("ꭷ", "Ꭷ"); ("ꭸ", "Ꭸ"); ("ꭹ", "Ꭹ"); ("ꭺ", "Ꭺ"); ("ꭻ", "Ꭻ"); ("ꭼ", "Ꭼ");
   ("ꭽ", "Ꭽ"); ("ꭾ", "Ꭾ"); ("ꭿ", "Ꭿ"); ("ꮀ", "Ꮀ"); ("ꮁ", "Ꮁ"); ("ꮂ", "Ꮂ");
   ("ꮃ", "Ꮃ"); ("ꮄ", "Ꮄ"); ("ꮅ", "Ꮅ"); ("ꮆ", "Ꮆ"); ("ꮇ", "Ꮇ"); ("ꮈ", "Ꮈ");
   ("ꮉ", "Ꮉ"); ("ꮊ", "Ꮊ"); ("ꮋ", "Ꮋ"); ("ꮌ", "Ꮌ"); ("ꮍ", "Ꮍ"); ("ꮎ", "Ꮎ");
   ("ꮏ", "Ꮏ"); ("ꮐ", "Ꮐ"); ("ꮑ", "Ꮑ"); ("ꮒ", "Ꮒ"); ("ꮓ", "Ꮓ"); ("ꮔ", "Ꮔ");
   ("ꮕ", "Ꮕ"); ("ꮖ", "Ꮖ"); ("ꮗ", "Ꮗ"); ("ꮘ", "Ꮘ"); ("ꮙ", "Ꮙ"); ("ꮚ", "Ꮚ");
   ("ꮛ", "Ꮛ"); ("ꮜ", "Ꮜ"); ("ꮝ", "Ꮝ"); ("ꮞ", "Ꮞ"); ("ꮟ", "Ꮟ"); ("ꮠ", "Ꮠ");
   ("ꮡ", "Ꮡ"); ("ꮢ", "Ꮢ"); ("ꮣ", "Ꮣ"); ("ꮤ", "Ꮤ"); ("ꮥ", "Ꮥ"); ("ꮦ", "Ꮦ");
   ("ꮧ", "Ꮧ"); ("ꮨ", "Ꮨ"); ("ꮩ", "Ꮩ"); ("ꮪ", "Ꮪ"); ("ꮫ", "Ꮫ"); ("ꮬ", "Ꮬ");
   ("ꮭ", "Ꮭ"); ("ꮮ", "Ꮮ"); ("ꮯ", "Ꮯ"); ("ꮰ", "Ꮰ"); ("ꮱ", "Ꮱ"); ("ꮲ", "Ꮲ");
   ("ꮳ", "Ꮳ"); ("ꮴ", "Ꮴ"); ("ꮵ", "Ꮵ"); ("ꮶ", "Ꮶ"); ("ꮷ", "Ꮷ"); ("ꮸ", "Ꮸ");
   ("ꮹ", "Ꮹ"); ("ꮺ", "Ꮺ"); ("ꮻ", "Ꮻ"); ("ꮼ", "Ꮼ"); ("ꮽ", "Ꮽ"); ("ꮾ", "Ꮾ");
   ("ꮿ", "Ꮿ"); ("ﬀ", "FF"); ("ﬁ", "FI"); ("ﬂ", "FL"); ("ﬃ", "FFI");
   ("ﬄ", "FFL"); ("ﬅ", "ST"); ("ﬆ", "ST"); ("ﬓ", "ՄՆ"); ("ﬔ", "ՄԵ");
   ("ﬕ", "ՄԻ"); ("ﬖ", "ՎՆ"); ("ﬗ", "ՄԽ"); ("ａ", "Ａ"); ("ｂ", "Ｂ"); ("ｃ", "Ｃ");
   ("ｄ", "Ｄ"); ("ｅ", "Ｅ"); ("ｆ", "Ｆ"); ("ｇ", "Ｇ"); ("ｈ", "Ｈ"); ("ｉ", "Ｉ");
   ("ｊ", "Ｊ"); ("ｋ", "Ｋ"); ("ｌ", "Ｌ"); ("ｍ", "Ｍ"); ("ｎ", "Ｎ"); ("ｏ", "Ｏ");
   ("ｐ", "Ｐ"); ("ｑ", "Ｑ"); ("ｒ", "Ｒ"); ("ｓ", "Ｓ"); ("ｔ", "Ｔ"); ("ｕ", "Ｕ");
   ("ｖ", "Ｖ"); ("ｗ", "Ｗ"); ("ｘ", "Ｘ"); ("ｙ", "Ｙ"); ("ｚ", "Ｚ"); ("𐐨", "𐐀");
   ("𐐩", "𐐁"); ("𐐪", "𐐂"); ("𐐫", "𐐃"); ("𐐬", "𐐄"); ("𐐭", "𐐅"); ("𐐮", "𐐆");
   ("𐐯", "𐐇"); ("𐐰", "𐐈"); ("𐐱", "𐐉"); ("𐐲", "𐐊"); ("𐐳", "𐐋"); ("𐐴", "𐐌");
   ("𐐵", "𐐍"); ("𐐶", "𐐎"); ("𐐷", "𐐏"); ("𐐸", "𐐐"); ("𐐹", "𐐑"); ("𐐺", "𐐒");
   ("𐐻", "𐐓"); ("𐐼", "𐐔"); ("𐐽", "𐐕"); ("𐐾", "𐐖"); ("𐐿", "𐐗"); ("𐑀", "𐐘");
   ("𐑁", "𐐙"); ("𐑂", "𐐚"); ("𐑃", "𐐛"); ("𐑄", "𐐜"); ("𐑅", "𐐝"); ("𐑆", "𐐞");
   ("𐑇", "𐐟"); ("𐑈", "𐐠"); ("𐑉", "𐐡"); ("𐑊", "𐐢"); ("𐑋", "𐐣"); ("𐑌", "𐐤");
   ("𐑍", "𐐥"); ("𐑎", "𐐦"); ("𐑏", "𐐧"); ("𐓘", "𐒰"); ("𐓙", "𐒱"); ("𐓚", "𐒲");
   ("𐓛", "𐒳"); ("𐓜", "𐒴"); ("𐓝", "𐒵"); ("𐓞", "𐒶"); ("𐓟", "𐒷"); ("𐓠", "𐒸");
   ("𐓡", "𐒹"); ("𐓢", "𐒺"); ("𐓣", "𐒻"); ("𐓤", "𐒼"); ("𐓥", "𐒽"); ("𐓦", "𐒾");
   ("𐓧", "𐒿"); ("𐓨", "𐓀"); ("𐓩", "𐓁"); ("𐓪", "𐓂"); ("𐓫", "𐓃"); ("𐓬", "𐓄");
   ("𐓭", "𐓅"); ("𐓮", "𐓆"); ("𐓯", "𐓇"); ("𐓰", "𐓈"); ("𐓱", "𐓉"); ("𐓲", "𐓊");
   ("𐓳", "𐓋"); ("𐓴", "𐓌"); ("𐓵", "𐓍"); ("𐓶", "𐓎"); ("𐓷", "𐓏"); ("𐓸", "𐓐");
   ("𐓹", "𐓑"); ("𐓺", "𐓒"); ("𐓻", "𐓓"); ("𐖗", "𐕰"); ("𐖘", "𐕱"); ("𐖙", "𐕲");
   ("𐖚", "𐕳"); ("𐖛", "𐕴"); ("𐖜", "𐕵"); ("𐖝", "𐕶"); ("𐖞", "𐕷"); ("𐖟", "𐕸");
   ("𐖠", "𐕹"); ("𐖡", "𐕺"); ("𐖣", "𐕼"); ("𐖤", "𐕽"); ("𐖥", "𐕾"); ("𐖦", "𐕿");
   ("𐖧", "𐖀"); ("𐖨", "𐖁"); ("𐖩", "𐖂"); ("𐖪", "𐖃"); ("𐖫", "𐖄"); ("𐖬", "𐖅");
   ("𐖭", "𐖆"); ("𐖮", "𐖇"); ("𐖯", "𐖈"); ("𐖰", "𐖉"); ("𐖱", "𐖊"); ("𐖳", "𐖌");
   ("𐖴", "𐖍"); ("𐖵", "𐖎"); ("𐖶", "𐖏"); ("𐖷", "𐖐"); ("𐖸", "𐖑"); ("𐖹", "𐖒");
   ("𐖻", "𐖔"); ("𐖼", "𐖕"); ("𐳀", "𐲀"); ("𐳁", "𐲁"); ("𐳂", "𐲂"); ("𐳃", "𐲃");
   ("𐳄", "𐲄"); ("𐳅", "𐲅"); ("𐳆", "𐲆"); ("𐳇", "𐲇"); ("𐳈", "𐲈"); ("𐳉", "𐲉");
   ("𐳊", "𐲊"); ("𐳋", "𐲋"); ("𐳌", "𐲌"); ("𐳍", "𐲍"); ("𐳎", "𐲎"); ("𐳏", "𐲏");
   ("𐳐", "𐲐"); ("𐳑", "𐲑"); ("𐳒", "𐲒"); ("𐳓", "𐲓"); ("𐳔", "𐲔"); ("𐳕", "𐲕");
   ("𐳖", "𐲖"); ("𐳗", "𐲗"); ("𐳘", "𐲘"); ("𐳙", "𐲙"); ("𐳚", "𐲚"); ("𐳛", "𐲛");
   ("𐳜", "𐲜"); ("𐳝", "𐲝"); ("𐳞", "𐲞"); ("𐳟", "𐲟"); ("𐳠", "𐲠"); ("𐳡", "𐲡");
   ("𐳢", "𐲢"); ("𐳣", "𐲣"); ("𐳤", "𐲤"); ("𐳥", "𐲥"); ("𐳦", "𐲦"); ("𐳧", "𐲧");
   ("𐳨", "𐲨"); ("𐳩", "𐲩"); ("𐳪", "𐲪"); ("𐳫", "𐲫"); ("𐳬", "𐲬"); ("𐳭", "𐲭");
   ("𐳮", "𐲮"); ("𐳯", "𐲯"); ("𐳰", "𐲰"); ("𐳱", "𐲱"); ("𐳲", "𐲲"); ("𑣀", "𑢠");
   ("𑣁", "𑢡"); ("𑣂", "𑢢"); ("𑣃", "𑢣"); ("𑣄", "𑢤"); ("𑣅", "𑢥"); ("𑣆", "𑢦");
   ("𑣇", "𑢧"); ("𑣈", "𑢨"); ("𑣉", "𑢩"); ("𑣊", "𑢪"); ("𑣋", "𑢫"); ("𑣌", "𑢬");
   ("𑣍", "𑢭"); ("𑣎", "𑢮"); ("𑣏", "𑢯"); ("𑣐", "𑢰"); ("𑣑", "𑢱"); ("𑣒", "𑢲");
   ("𑣓", "𑢳"); ("𑣔", "𑢴"); ("𑣕", "𑢵"); ("𑣖", "𑢶"); ("𑣗", "𑢷"); ("𑣘", "𑢸");
   ("𑣙", "𑢹"); ("𑣚", "𑢺"); ("𑣛", "𑢻"); ("𑣜", "𑢼"); ("𑣝", "𑢽"); ("𑣞", "𑢾");
   ("𑣟", "𑢿"); ("𖹠", "𖹀"); ("𖹡", "𖹁"); ("𖹢", "𖹂"); ("𖹣", "𖹃"); ("𖹤", "𖹄");
   ("𖹥", "𖹅"); ("𖹦", "𖹆"); ("𖹧", "𖹇"); ("𖹨", "𖹈"); ("𖹩", "𖹉"); ("𖹪", "𖹊");
   ("𖹫", "𖹋"); ("𖹬", "𖹌"); ("𖹭", "𖹍"); ("𖹮", "𖹎"); ("𖹯", "𖹏"); ("𖹰", "𖹐");
   ("𖹱", "𖹑"); ("𖹲", "𖹒"); ("𖹳", "𖹓"); ("𖹴", "𖹔"); ("𖹵", "𖹕"); ("𖹶", "𖹖");
   ("𖹷", "𖹗"); ("𖹸", "𖹘"); ("𖹹", "𖹙"); ("𖹺", "𖹚"); ("𖹻", "𖹛"); ("𖹼", "𖹜");
   ("𖹽", "𖹝"); ("𖹾", "𖹞"); ("𖹿", "𖹟"); ("𞤢", "𞤀"); ("𞤣", "𞤁"); ("𞤤", "𞤂");
   ("𞤥", "𞤃"); ("𞤦", "𞤄"); ("𞤧", "𞤅"); ("𞤨", "𞤆"); ("𞤩", "𞤇"); ("𞤪", "𞤈");
   ("𞤫", "𞤉"); ("𞤬", "𞤊"); ("𞤭", "𞤋"); ("𞤮", "𞤌"); ("𞤯", "𞤍"); ("𞤰", "𞤎");
   ("𞤱", "𞤏"); ("𞤲", "𞤐"); ("𞤳", "𞤑"); ("𞤴", "𞤒"); ("𞤵", "𞤓"); ("𞤶", "𞤔");
   ("𞤷", "𞤕"); ("𞤸", "𞤖"); ("𞤹", "𞤗"); ("𞤺", "𞤘"); ("𞤻", "𞤙"); ("𞤼", "𞤚");
   ("𞤽", "𞤛"); ("𞤾", "𞤜"); ("𞤿", "𞤝"); ("𞥀", "𞤞"); ("𞥁", "𞤟"); ("𞥂", "𞤠");
   ("𞥃", "𞤡")].

(** The code points that [str.casefold] changes, with their full case
    folding (Unicode 14.0.0): what caseless matching compares. *)
Definition casefold_table : list (string * string) :=
  letters 65 lower_ascii ++
  [("µ", "μ"); ("À", "à"); ("Á", "á"); ("Â", "â");
   ("Ã", "ã"); ("Ä", "ä"); ("Å", "å"); ("Æ", "æ"); ("Ç", "ç"); ("È", "è");
   ("É", "é"); ("Ê", "ê"); ("Ë", "ë"); ("Ì", "ì"); ("Í", "í"); ("Î", "î");
   ("Ï", "ï"); ("Ð", "ð"); ("Ñ", "ñ"); ("Ò", "ò"); ("Ó", "ó"); ("Ô", "ô");
   ("Õ", "õ"); ("Ö", "ö"); ("Ø", "ø"); ("Ù", "ù"); ("Ú", "ú"); ("Û", "û");
   ("Ü", "ü"); ("Ý", "ý"); ("Þ", "þ"); ("ß", "ss"); ("Ā", "ā"); ("Ă", "ă");
   ("Ą", "ą"); ("Ć", "ć"); ("Ĉ", "ĉ"); ("Ċ", "ċ"); ("Č", "č"); ("Ď", "ď");
   ("Đ", "đ"); ("Ē", "ē"); ("Ĕ", "ĕ"); ("Ė", "ė"); ("Ę", "ę"); ("Ě", "ě");
   ("Ĝ", "ĝ"); ("Ğ", "ğ"); ("Ġ", "ġ"); ("Ģ", "ģ"); ("Ĥ", "ĥ"); ("Ħ", "ħ");
   ("Ĩ", "ĩ"); ("Ī", "ī"); ("Ĭ", "ĭ"); ("Į", "į"); ("İ", "i̇"); ("Ĳ", "ĳ");
   ("Ĵ", "ĵ"); ("Ķ", "ķ"); ("Ĺ", "ĺ"); ("Ļ", "ļ"); ("Ľ", "ľ"); ("Ŀ", "ŀ");
   ("Ł", "ł"); ("Ń", "ń"); ("Ņ", "ņ"); ("Ň", "ň"); ("ŉ", "ʼn"); ("Ŋ", "ŋ");
   ("Ō", "ō"); ("Ŏ", "ŏ"); ("Ő", "ő"); ("Œ", "œ"); ("Ŕ", "ŕ"); ("Ŗ", "ŗ");
   ("Ř", "ř"); ("Ś", "ś"); ("Ŝ", "ŝ"); ("Ş", "ş"); ("Š", "š"); ("Ţ", "ţ");
   ("Ť", "ť"); ("Ŧ", "ŧ"); ("Ũ", "ũ"); ("Ū", "ū"); ("Ŭ", "ŭ"); ("Ů", "ů");
   ("Ű", "ű"); ("Ų", "ų"); ("Ŵ", "ŵ"); ("Ŷ", "ŷ"); ("Ÿ", "ÿ"); ("Ź", "ź");
   ("Ż", "ż"); ("Ž", "ž"); ("ſ", "s"); ("Ɓ", "ɓ"); ("Ƃ", "ƃ"); ("Ƅ", "ƅ");
   ("Ɔ", "ɔ"); ("Ƈ", "ƈ"); ("Ɖ", "ɖ"); ("Ɗ", "ɗ"); ("Ƌ", "ƌ"); ("Ǝ", "ǝ");
   ("Ə", "ə"); ("Ɛ", "ɛ"); ("Ƒ", "ƒ"); ("Ɠ", "ɠ"); ("Ɣ", "ɣ"); ("Ɩ", "ɩ");
   ("Ɨ", "ɨ"); ("Ƙ", "ƙ"); ("Ɯ", "ɯ"); ("Ɲ", "ɲ"); ("Ɵ", "ɵ"); ("Ơ", "ơ");
   ("Ƣ", "ƣ"); ("Ƥ", "ƥ"); ("Ʀ", "ʀ"); ("Ƨ", "ƨ"); ("Ʃ", "ʃ"); ("Ƭ", "ƭ");
   ("Ʈ", "ʈ"); ("Ư", "ư"); ("Ʊ", "ʊ"); ("Ʋ", "ʋ"); ("Ƴ", "ƴ"); ("Ƶ", "ƶ");
   ("Ʒ", "ʒ"); ("Ƹ", "ƹ"); ("Ƽ", "ƽ"); ("Ǆ", "ǆ"); ("ǅ", "ǆ"); ("Ǉ", "ǉ");
   ("ǈ", "ǉ"); ("Ǌ", "ǌ"); ("ǋ", "ǌ"); ("Ǎ", "ǎ"); ("Ǐ", "ǐ"); ("Ǒ", "ǒ");
   ("Ǔ", "ǔ"); ("Ǖ", "ǖ"); ("Ǘ", "ǘ"); ("Ǚ", "ǚ"); ("Ǜ", "ǜ"); ("Ǟ", "ǟ");
   ("Ǡ", "ǡ"); ("Ǣ", "ǣ"); ("Ǥ", "ǥ"); ("Ǧ", "ǧ"); ("Ǩ", "ǩ"); ("Ǫ", "ǫ");
   ("Ǭ", "ǭ"); ("Ǯ", "ǯ"); ("ǰ", "ǰ"); ("Ǳ", "ǳ"); ("ǲ", "ǳ"); ("Ǵ", "ǵ");
   ("Ƕ", "ƕ"); ("Ƿ", "ƿ"); ("Ǹ", "ǹ"); ("Ǻ", "ǻ"); ("Ǽ", "ǽ"); ("Ǿ", "ǿ");
   ("Ȁ", "ȁ"); ("Ȃ", "ȃ"); ("Ȅ", "ȅ"); ("Ȇ", "ȇ"); ("Ȉ", "ȉ"); ("Ȋ", "ȋ");
   ("Ȍ", "ȍ"); ("Ȏ", "ȏ"); ("Ȑ", "ȑ"); ("Ȓ", "ȓ"); ("Ȕ", "ȕ"); ("Ȗ", "ȗ");
   ("Ș", "ș"); ("Ț", "ț"); ("Ȝ", "ȝ"); ("Ȟ", "ȟ"); ("Ƞ", "ƞ"); ("Ȣ", "ȣ");
   ("Ȥ", "ȥ"); ("Ȧ", "ȧ"); ("Ȩ", "ȩ"); ("Ȫ", "ȫ"); ("Ȭ", "ȭ"); ("Ȯ", "ȯ");
   ("Ȱ", "ȱ"); ("Ȳ", "ȳ"); ("Ⱥ", "ⱥ"); ("Ȼ", "ȼ"); ("Ƚ", "ƚ"); ("Ⱦ", "ⱦ");
   ("Ɂ", "ɂ"); ("Ƀ", "ƀ"); ("Ʉ", "ʉ"); ("Ʌ", "ʌ"); ("Ɇ", "ɇ"); ("Ɉ", "ɉ");
   ("Ɋ", "ɋ"); ("Ɍ", "ɍ"); ("Ɏ", "ɏ"); ("ͅ", "ι"); ("Ͱ", "ͱ"); ("Ͳ", "ͳ");
   ("Ͷ", "ͷ"); ("Ϳ", "ϳ"); ("Ά", "ά"); ("Έ", "έ"); ("Ή", "ή"); ("Ί", "ί");
   ("Ό", "ό"); ("Ύ", "ύ"); ("Ώ", "ώ"); ("ΐ", "ΐ"); ("Α", "α"); ("Β", "β");
   ("Γ", "γ"); ("Δ", "δ"); ("Ε", "ε"); ("Ζ", "ζ"); ("Η", "η"); ("Θ", "θ");
   ("Ι", "ι"); ("Κ", "κ"); ("Λ", "λ"); ("Μ", "μ"); ("Ν", "ν"); ("Ξ", "ξ");
   ("Ο", "ο"); ("Π", "π"); ("Ρ", "ρ"); ("Σ", "σ"); ("Τ", "τ"); ("Υ", "υ");
   ("Φ", "φ"); ("Χ", "χ"); ("Ψ", "ψ"); ("Ω", "ω"); ("Ϊ", "ϊ"); ("Ϋ", "ϋ");
   ("ΰ", "ΰ"); ("ς", "σ"); ("Ϗ", "ϗ"); ("ϐ", "β"); ("ϑ", "θ"); ("ϕ", "φ");
   ("ϖ", "π"); ("Ϙ", "ϙ"); ("Ϛ", "ϛ"); ("Ϝ", "ϝ"); ("Ϟ", "ϟ"); ("Ϡ", "ϡ");
   ("Ϣ", "ϣ"); ("Ϥ", "ϥ"); ("Ϧ", "ϧ"); ("Ϩ", "ϩ"); ("Ϫ", "ϫ"); ("Ϭ", "ϭ");
   ("Ϯ", "ϯ"); ("ϰ", "κ"); ("ϱ", "ρ"); ("ϴ", "θ"); ("ϵ", "ε"); ("Ϸ", "ϸ");
   ("Ϲ", "ϲ"); ("Ϻ", "ϻ"); ("Ͻ", "ͻ"); ("Ͼ", "ͼ"); ("Ͽ", "ͽ"); ("Ѐ", "ѐ");
   ("Ё", "ё"); ("Ђ", "ђ"); ("Ѓ", "ѓ"); ("Є", "є"); ("Ѕ", "ѕ"); ("І", "і");
   ("Ї", "ї"); ("Ј", "ј"); ("Љ", "љ"); ("Њ", "њ"); ("Ћ", "ћ"); ("Ќ", "ќ");
   ("Ѝ", "ѝ"); ("Ў", "ў"); ("Џ", "џ"); ("А", "а"); ("Б", "б"); ("В", "в");
   ("Г", "г"); ("Д", "д"); ("Е", "е"); ("Ж", "ж"); ("З", "з"); ("И", "и");
   ("Й", "й"); ("К", "к"); ("Л", "л"); ("М", "м"); ("Н", "н"); ("О", "о");
   ("П", "п"); ("Р", "р"); ("С", "с"); ("Т", "т"); ("У", "у"); ("Ф", "ф");
   ("Х", "х"); ("Ц", "ц"); ("Ч", "ч"); ("Ш", "ш"); ("Щ", "щ"); ("Ъ", "ъ");
   ("Ы", "ы"); ("Ь", "ь"); ("Э", "э"); ("Ю", "ю"); ("Я", "я"); ("Ѡ", "ѡ");
   ("Ѣ", "ѣ"); ("Ѥ", "ѥ"); ("Ѧ", "ѧ"); ("Ѩ", "ѩ"); ("Ѫ", "ѫ"); ("Ѭ", "ѭ");
   ("Ѯ", "ѯ"); ("Ѱ", "ѱ"); ("Ѳ", "ѳ"); ("Ѵ", "ѵ"); ("Ѷ", "ѷ"); ("Ѹ", "ѹ");
   ("Ѻ", "ѻ"); ("Ѽ", "ѽ"); ("Ѿ", "ѿ"); ("Ҁ", "ҁ"); ("Ҋ", "ҋ"); ("Ҍ", "ҍ");
   ("Ҏ", "ҏ"); ("Ґ", "ґ"); ("Ғ", "ғ"); ("Ҕ", "ҕ"); ("Җ", "җ"); ("Ҙ", "ҙ");
   ("Қ", "қ"); ("Ҝ", "ҝ"); ("Ҟ", "ҟ"); ("Ҡ", "ҡ"); ("Ң", "ң"); ("Ҥ", "ҥ");
   ("Ҧ", "ҧ"); ("Ҩ", "ҩ"); ("Ҫ", "ҫ"); ("Ҭ", "ҭ"); ("Ү", "ү"); ("Ұ", "ұ");
   ("Ҳ", "ҳ"); ("Ҵ", "ҵ"); ("Ҷ", "ҷ"); ("Ҹ", "ҹ"); ("Һ", "һ"); ("Ҽ", "ҽ");
   ("Ҿ", "ҿ"); ("Ӏ", "ӏ"); ("Ӂ", "ӂ"); ("Ӄ", "ӄ"); ("Ӆ", "ӆ"); ("Ӈ", "ӈ");
   ("Ӊ", "ӊ"); ("Ӌ", "ӌ"); ("Ӎ", "ӎ"); ("Ӑ", "ӑ"); ("Ӓ", "ӓ"); ("Ӕ", "ӕ");
   ("Ӗ", "ӗ"); ("Ә", "ә"); ("Ӛ", "ӛ"); ("Ӝ", "ӝ"); ("Ӟ", "ӟ"); ("Ӡ", "ӡ");
   ("Ӣ", "ӣ"); ("Ӥ", "ӥ"); ("Ӧ", "ӧ"); ("Ө", "ө"); ("Ӫ", "ӫ"); ("Ӭ", "ӭ");
   ("Ӯ", "ӯ"); ("Ӱ", "ӱ"); ("Ӳ", "ӳ"); ("Ӵ", "ӵ"); ("Ӷ", "ӷ"); ("Ӹ", "ӹ");
   ("Ӻ", "ӻ"); ("Ӽ", "ӽ"); ("Ӿ", "ӿ"); ("Ԁ", "ԁ"); ("Ԃ", "ԃ"); ("Ԅ", "ԅ");
   ("Ԇ", "ԇ"); ("Ԉ", "ԉ"); ("Ԋ", "ԋ"); ("Ԍ", "ԍ"); ("Ԏ", "ԏ"); ("Ԑ", "ԑ");
   ("Ԓ", "ԓ"); ("Ԕ", "ԕ"); ("Ԗ", "ԗ"); ("Ԙ", "ԙ"); ("Ԛ", "ԛ"); ("Ԝ", "ԝ");
   ("Ԟ", "ԟ"); ("Ԡ", "ԡ"); ("Ԣ", "ԣ"); ("Ԥ", "ԥ"); ("Ԧ", "ԧ"); ("Ԩ", "ԩ");
   ("Ԫ", "ԫ"); ("Ԭ", "ԭ"); ("Ԯ", "ԯ"); ("Ա", "ա"); ("Բ", "բ"); ("Գ", "գ");
   ("Դ", "դ"); ("Ե", "ե"); ("Զ", "զ"); ("Է", "է"); ("Ը", "ը"); ("Թ", "թ");
   ("Ժ", "ժ"); ("Ի", "ի"); ("Լ", "լ"); ("Խ", "խ"); ("Ծ", "ծ"); ("Կ", "կ");
   ("Հ", "հ"); ("Ձ", "ձ"); ("Ղ", "ղ"); ("Ճ", "ճ"); ("Մ", "մ"); ("Յ", "յ");
   ("Ն", "ն"); ("Շ", "շ"); ("Ո", "ո"); ("Չ", "չ"); ("Պ", "պ"); ("Ջ", "ջ");
   ("Ռ", "ռ"); ("Ս", "ս"); ("Վ", "վ"); ("Տ", "տ"); ("Ր", "ր"); ("Ց", "ց");
   ("Ւ", "ւ"); ("Փ", "փ"); ("Ք", "ք"); ("Օ", "օ"); ("Ֆ", "ֆ"); ("և", "եւ");
   ("Ⴀ", "ⴀ"); ("Ⴁ", "ⴁ"); ("Ⴂ", "ⴂ"); ("Ⴃ", "ⴃ"); ("Ⴄ", "ⴄ"); ("Ⴅ", "ⴅ");
   ("Ⴆ", "ⴆ"); ("Ⴇ", "ⴇ"); ("Ⴈ", "ⴈ"); ("Ⴉ", "ⴉ"); ("Ⴊ", "ⴊ"); ("Ⴋ", "ⴋ");
   ("Ⴌ", "ⴌ"); ("Ⴍ", "ⴍ"); ("Ⴎ", "ⴎ"); ("Ⴏ", "ⴏ"); ("Ⴐ", "ⴐ"); ("Ⴑ", "ⴑ");
   ("Ⴒ", "ⴒ"); ("Ⴓ", "ⴓ"); ("Ⴔ", "ⴔ"); ("Ⴕ", "ⴕ"); ("Ⴖ", "ⴖ"); ("Ⴗ", "ⴗ");
   ("Ⴘ", "ⴘ"); ("Ⴙ", "ⴙ"); ("Ⴚ", "ⴚ"); ("Ⴛ", "ⴛ"); ("Ⴜ", "ⴜ"); ("Ⴝ", "ⴝ");
   ("Ⴞ", "ⴞ"); ("Ⴟ", "ⴟ"); ("Ⴠ", "ⴠ"); ("Ⴡ", "ⴡ"); ("Ⴢ", "ⴢ"); ("Ⴣ", "ⴣ");
   ("Ⴤ", "ⴤ"); ("Ⴥ", "ⴥ"); ("Ⴧ", "ⴧ"); ("Ⴭ", "ⴭ"); ("ᏸ", "Ᏸ"); ("ᏹ", "Ᏹ");
   ("ᏺ", "Ᏺ"); ("ᏻ", "Ᏻ"); ("ᏼ", "Ᏼ"); ("ᏽ", "Ᏽ"); ("ᲀ", "в"); ("ᲁ", "д");
   ("ᲂ", "о"); ("ᲃ", "с"); ("ᲄ", "т"); ("ᲅ", "т"); ("ᲆ", "ъ"); ("ᲇ", "ѣ");
   ("ᲈ", "ꙋ"); ("Ა", "ა"); ("Ბ", "ბ"); ("Გ", "გ"); ("Დ", "დ"); ("Ე", "ე");
   ("Ვ", "ვ"); ("Ზ", "ზ"); ("Თ", "თ"); ("Ი", "ი"); ("Კ", "კ"); ("Ლ", "ლ");
   ("Მ", "მ"); ("Ნ", "ნ"); ("Ო", "ო"); ("Პ", "პ"); ("Ჟ", "ჟ"); ("Რ", "რ");
   ("Ს", "ს"); ("Ტ", "ტ"); ("Უ", "უ"); ("Ფ", "ფ"); ("Ქ", "ქ"); ("Ღ", "ღ");
   ("Ყ", "ყ"); ("Შ", "შ"); ("Ჩ", "ჩ"); ("Ც", "ც"); ("Ძ", "ძ"); ("Წ", "წ");
   ("Ჭ", "ჭ"); ("Ხ", "ხ"); ("Ჯ", "ჯ"); ("Ჰ", "ჰ"); ("Ჱ", "ჱ"); ("Ჲ", "ჲ");
   ("Ჳ", "ჳ"); ("Ჴ", "ჴ"); ("Ჵ", "ჵ"); ("Ჶ", "ჶ"); ("Ჷ", "ჷ"); ("Ჸ", "ჸ");
   ("Ჹ", "ჹ"); ("Ჺ", "ჺ"); ("Ჽ", "ჽ"); ("Ჾ", "ჾ"); ("Ჿ", "ჿ"); ("Ḁ", "ḁ");
   ("Ḃ", "ḃ"); ("Ḅ", "ḅ"); ("Ḇ", "ḇ"); ("Ḉ", "ḉ"); ("Ḋ", "ḋ"); ("Ḍ", "ḍ");
   ("Ḏ", "ḏ"); ("Ḑ", "ḑ"); ("Ḓ", "ḓ"); ("Ḕ", "ḕ"); ("Ḗ", "ḗ"); ("Ḙ", "ḙ");
   ("Ḛ", "ḛ"); ("Ḝ", "ḝ"); ("Ḟ", "ḟ"); ("Ḡ", "ḡ"); ("Ḣ", "ḣ"); ("Ḥ", "ḥ");
   ("Ḧ", "ḧ"); ("Ḩ", "ḩ"); ("Ḫ", "ḫ"); ("Ḭ", "ḭ"); ("Ḯ", "ḯ"); ("Ḱ", "ḱ");
   ("Ḳ", "ḳ"); ("Ḵ", "ḵ"); ("Ḷ", "ḷ"); ("Ḹ", "ḹ"); ("Ḻ", "ḻ"); ("Ḽ", "ḽ");
   ("Ḿ", "ḿ"); ("Ṁ", "ṁ"); ("Ṃ", "ṃ"); ("Ṅ", "ṅ"); ("Ṇ", "ṇ"); ("Ṉ", "ṉ");
   ("Ṋ", "ṋ"); ("Ṍ", "ṍ"); ("Ṏ", "ṏ"); ("Ṑ", "ṑ"); ("Ṓ", "ṓ"); ("Ṕ", "ṕ");
   ("Ṗ", "ṗ"); ("Ṙ", "ṙ"); ("Ṛ", "ṛ"); ("Ṝ", "ṝ"); ("Ṟ", "ṟ"); ("Ṡ", "ṡ");
   ("Ṣ", "ṣ"); ("Ṥ", "ṥ"); ("Ṧ", "ṧ"); ("Ṩ", "ṩ"); ("Ṫ", "ṫ"); ("Ṭ", "ṭ");
   ("Ṯ", "ṯ"); ("Ṱ", "ṱ"); ("Ṳ", "ṳ"); ("Ṵ", "ṵ"); ("Ṷ", "ṷ"); ("Ṹ", "ṹ");
   ("Ṻ", "ṻ"); ("Ṽ", "ṽ"); ("Ṿ", "ṿ"); ("Ẁ", "ẁ"); ("Ẃ", "ẃ"); ("Ẅ", "ẅ");
   ("Ẇ", "ẇ"); ("Ẉ", "ẉ"); ("Ẋ", "ẋ"); ("Ẍ", "ẍ"); ("Ẏ", "ẏ"); ("Ẑ", "ẑ");
   ("Ẓ", "ẓ"); ("Ẕ", "ẕ"); ("ẖ", "ẖ"); ("ẗ", "ẗ"); ("ẘ", "ẘ"); ("ẙ", "ẙ");
   ("ẚ", "aʾ"); ("ẛ", "ṡ"); ("ẞ", "ss"); ("Ạ", "ạ"); ("Ả", "ả"); ("Ấ", "ấ");
   ("Ầ", "ầ"); ("Ẩ", "ẩ"); ("Ẫ", "ẫ"); ("Ậ", "ậ"); ("Ắ", "ắ"); ("Ằ", "ằ");
   ("Ẳ", "ẳ"); ("Ẵ", "ẵ"); ("Ặ", "ặ"); ("Ẹ", "ẹ"); ("Ẻ", "ẻ"); ("Ẽ", "ẽ");
   ("Ế", "ế"); ("Ề", "ề"); ("Ể", "ể"); ("Ễ", "ễ"); ("Ệ", "ệ"); ("Ỉ", "ỉ");
   ("Ị", "ị"); ("Ọ", "ọ"); ("Ỏ", "ỏ"); ("Ố", "ố"); ("Ồ", "ồ"); ("Ổ", "ổ");
   ("Ỗ", "ỗ"); ("Ộ", "ộ"); ("Ớ", "ớ"); ("Ờ", "ờ"); ("Ở", "ở"); ("Ỡ", "ỡ");
   ("Ợ", "ợ"); ("Ụ", "ụ"); ("Ủ", "ủ"); ("Ứ", "ứ"); ("Ừ", "ừ"); ("Ử", "ử");
   ("Ữ", "ữ"); ("Ự", "ự"); ("Ỳ", "ỳ"); ("Ỵ", "ỵ"); ("Ỷ", "ỷ"); ("Ỹ", "ỹ");
   ("Ỻ", "ỻ"); ("Ỽ", "ỽ"); ("Ỿ", "ỿ"); ("Ἀ", "ἀ"); ("Ἁ", "ἁ"); ("Ἂ", "ἂ");
   ("Ἃ", "ἃ"); ("Ἄ", "ἄ"); ("Ἅ", "ἅ"); ("Ἆ", "ἆ"); ("Ἇ", "ἇ"); ("Ἐ", "ἐ");
   ("Ἑ", "ἑ"); ("Ἒ", "ἒ"); ("Ἓ", "ἓ"); ("Ἔ", "ἔ"); ("Ἕ", "ἕ"); ("Ἠ", "ἠ");
   ("Ἡ", "ἡ"); ("Ἢ", "ἢ"); ("Ἣ", "ἣ"); ("Ἤ", "ἤ"); ("Ἥ", "ἥ"); ("Ἦ", "ἦ");
   ("Ἧ", "ἧ"); ("Ἰ", "ἰ"); ("Ἱ", "ἱ"); ("Ἲ", "ἲ"); ("Ἳ", "ἳ"); ("Ἴ", "ἴ");
   ("Ἵ", "ἵ"); ("Ἶ", "ἶ"); ("Ἷ", "ἷ"); ("Ὀ", "ὀ"); ("Ὁ", "ὁ"); ("Ὂ", "ὂ");
   ("Ὃ", "ὃ"); ("Ὄ", "ὄ"); ("Ὅ", "ὅ"); ("ὐ", "ὐ"); ("ὒ", "ὒ");
   ("ὔ", "ὔ"); ("ὖ", "ὖ"); ("Ὑ", "ὑ"); ("Ὓ", "ὓ"); ("Ὕ", "ὕ"); ("Ὗ", "ὗ");
   ("Ὠ", "ὠ"); ("Ὡ", "ὡ"); ("Ὢ", "ὢ"); ("Ὣ", "ὣ"); ("Ὤ", "ὤ"); ("Ὥ", "ὥ");
   ("Ὦ", "ὦ"); ("Ὧ", "ὧ"); ("ᾀ", "ἀι"); ("ᾁ", "ἁι"); ("ᾂ", "ἂι"); ("ᾃ", "ἃι");
   ("ᾄ", "ἄι"); ("ᾅ", "ἅι"); ("ᾆ", "ἆι"); ("ᾇ", "ἇι"); ("ᾈ", "ἀι");
   ("ᾉ", "ἁι"); ("ᾊ", "ἂι"); ("ᾋ", "ἃι"); ("ᾌ", "ἄι"); ("ᾍ", "ἅι");
   ("ᾎ", "ἆι"); ("ᾏ", "ἇι"); ("ᾐ", "ἠι"); ("ᾑ", "ἡι"); ("ᾒ", "ἢι");
   ("ᾓ", "ἣι"); ("ᾔ", "ἤι"); ("ᾕ", "ἥι"); ("ᾖ", "ἦι"); ("ᾗ", "ἧι");
   ("ᾘ", "ἠι"); ("ᾙ", "ἡι"); ("ᾚ", "ἢι"); ("ᾛ", "ἣι"); ("ᾜ", "ἤι");
   ("ᾝ", "ἥι"); ("ᾞ", "ἦι"); ("ᾟ", "ἧι"); ("ᾠ", "ὠι"); ("ᾡ", "ὡι");
   ("ᾢ", "ὢι"); ("ᾣ", "ὣι"); ("ᾤ", "ὤι"); ("ᾥ", "ὥι"); ("ᾦ", "ὦι");
   ("ᾧ", "ὧι"); ("ᾨ", "ὠι"); ("ᾩ", "ὡι"); ("ᾪ", "ὢι"); ("ᾫ", "ὣι");
   ("ᾬ", "ὤι"); ("ᾭ", "ὥι"); ("ᾮ", "ὦι"); ("ᾯ", "ὧι"); ("ᾲ", "ὰι");
   ("ᾳ", "αι"); ("ᾴ", "άι"); ("ᾶ", "ᾶ"); ("ᾷ", "ᾶι"); ("Ᾰ", "ᾰ");
   ("Ᾱ", "ᾱ"); ("Ὰ", "ὰ"); ("Ά", "ά"); ("ᾼ", "αι"); ("ι", "ι"); ("ῂ", "ὴι");
   ("ῃ", "ηι"); ("ῄ", "ήι"); ("ῆ", "ῆ"); ("ῇ", "ῆι"); ("Ὲ", "ὲ");
   ("Έ", "έ"); ("Ὴ", "ὴ"); ("Ή", "ή"); ("ῌ", "ηι"); ("ῒ", "ῒ");
   ("ΐ", "ΐ"); ("ῖ", "ῖ"); ("ῗ", "ῗ"); ("Ῐ", "ῐ"); ("Ῑ", "ῑ");
   ("Ὶ", "ὶ"); ("Ί", "ί"); ("ῢ", "ῢ"); ("ΰ", "ΰ"); ("ῤ", "ῤ");
   ("ῦ", "ῦ"); ("ῧ", "ῧ"); ("Ῠ", "ῠ"); ("Ῡ", "ῡ"); ("Ὺ", "ὺ"); ("Ύ", "ύ");
   ("Ῥ", "ῥ"); ("ῲ", "ὼι"); ("ῳ", "ωι"); ("ῴ", "ώι"); ("ῶ", "ῶ");
   ("ῷ", "ῶι"); ("Ὸ", "ὸ"); ("Ό", "ό"); ("Ὼ", "ὼ"); ("Ώ", "ώ"); ("ῼ", "ωι");
   ("Ω", "ω"); ("K", "k"); ("Å", "å"); ("Ⅎ", "ⅎ"); ("Ⅰ", "ⅰ"); ("Ⅱ", "ⅱ");
   ("Ⅲ", "ⅲ"); ("Ⅳ", "ⅳ"); ("Ⅴ", "ⅴ"); ("Ⅵ", "ⅵ"); ("Ⅶ", "ⅶ"); ("Ⅷ", "ⅷ");
   ("Ⅸ", "ⅸ"); ("Ⅹ", "ⅹ"); ("Ⅺ", "ⅺ"); ("Ⅻ", "ⅻ"); ("Ⅼ", "ⅼ"); ("Ⅽ", "ⅽ");
   ("Ⅾ", "ⅾ"); ("Ⅿ", "ⅿ"); ("Ↄ", "ↄ"); ("Ⓐ", "ⓐ"); ("Ⓑ", "ⓑ"); ("Ⓒ", "ⓒ");
   ("Ⓓ", "ⓓ"); ("Ⓔ", "ⓔ"); ("Ⓕ", "ⓕ"); ("Ⓖ", "ⓖ"); ("Ⓗ", "ⓗ"); ("Ⓘ", "ⓘ");
   ("Ⓙ", "ⓙ"); ("Ⓚ", "ⓚ"); ("Ⓛ", "ⓛ"); ("Ⓜ", "ⓜ"); ("Ⓝ", "ⓝ"); ("Ⓞ", "ⓞ");
   ("Ⓟ", "ⓟ"); ("Ⓠ", "ⓠ"); ("Ⓡ", "ⓡ"); ("Ⓢ", "ⓢ"); ("Ⓣ", "ⓣ"); ("Ⓤ", "ⓤ");
   ("Ⓥ", "ⓥ"); ("Ⓦ", "ⓦ"); ("Ⓧ", "ⓧ"); ("Ⓨ", "ⓨ"); ("Ⓩ", "ⓩ"); ("Ⰰ", "ⰰ");
   ("Ⰱ", "ⰱ"); ("Ⰲ", "ⰲ"); ("Ⰳ", "ⰳ"); ("Ⰴ", "ⰴ"); ("Ⰵ", "ⰵ"); ("Ⰶ", "ⰶ");
   ("Ⰷ", "ⰷ"); ("Ⰸ", "ⰸ"); ("Ⰹ", "ⰹ"); ("Ⰺ", "ⰺ"); ("Ⰻ", "ⰻ"); ("Ⰼ", "ⰼ");
   ("Ⰽ", "ⰽ"); ("Ⰾ", "ⰾ"); ("Ⰿ", "ⰿ"); ("Ⱀ", "ⱀ"); ("Ⱁ", "ⱁ"); ("Ⱂ", "ⱂ");
   ("Ⱃ", "ⱃ"); ("Ⱄ", "ⱄ"); ("Ⱅ", "ⱅ"); ("Ⱆ", "ⱆ"); ("Ⱇ", "ⱇ"); ("Ⱈ", "ⱈ");
   ("Ⱉ", "ⱉ"); ("Ⱊ", "ⱊ"); ("Ⱋ", "ⱋ"); ("Ⱌ", "ⱌ"); ("Ⱍ", "ⱍ"); ("Ⱎ", "ⱎ");
   ("Ⱏ", "ⱏ"); ("Ⱐ", "ⱐ"); ("Ⱑ", "ⱑ"); ("Ⱒ", "ⱒ"); ("Ⱓ", "ⱓ"); ("Ⱔ", "ⱔ");
   ("Ⱕ", "ⱕ"); ("Ⱖ", "ⱖ"); ("Ⱗ", "ⱗ"); ("Ⱘ", "ⱘ"); ("Ⱙ", "ⱙ"); ("Ⱚ", "ⱚ");
   ("Ⱛ", "ⱛ"); ("Ⱜ", "ⱜ"); ("Ⱝ", "ⱝ"); ("Ⱞ", "ⱞ"); ("Ⱟ", "ⱟ"); ("Ⱡ", "ⱡ");
   ("Ɫ", "ɫ"); ("Ᵽ", "ᵽ"); ("Ɽ", "ɽ"); ("Ⱨ", "ⱨ"); ("Ⱪ", "ⱪ"); ("Ⱬ", "ⱬ");
   ("Ɑ", "ɑ"); ("Ɱ", "ɱ"); ("Ɐ", "ɐ"); ("Ɒ", "ɒ"); ("Ⱳ", "ⱳ"); ("Ⱶ", "ⱶ");
   ("Ȿ", "ȿ"); ("Ɀ", "ɀ"); ("Ⲁ", "ⲁ"); ("Ⲃ", "ⲃ"); ("Ⲅ", "ⲅ"); ("Ⲇ", "ⲇ");
   ("Ⲉ", "ⲉ"); ("Ⲋ", "ⲋ"); ("Ⲍ", "ⲍ"); ("Ⲏ", "ⲏ"); ("Ⲑ", "ⲑ"); ("Ⲓ", "ⲓ");
   ("Ⲕ", "ⲕ"); ("Ⲗ", "ⲗ"); ("Ⲙ", "ⲙ"); ("Ⲛ", "ⲛ"); ("Ⲝ", "ⲝ"); ("Ⲟ", "ⲟ");
   ("Ⲡ", "ⲡ"); ("Ⲣ", "ⲣ"); ("Ⲥ", "ⲥ"); ("Ⲧ", "ⲧ"); ("Ⲩ", "ⲩ"); ("Ⲫ", "ⲫ");
   ("Ⲭ", "ⲭ"); ("Ⲯ", "ⲯ"); ("Ⲱ", "ⲱ"); ("Ⲳ", "ⲳ"); ("Ⲵ", "ⲵ"); ("Ⲷ", "ⲷ");
   ("Ⲹ", "ⲹ"); ("Ⲻ", "ⲻ"); ("Ⲽ", "ⲽ"); ("Ⲿ", "ⲿ"); ("Ⳁ", "ⳁ"); ("Ⳃ", "ⳃ");
   ("Ⳅ", "ⳅ"); ("Ⳇ", "ⳇ"); ("Ⳉ", "ⳉ"); ("Ⳋ", "ⳋ"); ("Ⳍ", "ⳍ"); ("Ⳏ", "ⳏ");
   ("Ⳑ", "ⳑ"); ("Ⳓ", "ⳓ"); ("Ⳕ", "ⳕ"); ("Ⳗ", "ⳗ"); ("Ⳙ", "ⳙ"); ("Ⳛ", "ⳛ");
   ("Ⳝ", "ⳝ"); ("Ⳟ", "ⳟ"); ("Ⳡ", "ⳡ"); ("Ⳣ", "ⳣ"); ("Ⳬ", "ⳬ"); ("Ⳮ", "ⳮ");
   ("Ⳳ", "ⳳ"); ("Ꙁ", "ꙁ"); ("Ꙃ", "ꙃ"); ("Ꙅ", "ꙅ"); ("Ꙇ", "ꙇ"); ("Ꙉ", "ꙉ");
   ("Ꙋ", "ꙋ"); ("Ꙍ", "ꙍ"); ("Ꙏ", "ꙏ"); ("Ꙑ", "ꙑ"); ("Ꙓ", "ꙓ"); ("Ꙕ", "ꙕ");
   ("Ꙗ", "ꙗ"); ("Ꙙ", "ꙙ"); ("Ꙛ", "ꙛ"); ("Ꙝ", "ꙝ"); ("Ꙟ", "ꙟ"); ("Ꙡ", "ꙡ");
   ("Ꙣ", "ꙣ"); ("Ꙥ", "ꙥ"); ("Ꙧ", "ꙧ"); ("Ꙩ", "ꙩ"); ("Ꙫ", "ꙫ"); ("Ꙭ", "ꙭ");
   ("Ꚁ", "ꚁ"); ("Ꚃ", "ꚃ"); ("Ꚅ", "ꚅ"); ("Ꚇ", "ꚇ"); ("Ꚉ", "ꚉ"); ("Ꚋ", "ꚋ");
   ("Ꚍ", "ꚍ"); ("Ꚏ", "ꚏ"); ("Ꚑ", "ꚑ"); ("Ꚓ", "ꚓ"); ("Ꚕ", "ꚕ"); ("Ꚗ", "ꚗ");
   ("Ꚙ", "ꚙ"); ("Ꚛ", "ꚛ"); ("Ꜣ", "ꜣ"); ("Ꜥ", "ꜥ"); ("Ꜧ", "ꜧ"); ("Ꜩ", "ꜩ");
   ("Ꜫ", "ꜫ"); ("Ꜭ", "ꜭ"); ("Ꜯ", "ꜯ"); ("Ꜳ", "ꜳ"); ("Ꜵ", "ꜵ"); ("Ꜷ", "ꜷ");
   ("Ꜹ", "ꜹ"); ("Ꜻ", "ꜻ"); ("Ꜽ", "ꜽ"); ("Ꜿ", "ꜿ"); ("Ꝁ", "ꝁ"); ("Ꝃ", "ꝃ");
   ("Ꝅ", "ꝅ"); ("Ꝇ", "ꝇ"); ("Ꝉ", "ꝉ"); ("Ꝋ", "ꝋ"); ("Ꝍ", "ꝍ"); ("Ꝏ", "ꝏ");
   ("Ꝑ", "ꝑ"); ("Ꝓ", "ꝓ"); ("Ꝕ", "ꝕ"); ("Ꝗ", "ꝗ"); ("Ꝙ", "ꝙ"); ("Ꝛ", "ꝛ");
   ("Ꝝ", "ꝝ"); ("Ꝟ", "ꝟ"); ("Ꝡ", "ꝡ"); ("Ꝣ", "ꝣ"); ("Ꝥ", "ꝥ"); ("Ꝧ", "ꝧ");
   ("Ꝩ", "ꝩ"); ("Ꝫ", "ꝫ"); ("Ꝭ", "ꝭ"); ("Ꝯ", "ꝯ"); ("Ꝺ", "ꝺ"); ("Ꝼ", "ꝼ");
   ("Ᵹ", "ᵹ"); ("Ꝿ", "ꝿ"); ("Ꞁ", "ꞁ"); ("Ꞃ", "ꞃ"); ("Ꞅ", "ꞅ"); ("Ꞇ", "ꞇ");
   ("Ꞌ", "ꞌ"); ("Ɥ", "ɥ"); ("Ꞑ", "ꞑ"); ("Ꞓ", "ꞓ"); ("Ꞗ", "ꞗ"); ("Ꞙ", "ꞙ");
   ("Ꞛ", "ꞛ"); ("Ꞝ", "ꞝ"); ("Ꞟ", "ꞟ"); ("Ꞡ", "ꞡ"); ("Ꞣ", "ꞣ"); ("Ꞥ", "ꞥ");
   ("Ꞧ", "ꞧ"); ("Ꞩ", "ꞩ"); ("Ɦ", "ɦ"); ("Ɜ", "ɜ"); ("Ɡ", "ɡ"); ("Ɬ", "ɬ");
   ("Ɪ", "ɪ"); ("Ʞ", "ʞ"); ("Ʇ", "ʇ"); ("Ʝ", "ʝ"); ("Ꭓ", "ꭓ"); ("Ꞵ", "ꞵ");
   ("Ꞷ", "ꞷ"); ("Ꞹ", "ꞹ"); ("Ꞻ", "ꞻ"); ("Ꞽ", "ꞽ"); ("Ꞿ", "ꞿ"); ("Ꟁ", "ꟁ");
   ("Ꟃ", "ꟃ"); ("Ꞔ", "ꞔ"); ("Ʂ", "ʂ"); ("Ᶎ", "ᶎ"); ("Ꟈ", "ꟈ"); ("Ꟊ", "ꟊ");
   ("Ꟑ", "ꟑ"); ("Ꟗ", "ꟗ"); ("Ꟙ", "ꟙ"); ("Ꟶ", "ꟶ"); ("ꭰ", "Ꭰ"); ("ꭱ", "Ꭱ");
   ("ꭲ", "Ꭲ"); ("ꭳ", "Ꭳ"); ("ꭴ", "Ꭴ"); ("ꭵ", "Ꭵ"); ("ꭶ", "Ꭶ"); ("ꭷ", "Ꭷ");
   ("ꭸ", "Ꭸ"); ("ꭹ", "Ꭹ"); ("ꭺ", "Ꭺ"); ("ꭻ", "Ꭻ"); ("ꭼ", "Ꭼ"); ("ꭽ", "Ꭽ");
   ("ꭾ", "Ꭾ"); ("ꭿ", "Ꭿ"); ("ꮀ", "Ꮀ"); ("ꮁ", "Ꮁ"); ("ꮂ", "Ꮂ"); ("ꮃ", "Ꮃ");
   ("ꮄ", "Ꮄ"); ("ꮅ", "Ꮅ"); ("ꮆ", "Ꮆ"); ("ꮇ", "Ꮇ"); ("ꮈ", "Ꮈ"); ("ꮉ", "Ꮉ");
   ("ꮊ", "Ꮊ"); ("ꮋ", "Ꮋ"); ("ꮌ", "Ꮌ"); ("ꮍ", "Ꮍ"); ("ꮎ", "Ꮎ"); ("ꮏ", "Ꮏ");
   ("ꮐ", "Ꮐ"); ("ꮑ", "Ꮑ"); ("ꮒ", "Ꮒ"); ("ꮓ", "Ꮓ"); ("ꮔ", "Ꮔ"); ("ꮕ", "Ꮕ");
   ("ꮖ", "Ꮖ"); ("ꮗ", "Ꮗ"); ("ꮘ", "Ꮘ"); ("ꮙ", "Ꮙ"); ("ꮚ", "Ꮚ"); ("ꮛ", "Ꮛ");
   ("ꮜ", "Ꮜ"); ("ꮝ", "Ꮝ"); ("ꮞ", "Ꮞ"); ("ꮟ", "Ꮟ"); ("ꮠ", "Ꮠ"); ("ꮡ", "Ꮡ");
   ("ꮢ", "Ꮢ"); ("ꮣ", "Ꮣ"); ("ꮤ", "Ꮤ"); ("ꮥ", "Ꮥ"); ("ꮦ", "Ꮦ"); ("ꮧ", "Ꮧ");
   ("ꮨ", "Ꮨ"); ("ꮩ", "Ꮩ"); ("ꮪ", "Ꮪ"); ("ꮫ", "Ꮫ"); ("ꮬ", "Ꮬ"); ("ꮭ", "Ꮭ");
   ("ꮮ", "Ꮮ"); ("ꮯ", "Ꮯ"); ("ꮰ", "Ꮰ"); ("ꮱ", "Ꮱ"); ("ꮲ", "Ꮲ"); ("ꮳ", "Ꮳ");
   ("ꮴ", "Ꮴ"); ("ꮵ", "Ꮵ"); ("ꮶ", "Ꮶ"); ("ꮷ", "Ꮷ"); ("ꮸ", "Ꮸ"); ("ꮹ", "Ꮹ");
   ("ꮺ", "Ꮺ"); ("ꮻ", "Ꮻ"); ("ꮼ", "Ꮼ"); ("ꮽ", "Ꮽ"); ("ꮾ", "Ꮾ"); ("ꮿ", "Ꮿ");
   ("ﬀ", "ff"); ("ﬁ", "fi"); ("ﬂ", "fl"); ("ﬃ", "ffi"); ("ﬄ", "ffl");
   ("ﬅ", "st"); ("ﬆ", "st"); ("ﬓ", "մն"); ("ﬔ", "մե"); ("ﬕ", "մի");
   ("ﬖ", "վն"); ("ﬗ", "մխ"); ("Ａ", "ａ"); ("Ｂ", "ｂ"); ("Ｃ", "ｃ"); ("Ｄ", "ｄ");
   ("Ｅ", "ｅ"); ("Ｆ", "ｆ"); ("Ｇ", "ｇ"); ("Ｈ", "ｈ"); ("Ｉ", "ｉ"); ("Ｊ", "ｊ");
   ("Ｋ", "ｋ"); ("Ｌ", "ｌ"); ("Ｍ", "ｍ"); ("Ｎ", "ｎ"); ("Ｏ", "ｏ"); ("Ｐ", "ｐ");
   ("Ｑ", "ｑ"); ("Ｒ", "ｒ"); ("Ｓ", "ｓ"); ("Ｔ", "ｔ"); ("Ｕ", "ｕ"); ("Ｖ", "ｖ");
   ("Ｗ", "ｗ"); ("Ｘ", "ｘ"); ("Ｙ", "ｙ"); ("Ｚ", "ｚ"); ("𐐀", "𐐨"); ("𐐁", "𐐩");
   ("𐐂", "𐐪"); ("𐐃", "𐐫"); ("𐐄", "𐐬"); ("𐐅", "𐐭"); ("𐐆", "𐐮"); ("𐐇", "𐐯");
   ("𐐈", "𐐰"); ("𐐉", "𐐱"); ("𐐊", "𐐲"); ("𐐋", "𐐳"); ("𐐌", "𐐴"); ("𐐍", "𐐵");
   ("𐐎", "𐐶"); ("𐐏", "𐐷"); ("𐐐", "𐐸"); ("𐐑", "𐐹"); ("𐐒", "𐐺"); ("𐐓", "𐐻");
   ("𐐔", "𐐼"); ("𐐕", "𐐽"); ("𐐖", "𐐾"); ("𐐗", "𐐿"); ("𐐘", "𐑀"); ("𐐙", "𐑁");
   ("𐐚", "𐑂"); ("𐐛", "𐑃"); ("𐐜", "𐑄"); ("𐐝", "𐑅"); ("𐐞", "𐑆"); ("𐐟", "𐑇");
   ("𐐠", "𐑈"); ("𐐡", "𐑉"); ("𐐢", "𐑊"); ("𐐣", "𐑋"); ("𐐤", "𐑌"); ("𐐥", "𐑍");
   ("𐐦", "𐑎"); ("𐐧", "𐑏"); ("𐒰", "𐓘"); ("𐒱", "𐓙"); ("𐒲", "𐓚"); ("𐒳", "𐓛");
   ("𐒴", "𐓜"); ("𐒵", "𐓝"); ("𐒶", "𐓞"); ("𐒷", "𐓟"); ("𐒸", "𐓠"); ("𐒹", "𐓡");
   ("𐒺", "𐓢"); ("𐒻", "𐓣"); ("𐒼", "𐓤"); ("𐒽", "𐓥"); ("𐒾", "𐓦"); ("𐒿", "𐓧");
   ("𐓀", "𐓨"); ("𐓁", "𐓩"); ("𐓂", "𐓪"); ("𐓃", "𐓫"); ("𐓄", "𐓬"); ("𐓅", "𐓭");
   ("𐓆", "𐓮"); ("𐓇", "𐓯"); ("𐓈", "𐓰"); ("𐓉", "𐓱"); ("𐓊", "𐓲"); ("𐓋", "𐓳");
   ("𐓌", "𐓴"); ("𐓍", "𐓵"); ("𐓎", "𐓶"); ("𐓏", "𐓷"); ("𐓐", "𐓸"); ("𐓑", "𐓹");
   ("𐓒", "𐓺"); ("𐓓", "𐓻"); ("𐕰", "𐖗"); ("𐕱", "𐖘"); ("𐕲", "𐖙"); ("𐕳", "𐖚");
   ("𐕴", "𐖛"); ("𐕵", "𐖜"); ("𐕶", "𐖝"); ("𐕷", "𐖞"); ("𐕸", "𐖟"); ("𐕹", "𐖠");
   ("𐕺", "𐖡"); ("𐕼", "𐖣"); ("𐕽", "𐖤"); ("𐕾", "𐖥"); ("𐕿", "𐖦"); ("𐖀", "𐖧");
   ("𐖁", "𐖨"); ("𐖂", "𐖩"); ("𐖃", "𐖪"); ("𐖄", "𐖫"); ("𐖅", "𐖬"); ("𐖆", "𐖭");
   ("𐖇", "𐖮"); ("𐖈", "𐖯"); ("𐖉", "𐖰"); ("𐖊", "𐖱"); ("𐖌", "𐖳"); ("𐖍", "𐖴");
   ("𐖎", "𐖵"); ("𐖏", "𐖶"); ("𐖐", "𐖷"); ("𐖑", "𐖸"); ("𐖒", "𐖹"); ("𐖔", "𐖻");
   ("𐖕", "𐖼"); ("𐲀", "𐳀"); ("𐲁", "𐳁"); ("𐲂", "𐳂"); ("𐲃", "𐳃"); ("𐲄", "𐳄");
   ("𐲅", "𐳅"); ("𐲆", "𐳆"); ("𐲇", "𐳇"); ("𐲈", "𐳈"); ("𐲉", "𐳉"); ("𐲊", "𐳊");
   ("𐲋", "𐳋"); ("𐲌", "𐳌"); ("𐲍", "𐳍"); ("𐲎", "𐳎"); ("𐲏", "𐳏"); ("𐲐", "𐳐");
   ("𐲑", "𐳑"); ("𐲒", "𐳒"); ("𐲓", "𐳓"); ("𐲔", "𐳔"); ("𐲕", "𐳕"); ("𐲖", "𐳖");
   ("𐲗", "𐳗"); ("𐲘", "𐳘"); ("𐲙", "𐳙"); ("𐲚", "𐳚"); ("𐲛", "𐳛"); ("𐲜", "𐳜");
   ("𐲝", "𐳝"); ("𐲞", "𐳞"); ("𐲟", "𐳟"); ("𐲠", "𐳠"); ("𐲡", "𐳡"); ("𐲢", "𐳢");
   ("𐲣", "𐳣"); ("𐲤", "𐳤"); ("𐲥", "𐳥"); ("𐲦", "𐳦"); ("𐲧", "𐳧"); ("𐲨", "𐳨");
   ("𐲩", "𐳩"); ("𐲪", "𐳪"); ("𐲫", "𐳫"); ("𐲬", "𐳬"); ("𐲭", "𐳭"); ("𐲮", "𐳮");
   ("𐲯", "𐳯"); ("𐲰", "𐳰"); ("𐲱", "𐳱"); ("𐲲", "𐳲"); ("𑢠", "𑣀"); ("𑢡", "𑣁");
   ("𑢢", "𑣂"); ("𑢣", "𑣃"); ("𑢤", "𑣄"); ("𑢥", "𑣅"); ("𑢦", "𑣆"); ("𑢧", "𑣇");
   ("𑢨", "𑣈"); ("𑢩", "𑣉"); ("𑢪", "𑣊"); ("𑢫", "𑣋"); ("𑢬", "𑣌"); ("𑢭", "𑣍");
   ("𑢮", "𑣎"); ("𑢯", "𑣏"); ("𑢰", "𑣐"); ("𑢱", "𑣑"); ("𑢲", "𑣒"); ("𑢳", "𑣓");
   ("𑢴", "𑣔"); ("𑢵", "𑣕"); ("𑢶", "𑣖"); ("𑢷", "𑣗"); ("𑢸", "𑣘"); ("𑢹", "𑣙");
   ("𑢺", "𑣚"); ("𑢻", "𑣛"); ("𑢼", "𑣜"); ("𑢽", "𑣝"); ("𑢾", "𑣞"); ("𑢿", "𑣟");
   ("𖹀", "𖹠"); ("𖹁", "𖹡"); ("𖹂", "𖹢"); ("𖹃", "𖹣"); ("𖹄", "𖹤"); ("𖹅", "𖹥");
   ("𖹆", "𖹦"); ("𖹇", "𖹧"); ("𖹈", "𖹨"); ("𖹉", "𖹩"); ("𖹊", "𖹪"); ("𖹋", "𖹫");
   ("𖹌", "𖹬"); ("𖹍", "𖹭"); ("𖹎", "𖹮"); ("𖹏", "𖹯"); ("𖹐", "𖹰"); ("𖹑", "𖹱");
   ("𖹒", "𖹲"); ("𖹓", "𖹳"); ("𖹔", "𖹴"); ("𖹕", "𖹵"); ("𖹖", "𖹶"); ("𖹗", "𖹷");
   ("𖹘", "𖹸"); ("𖹙", "𖹹"); ("𖹚", "𖹺"); ("𖹛", "𖹻"); ("𖹜", "𖹼"); ("𖹝", "𖹽");
   ("𖹞", "𖹾"); ("𖹟", "𖹿"); ("𞤀", "𞤢"); ("𞤁", "𞤣"); ("𞤂", "𞤤"); ("𞤃", "𞤥");
   ("𞤄", "𞤦"); ("𞤅", "𞤧"); ("𞤆", "𞤨"); ("𞤇", "𞤩"); ("𞤈", "𞤪"); ("𞤉", "𞤫");
   ("𞤊", "𞤬"); ("𞤋", "𞤭"); ("𞤌", "𞤮"); ("𞤍", "𞤯"); ("𞤎", "𞤰"); ("𞤏", "𞤱");
   ("𞤐", "𞤲"); ("𞤑", "𞤳"); ("𞤒", "𞤴"); ("𞤓", "𞤵"); ("𞤔", "𞤶"); ("𞤕", "𞤷");
   ("𞤖", "𞤸"); ("𞤗", "𞤹"); ("𞤘", "𞤺"); ("𞤙", "𞤻"); ("𞤚", "𞤼"); ("𞤛", "𞤽");
   ("𞤜", "𞤾"); ("𞤝", "𞤿"); ("𞤞", "𞥀"); ("𞤟", "𞥁"); ("𞤠", "𞥂"); ("𞤡", "𞥃")].

(** A code point through a table: its image, or itself when the table
    has no entry for it. *)
Definition map_codepoint (table : list (string * string)) (c : string) : string :=
  match case_lookup c table with
  | Some u => u
  | None => c
  end.

Definition upper_codepoint : string -> string := map_codepoint upper_table.

Definition fold_codepoint : string -> string := map_codepoint casefold_table.

(** [s.upper()] *)
Definition upper (s : string) : string :=
  cat (map upper_codepoint (codepoints s)).

(** [s.casefold()] *)
Definition casefold (s : string) : string :=
  cat (map fold_codepoint (codepoints s)).

(** [sep.join(xs)] *)
Fixpoint join (sep : string) (xs : list string) : string :=
  match xs with
  | [] => ""
  | [x] => x
  | x :: xs' => x +:+ sep +:+ join sep xs'
  end.

(* ===================================================================== *)
(** ** Exceptions *)

(** What a call on the server object can raise: [imaplib.IMAP4.error]
    (or a subclass of it), which [process_one_folder] catches around
    [select_folder], or anything else (a socket error, say). *)
Inductive server_error :=
| IMAP4_error (msg : string)
| other_error (msg : string).

Inductive exn :=
| ValueError (arg : string)
| AttributeError (name : string)
| IndexError
| KeyError
| NoSuchAccount (account : string)
| NoMatchingFolders (msg : string)
| InvalidOptions (msg : string)
| NoMatchingMessages (msg : string)
| ServerError (e : server_error).

Inductive result (A : Type) :=
| Ok (a : A)
| Raise (e : exn).
Arguments Ok {A} a.
Arguments Raise {A} e.

(* ===================================================================== *)
(** ** The specification parsers *)

Definition valid_flags : list string :=
  ["SEEN"; "ANSWERED"; "FLAGGED"; "DELETED"; "DRAFT"; "RECENT"].

(** The module attributes [imapclient.SEEN], ..., [imapclient.RECENT]:
    the flag constants of the client library, kept symbolic. *)
Inductive imapclient_flag :=
| SEEN | ANSWERED | FLAGGED | DELETED | DRAFT | RECENT.

(** [getattr(imapclient, name)].  [flagspec] only asks for the names
    of [valid_flags]; for a name outside them the model answers with
    [AttributeError]. *)
Definition getattr_imapclient (name : string) : result imapclient_flag :=
  if String.eqb name "SEEN" then Ok SEEN
  else if String.eqb name "ANSWERED" then Ok ANSWERED
  else if String.eqb name "FLAGGED" then Ok FLAGGED
  else if String.eqb name "DELETED" then Ok DELETED
  else if String.eqb name "DRAFT" then Ok DRAFT
  else if String.eqb name "RECENT" then Ok RECENT
  else Raise (AttributeError name).

(** [labelspec(spec)]: the action is the one-character string ['-'] or
    ['+']. *)
Definition labelspec (spec : string) : string * string :=
  match spec with
  | String "-" value => ("-", value)
  | String "+" value => ("+", value)
  | _ => ("+", spec)
  end.

(** [x in xs] for a list of strings. *)
Definition str_in (x : string) (xs : list string) : bool :=
  existsb (String.eqb x) xs.

(** [flagspec(spec)] *)
Definition flagspec (spec : string) : result (string * imapclient_flag) :=
  let spec := upper spec in
  let '(action, flag) := labelspec spec in
  if negb (str_in flag valid_flags) then Raise (ValueError flag)
  else match getattr_imapclient flag with
       | Ok c => Ok (action, c)
       | Raise e => Raise e
       end.

(** Spec-side vocabulary for the parsers: the token carries no leading
    sign, and case-insensitive membership in a list of names, by the
    caseless matching of Unicode (two strings match when their case
    foldings are equal). *)
Definition no_leading_sign (t : string) : Prop :=
  match t with
  | String c _ => c <> "+"%char /\ c <> "-"%char
  | EmptyString => True
  end.

Definition caseless_in (v : string) (names : list string) : Prop :=
  exists f, In f names /\ casefold v = casefold f.

(** A string that is one code point: one ASCII byte, or bytes that
    start with a byte from [0x80] on. *)
Definition one_codepoint (c : string) : Prop :=
  match c with
  | EmptyString => False
  | String b rest => high b = 0%N -> rest = EmptyString
  end.

(** The tails of a string, the string itself first; the tails of the
    flag names, and of the flag names in lower case. *)
Fixpoint suffixes (s : string) : list string :=
  s :: match s with
       | EmptyString => []
       | String _ s' => suffixes s'
       end.

Definition upper_tails : list string := flat_map suffixes valid_flags.

Definition lower_tails : list string := flat_map suffixes (map lower valid_flags).

(** A string that starts with a byte other than a sign. *)
Definition unsigned_head (u : string) : bool :=
  match u with
  | EmptyString => false
  | String b _ => negb (Ascii.eqb b "+" || Ascii.eqb b "-")
  end.

(** A string that is empty or starts with an ASCII byte. *)
Definition ascii_head (u : string) : bool :=
  match u with
  | EmptyString => true
  | String b _ => (high b =? 0)%N
  end.

(** The entries of [table] whose image starts one of the [tails] are
    mapped by the other table, through [other], to the image in the
    other case, [recase]. *)
Definition tables_agree (table : list (string * string)) (other recase : string -> string)
    (tails : list string) : bool :=
  forallb
    (fun entry =>
       if existsb (String.prefix (snd entry)) tails
       then String.eqb (other (fst entry)) (recase (snd entry))
       else true)
    table.

(* ===================================================================== *)
(** ** Messages as [fetch] returns them *)

(** A header attribute of an envelope: absent ([None]), a text, or a
    tuple of addresses.  An address is given by what [str(x)] yields:
    [Some s], or [None] when [str(x)] raises [TypeError].

    The model covers the answers to a fetch of [ENVELOPE] and
    [X-GM-LABELS] that hold both items for every message, with
    addresses on which [str] returns or raises [TypeError]: on those
    [show_message] only prints.  What [show_message] does on an answer
    that lacks an item, or on an address whose [str] raises something
    else, is outside the model. *)
Inductive hval :=
| h_none
| h_text (s : string)
| h_tuple (xs : list (option string)).

Record envelope := {
  subject : string;
  from_ : hval;
  reply_to : hval;
  to : hval;
  cc : hval;
  message_id : hval
}.

Record message := {
  ENVELOPE : envelope;
  X_GM_LABELS : list string
}.

Definition headers : list (string * string) :=
  [("from_", "From"); ("reply_to", "Reply to"); ("to", "To"); ("cc", "Cc");
   ("message_id", "Message ID")].

(** [getattr(env, name, None)] *)
Definition getattr_envelope (env : envelope) (name : string) : hval :=
  if String.eqb name "from_" then from_ env
  else if String.eqb name "reply_to" then reply_to env
  else if String.eqb name "to" then to env
  else if String.eqb name "cc" then cc env
  else if String.eqb name "message_id" then message_id env
  else if String.eqb name "subject" then h_text (subject env)
  else h_none.

(** Python truthiness of a header value. *)
Definition truthy (h : hval) : bool :=
  match h with
  | h_none => false
  | h_text s => negb (String.eqb s "")
  | h_tuple xs => negb (bool_decide (xs = []))
  end.

(** [[str(x) for x in hval]], or [None] as soon as one [str(x)] raises
    [TypeError]. *)
Fixpoint strs (xs : list (option string)) : option (list string) :=
  match xs with
  | [] => Some []
  | None :: _ => None
  | Some s :: xs' =>
      match strs xs' with
      | Some ss => Some (s :: ss)
      | None => None
      end
  end.

(** ['%04d' % n] *)
Fixpoint zeros (k : nat) : string :=
  match k with
  | O => ""
  | S k' => "0" +:+ zeros k'
  end.

Definition fmt_04d (n : Z) : string :=
  let digits := NilZero.string_of_uint (N.to_uint (Z.to_N (Z.abs n))) in
  if n <? 0 then "-" +:+ zeros (3 - String.length digits)%nat +:+ digits
  else zeros (4 - String.length digits)%nat +:+ digits.

(* ===================================================================== *)
(** ** Traces *)

(** The calls made on [self.server]; [server.IMAPClient] is the
    constructor call that opens the connection. *)
Module server.
Inductive call :=
| IMAPClient (host : string) (use_uid ssl : bool)
| login (username password : string)
| list_folders
| select_folder (folder : string)
| search
| gmail_search (query : string)
| add_flags (messages : list Z) (flags : list imapclient_flag)
| remove_flags (messages : list Z) (flags : list imapclient_flag)
| add_gmail_labels (messages : list Z) (labels : list string)
| remove_gmail_labels (messages : list Z) (labels : list string)
| fetch (messages : list Z) (data : list string)
| delete_messages (messages : list Z)
| expunge.
End server.

Inductive level := INFO | ERROR.

(** Arguments of a log record, kept unformatted. *)
Inductive logarg :=
| a_str (s : string)
| a_int (n : Z)
| a_type (e : server_error)
| a_exc (e : server_error)
| a_flags (l : list (string * imapclient_flag))
| a_labels (l : list (string * string)).

Inductive event :=
| Call (c : server.call)
| SetDebug (v : bool)
| Log (lvl : level) (fmt : string) (args : list logarg)
| Printed (line : string).

(** The server and everything behind it, as an oracle over the trace so
    far: whether a call raises, what folder resolution, a search and a
    fetch return. *)
Record Server := {
  raises : list event -> server.call -> option server_error;
  resolved : list event -> list string -> list string;
  found : list event -> list Z;
  fetched : list event -> gmap Z message
}.

(** The state-and-exception monad of the command: a computation extends
    the trace and returns or raises. *)
Definition M (A : Type) : Type := list event -> result A * list event.

Definition ret {A} (a : A) : M A := fun tr => (Ok a, tr).

Definition raise {A} (e : exn) : M A := fun tr => (Raise e, tr).

Definition bind {A B} (m : M A) (k : A -> M B) : M B :=
  fun tr =>
    match m tr with
    | (Ok a, tr') => k a tr'
    | (Raise e, tr') => (Raise e, tr')
    end.

Declare Scope M_scope.
Delimit Scope M_scope with M.
Notation "x <- m ;; k" := (bind m (fun x => k))
  (at level 100, m at next level, k at level 200, right associativity) : M_scope.
Notation "m ;;; k" := (bind m (fun _ => k))
  (at level 100, k at level 200, right associativity) : M_scope.
Local Open Scope M_scope.

Definition emit (e : event) : M unit := fun tr => (Ok tt, tr ++ [e]).

Definition LOG (lvl : level) (fmt : string) (args : list logarg) : M unit :=
  emit (Log lvl fmt args).

Definition print (line : string) : M unit := emit (Printed line).

(** [for x in xs: body(x)] *)
Fixpoint for_each {A} (xs : list A) (body : A -> M unit) : M unit :=
  match xs with
  | [] => ret tt
  | x :: xs' => body x ;;; for_each xs' body
  end.

(** [try: m  except imaplib.IMAP4.error as exc: ...]: the caught
    exception is handed back as [inr]. *)
Definition try_IMAP4_error {A} (m : M A) : M (A + server_error) :=
  fun tr =>
    match m tr with
    | (Ok a, tr') => (Ok (inl a), tr')
    | (Raise (ServerError (IMAP4_error msg)), tr') => (Ok (inr (IMAP4_error msg)), tr')
    | (Raise e, tr') => (Raise e, tr')
    end.

Definition ask {A} (f : list event -> A) : M A := fun tr => (Ok (f tr), tr).

(* ===================================================================== *)
(** ** Chunking *)

(** Modelled from the spec: [gmailfilters.util.chunker], which
    [bulkfilter.py] imports and does not define.  The spec has it
    partition the sequence into batches of a fixed size, in order: the
    next [size] items are cut off the front until nothing is left.  The
    fuel is the length of the sequence, one unit per batch. *)
Fixpoint chunker_from {A} (fuel : nat) (seq : list A) (size : nat) : list (list A) :=
  match fuel with
  | O => []
  | S fuel' =>
      match seq with
      | [] => []
      | _ :: _ => take size seq :: chunker_from fuel' (drop size seq) size
      end
  end.

Definition chunker {A} (seq : list A) (size : nat) : list (list A) :=
  chunker_from (length seq) seq size.

(* ===================================================================== *)
(** ** Command-line arguments and configuration *)

(** The parsed arguments; [account], [debug_imap] and [chunksize] come
    from the parser of [BaseClientCommand]. *)
Module Args.
Record t := {
  account : string;
  debug_imap : bool;
  chunksize : nat;
  query : option string;
  fail_if_empty : bool;
  flag : list (string * imapclient_flag);
  label : list (string * string);
  delete : bool;
  trash : bool;
  show : bool;
  archive : bool;
  folders : list string
}.
End Args.

(** An entry of [config['accounts']]; [ssl] may be left out. *)
Record Account := {
  host : string;
  username : string;
  password : string;
  ssl : option bool
}.

(** [self.app.config]: [accounts] is [None] when [config['accounts']]
    raises [TypeError] or [KeyError]. *)
Record app_config := {
  accounts : option (gmap string Account)
}.

(* ===================================================================== *)
(** ** Showing a message *)

(** The body of the loop over [headers] in [show_message]. *)
Definition show_header (env : envelope) (header : string * string) : M unit :=
  if negb (truthy (getattr_envelope env (fst header))) then ret tt
  else
    let hval := getattr_envelope env (fst header) in
    let hval :=
      match hval with
      | h_tuple xs =>
          match strs xs with
          | Some ss => join ", " ss
          | None => "..."
          end
      | h_text s => s
      | h_none => "None"
      end in
    print ("      " +:+ snd header +:+ ": " +:+ hval).

Definition show_message (msgid : Z) (msg : message) : M unit :=
  print (fmt_04d msgid +:+ ": " +:+ subject (ENVELOPE msg)) ;;;
  for_each headers (show_header (ENVELOPE msg)) ;;;
  print ("      Labels: " +:+ join " " (X_GM_LABELS msg)) ;;;
  print "".

(** [chunk[0], chunk[-1]], the arguments every log record of
    [process_messages] evaluates first. *)
Definition first_last (chunk : list Z) : M (Z * Z) :=
  match chunk with
  | [] => raise IndexError
  | x :: _ => ret (x, List.last chunk x)
  end.

(** [sorted(res.keys())] *)
Definition sorted_keys (res : gmap Z message) : list Z :=
  merge_sort Z.le (map fst (map_to_list res)).

(* ===================================================================== *)
(** ** The command *)

Section BulkFilter.

Variable srv : Server.
Variable config : app_config.
Variable args : Args.t.

(** A call on the server: recorded, then it returns or raises. *)
Definition server_call (c : server.call) : M unit :=
  fun tr =>
    match raises srv tr c with
    | Some e => (Raise (ServerError e), tr ++ [Call c])
    | None => (Ok tt, tr ++ [Call c])
    end.

Definition process_messages (folder : string) (chunk : list Z) : M unit :=
  let add_flags := map snd (List.filter (fun flag => String.eqb (fst flag) "+") (Args.flag args)) in
  let del_flags := map snd (List.filter (fun flag => String.eqb (fst flag) "-") (Args.flag args)) in
  let add_labels := map snd (List.filter (fun label => String.eqb (fst label) "+") (Args.label args)) in
  let del_labels := map snd (List.filter (fun label => String.eqb (fst label) "-") (Args.label args)) in
  (if negb (bool_decide (Args.flag args = [])) then
     ends <- first_last chunk ;;
     LOG INFO "applying flags to  messages %d...%d from %s (%s)"
       [a_int (fst ends); a_int (snd ends); a_str folder; a_flags (Args.flag args)] ;;;
     server_call (server.add_flags chunk add_flags) ;;;
     server_call (server.remove_flags chunk del_flags)
   else ret tt) ;;;
  (if negb (bool_decide (Args.label args = [])) then
     ends <- first_last chunk ;;
     LOG INFO "labelling messages %d...%d from %s (%s)"
       [a_int (fst ends); a_int (snd ends); a_str folder; a_labels (Args.label args)] ;;;
     server_call (server.add_gmail_labels chunk add_labels) ;;;
     server_call (server.remove_gmail_labels chunk del_labels)
   else ret tt) ;;;
  (if Args.archive args then
     ends <- first_last chunk ;;
     LOG INFO "archiving messages %d...%d from %s (%s)"
       [a_int (fst ends); a_int (snd ends); a_str folder; a_labels (Args.label args)] ;;;
     server_call (server.remove_gmail_labels chunk ["\Inbox"])
   else ret tt) ;;;
  (if Args.show args then
     ends <- first_last chunk ;;
     LOG INFO "getting info for messages %d...%d from %s"
       [a_int (fst ends); a_int (snd ends); a_str folder] ;;;
     server_call (server.fetch chunk ["ENVELOPE"; "X-GM-LABELS"]) ;;;
     res <- ask (fetched srv) ;;
     for_each (sorted_keys res)
       (fun msg =>
          match res !! msg with
          | Some m => show_message msg m
          | None => raise KeyError
          end)
   else ret tt) ;;;
  (if Args.trash args then
     ends <- first_last chunk ;;
     LOG INFO "trashing messages %d...%d from %s"
       [a_int (fst ends); a_int (snd ends); a_str folder] ;;;
     server_call (server.add_gmail_labels chunk ["\Trash"])
   else ret tt) ;;;
  (if Args.delete args then
     ends <- first_last chunk ;;
     LOG INFO "deleting messages %d...%d from %s"
       [a_int (fst ends); a_int (snd ends); a_str folder] ;;;
     server_call (server.delete_messages chunk) ;;;
     LOG INFO "expunging messages %d...%d from %s"
       [a_int (fst ends); a_int (snd ends); a_str folder] ;;;
     server_call server.expunge
   else ret tt).

Definition process_one_folder (folder : string) : M unit :=
  LOG INFO "processing folder %s" [a_str folder] ;;;
  info <- try_IMAP4_error (server_call (server.select_folder folder)) ;;
  match info with
  | inr exc =>
      LOG ERROR "failed to select %s (%s): %s" [a_str folder; a_type exc; a_exc exc]
  | inl _ =>
      messages <-
        match Args.query args with
        | None =>
            LOG INFO "selecting all messages in %s" [a_str folder] ;;;
            server_call server.search ;;;
            ask (found srv)
        | Some query =>
            LOG INFO "selecting messages in %s matching: %s" [a_str folder; a_str query] ;;;
            server_call (server.gmail_search query) ;;;
            ask (found srv)
        end ;;
      LOG INFO "found %d messages" [a_int (Z.of_nat (length messages))] ;;;
      if Args.fail_if_empty args && bool_decide (messages = [])
      then raise (NoMatchingMessages "Filter returned zero messages")
      else for_each (chunker messages (Args.chunksize args)) (process_messages folder)
  end.

(** Modelled from the spec: [process_folders], which [BulkFilter]
    inherits from [BaseClientCommand] and does not define.  The spec has
    the per-folder processor run for each resolved folder, in order; a
    folder whose selection fails is skipped inside [process_one_folder],
    anything else that is raised ends the run. *)
Definition process_folders (folders : list string) : M unit :=
  for_each folders process_one_folder.

(** Modelled from the spec: [select_folders], which [BulkFilter]
    inherits from [BaseClientCommand] and does not define.  The spec has
    it resolve the folder tokens to a list of real folder names through
    the folder listing of the server; which names come out is left to
    the oracle. *)
Definition select_folders (folders : list string) : M (list string) :=
  server_call server.list_folders ;;;
  ask (fun tr => resolved srv tr folders).

Definition take_action : M unit :=
  account <-
    match accounts config with
    | Some accts =>
        match accts !! Args.account args with
        | Some account => ret account
        | None => raise (NoSuchAccount (Args.account args))
        end
    | None => raise (NoSuchAccount (Args.account args))
    end ;;
  server_call (server.IMAPClient (host account) true (default true (ssl account))) ;;;
  emit (SetDebug (Args.debug_imap args)) ;;;
  server_call (server.login (username account) (password account)) ;;;
  selected_folders <- select_folders (Args.folders args) ;;
  if bool_decide (selected_folders = [])
  then raise (NoMatchingFolders "No folders to process")
  else if Args.fail_if_empty args && (1 <? length selected_folders)%nat
  then raise (InvalidOptions
                "--fail-if-empty can only be used when processing a single folder")
  else process_folders selected_folders.

End BulkFilter.

(* ===================================================================== *)
(** ** Reading a trace *)

Definition is_flag_call (e : event) : bool :=
  match e with
  | Call (server.add_flags _ _) | Call (server.remove_flags _ _) => true
  | _ => false
  end.

(** The mutation calls: flags, labels (archive and trash are label
    calls), delete and expunge. *)
Definition is_mutation (e : event) : bool :=
  match e with
  | Call (server.add_flags _ _) | Call (server.remove_flags _ _)
  | Call (server.add_gmail_labels _ _) | Call (server.remove_gmail_labels _ _)
  | Call (server.delete_messages _) | Call server.expunge => true
  | _ => false
  end.

Definition is_connect (e : event) : bool :=
  match e with
  | Call (server.IMAPClient _ _ _) => true
  | _ => false
  end.

Definition is_login (e : event) : bool :=
  match e with
  | Call (server.login _ _) => true
  | _ => false
  end.

Definition is_search (e : event) : bool :=
  match e with
  | Call server.search | Call (server.gmail_search _) => true
  | _ => false
  end.

Definition is_select (e : event) : bool :=
  match e with
  | Call (server.select_folder _) => true
  | _ => false
  end.

Definition is_print (e : event) : bool :=
  match e with
  | Printed _ => true
  | _ => false
  end.

Definition is_delete_or_expunge (c : server.call) : bool :=
  match c with
  | server.delete_messages _ | server.expunge => true
  | _ => false
  end.

(** The server calls of a trace, in order. *)
Fixpoint calls_of (tr : list event) : list server.call :=
  match tr with
  | [] => []
  | Call c :: tr' => c :: calls_of tr'
  | _ :: tr' => calls_of tr'
  end.

(** A call that returns normally whenever it is made. *)
Definition returns (srv : Server) (c : server.call) : Prop :=
  forall tr, raises srv tr c = None.

(** A server none of whose calls ever raises. *)
Definition quiet (srv : Server) : Prop :=
  forall c, returns srv c.

(** [self.app.config['accounts'][args.account]], or [None] where the
    lookup raises [TypeError] or [KeyError]. *)
Definition lookup_account (config : app_config) (args : Args.t) : option Account :=
  match accounts config with
  | Some accts => accts !! Args.account args
  | None => None
  end.

(** The three calls that open the session return: building the client,
    logging in, listing the folders. *)
Definition session_opens (srv : Server) (account : Account) : Prop :=
  returns srv (server.IMAPClient (host account) true (default true (ssl account))) /\
  returns srv (server.login (username account) (password account)) /\
  returns srv server.list_folders.

(** The trace of [take_action] up to the resolution of the folders. *)
Definition session_events (account : Account) (args : Args.t) : list event :=
  [Call (server.IMAPClient (host account) true (default true (ssl account)));
   SetDebug (Args.debug_imap args);
   Call (server.login (username account) (password account));
   Call server.list_folders].

(** The search of [process_one_folder]: the call and the log record
    before it, by whether a query was given. *)
Definition search_call (args : Args.t) : server.call :=
  match Args.query args with
  | None => server.search
  | Some query => server.gmail_search query
  end.

Definition search_log (args : Args.t) (folder : string) : event :=
  match Args.query args with
  | None => Log INFO "selecting all messages in %s" [a_str folder]
  | Some query =>
      Log INFO "selecting messages in %s matching: %s" [a_str folder; a_str query]
  end.

(** A run refused before anything reaches the server: it raises
    [InvalidOptions], and its trace holds no connection, no login and no
    search. *)
Definition refused_before_connecting (run : M unit) : Prop :=
  exists msg tr,
    run [] = (Raise (InvalidOptions msg), tr) /\
    Forall (fun e => is_connect e = false /\ is_login e = false /\ is_search e = false) tr.

(** Every event a computation appends satisfies [P], however it ends. *)
Definition emits {A} (P : event -> Prop) (m : M A) : Prop :=
  forall tr, exists d, snd (m tr) = tr ++ d /\ Forall P d.

(** A computation that cannot raise and appends the same events
    whatever the trace before it. *)
Definition appends (m : M unit) (d : list event) : Prop :=
  forall tr, m tr = (Ok tt, tr ++ d).

(** What [show_message] prints for one message. *)
Definition shown (msgid : Z) (msg : message) : list event :=
  snd (show_message msgid msg []).

(** What the loop over [sorted(res.keys())] prints for the message with
    identifier [msgid]. *)
Definition shown_of (res : gmap Z message) (msgid : Z) : list event :=
  match res !! msgid with
  | Some msg => shown msgid msg
  | None => []
  end.

(* ===================================================================== *)
(** ** The six actions of the dispatcher, as lists of events

    Each list is what one action contributes to the trace of
    [process_messages] on a non-empty batch when no call raises; it is
    empty when the action is not requested. *)

Section Actions.

Variable args : Args.t.
Variable folder : string.
Variable chunk : list Z.

Definition signed {B} (sign : string) (specs : list (string * B)) : list B :=
  map snd (List.filter (fun s => String.eqb (fst s) sign) specs).

(** The arguments common to the log records: the first and the last
    identifier of the batch, and the folder. *)
Definition range_args : list logarg :=
  match chunk with
  | [] => []
  | x :: _ => [a_int x; a_int (List.last chunk x); a_str folder]
  end.

Definition flags_action : list event :=
  match Args.flag args with
  | [] => []
  | _ :: _ =>
      [Log INFO "applying flags to  messages %d...%d from %s (%s)"
         (range_args ++ [a_flags (Args.flag args)]);
       Call (server.add_flags chunk (signed "+" (Args.flag args)));
       Call (server.remove_flags chunk (signed "-" (Args.flag args)))]
  end.

Definition labels_action : list event :=
  match Args.label args with
  | [] => []
  | _ :: _ =>
      [Log INFO "labelling messages %d...%d from %s (%s)"
         (range_args ++ [a_labels (Args.label args)]);
       Call (server.add_gmail_labels chunk (signed "+" (Args.label args)));
       Call (server.remove_gmail_labels chunk (signed "-" (Args.label args)))]
  end.

Definition archive_action : list event :=
  if Args.archive args then
    [Log INFO "archiving messages %d...%d from %s (%s)"
       (range_args ++ [a_labels (Args.label args)]);
     Call (server.remove_gmail_labels chunk ["\Inbox"])]
  else [].

Definition show_action (res : gmap Z message) : list event :=
  if Args.show args then
    [Log INFO "getting info for messages %d...%d from %s" range_args;
     Call (server.fetch chunk ["ENVELOPE"; "X-GM-LABELS"])]
    ++ flat_map (shown_of res) (sorted_keys res)
  else [].

Definition trash_action : list event :=
  if Args.trash args then
    [Log INFO "trashing messages %d...%d from %s" range_args;
     Call (server.add_gmail_labels chunk ["\Trash"])]
  else [].

Definition delete_action : list event :=
  if Args.delete args then
    [Log INFO "deleting messages %d...%d from %s" range_args;
     Call (server.delete_messages chunk);
     Log INFO "expunging messages %d...%d from %s" range_args;
     Call server.expunge]
  else [].

(** The trace up to and including the fetch call, which is what the
    fetch oracle sees. *)
Definition trace_at_fetch (tr : list event) : list event :=
  tr ++ flags_action ++ labels_action ++ archive_action
     ++ [Log INFO "getting info for messages %d...%d from %s" range_args;
         Call (server.fetch chunk ["ENVELOPE"; "X-GM-LABELS"])].

End Actions.

(** The events of the dispatcher on one batch, started at trace [tr]. *)
Definition batch_events (srv : Server) (args : Args.t) (folder : string)
    (chunk : list Z) (tr : list event) : list event :=
  flags_action args folder chunk
  ++ labels_action args folder chunk
  ++ archive_action args folder chunk
  ++ show_action args folder chunk (fetched srv (trace_at_fetch args folder chunk tr))
  ++ trash_action args folder chunk
  ++ delete_action args folder chunk.

(** The events of the dispatcher over the batches of a folder, one
    batch after the other. *)
Fixpoint batches_events (srv : Server) (args : Args.t) (folder : string)
    (chunks : list (list Z)) (tr : list event) : list event :=
  match chunks with
  | [] => []
  | chunk :: chunks' =>
      batch_events srv args folder chunk tr
      ++ batches_events srv args folder chunks' (tr ++ batch_events srv args folder chunk tr)
  end.

(** The events of [process_one_folder] up to and including the search. *)
Definition folder_header (args : Args.t) (folder : string) : list event :=
  [Log INFO "processing folder %s" [a_str folder];
   Call (server.select_folder folder);
   search_log args folder;
   Call (search_call args)].

(* ===================================================================== *)
(** ** Further vocabulary *)

(** A parsed spec written back as a token: the sign, then the value. *)
Definition render_spec (s : string * string) : string := fst s +:+ snd s.

(** [spec.startswith('-')] *)
Definition starts_minus (spec : string) : bool :=
  match spec with
  | String "-" _ => true
  | _ => false
  end.

Definition is_fetch (e : event) : bool :=
  match e with
  | Call (server.fetch _ _) => true
  | _ => false
  end.

Definition is_delete_event (e : event) : bool :=
  match e with
  | Call (server.delete_messages _) | Call server.expunge => true
  | _ => false
  end.

(** An event that belongs to the processing of a folder: a selection, a
    search, a fetch, a mutation or a printed line. *)
Definition is_processing (e : event) : bool :=
  is_select e || is_search e || is_fetch e || is_mutation e || is_print e.

(** The messages a call is made on, for the calls that take some. *)
Definition messages_of (c : server.call) : option (list Z) :=
  match c with
  | server.add_flags m _ | server.remove_flags m _
  | server.add_gmail_labels m _ | server.remove_gmail_labels m _
  | server.fetch m _ | server.delete_messages m => Some m
  | _ => None
  end.

(** The calls the dispatcher may make on a batch: the calls on the
    messages of that batch, and [expunge]. *)
Definition on_batch (chunk : list Z) (e : event) : Prop :=
  match e with
  | Call server.expunge => True
  | Call c => messages_of c = Some chunk
  | _ => True
  end.

(** Whatever the computation raises satisfies [P]. *)
Definition raises_only {A} (P : exn -> Prop) (m : M A) : Prop :=
  forall tr e tr', m tr = (Raise e, tr') -> P e.

(** A computation that ends with a server error ends on the call that
    raised it. *)
Definition stops_at_failure (srv : Server) {A} (m : M A) : Prop :=
  forall tr e tr',
    m tr = (Raise (ServerError e), tr') ->
    exists pre c, tr' = pre ++ [Call c] /\ raises srv pre c = Some e.

(** The exceptions of the validation in [take_action]. *)
Definition is_validation_error (e : exn) : Prop :=
  match e with
  | NoSuchAccount _ | NoMatchingFolders _ | InvalidOptions _ => True
  | _ => False
  end.

(** The exceptions the dispatcher can end with on some batch. *)
Definition is_dispatch_error (e : exn) : Prop :=
  match e with
  | IndexError | ServerError _ => True
  | _ => False
  end.

(** Every address of a tuple can be rendered by [str]. *)
Definition all_render (xs : list (option string)) : bool :=
  forallb (fun x => match x with Some _ => true | None => false end) xs.

(** The renderings of the addresses that have one. *)
Definition renderings (xs : list (option string)) : list string :=
  flat_map (fun x => match x with Some s => [s] | None => [] end) xs.

(** The messages a call deletes. *)
Definition deleted_by (c : server.call) : list Z :=
  match c with
  | server.delete_messages messages => messages
  | _ => []
  end.

(** No action is requested. *)
Definition no_action (args : Args.t) : Prop :=
  Args.flag args = [] /\ Args.label args = [] /\ Args.archive args = false /\
  Args.show args = false /\ Args.trash args = false /\ Args.delete args = false.

(* ===================================================================== *)
(** ** Sample runs

    Concrete servers, configurations and arguments on which the
    theorems below are instantiated. *)

Definition sample_envelope (s : string) : envelope :=
  {| subject := s;
     from_ := h_tuple [Some "ann@example.org"; Some "bob@example.org"];
     reply_to := h_none;
     to := h_tuple [None];
     cc := h_tuple [];
     message_id := h_text "<1@example.org>" |}.

Definition sample_fetch : gmap Z message :=
  <[50 := {| ENVELOPE := sample_envelope "fifty"; X_GM_LABELS := ["x"; "y"] |}]>
    (<[10 := {| ENVELOPE := sample_envelope "ten"; X_GM_LABELS := [] |}]> ∅).

(** No call raises; the folder tokens resolve to themselves; every
    search finds [ids]; every fetch returns [sample_fetch]. *)
Definition sample_server (ids : list Z) : Server :=
  {| raises := fun _ _ => None;
     resolved := fun _ folders => folders;
     found := fun _ => ids;
     fetched := fun _ => sample_fetch |}.

(** As [sample_server], but selecting a folder is refused. *)
Definition refusing_server : Server :=
  {| raises := fun _ c =>
       match c with
       | server.select_folder _ => Some (IMAP4_error "NO such folder")
       | _ => None
       end;
     resolved := fun _ folders => folders;
     found := fun _ => [];
     fetched := fun _ => ∅ |}.

Definition sample_account : Account :=
  {| host := "imap.example.org"; username := "me"; password := "secret"; ssl := None |}.

Definition sample_config : app_config :=
  {| accounts := Some (<["home" := sample_account]> ∅) |}.

(** [--fail-if-empty] with the given folders and nothing else. *)
Definition sample_args (folders : list string) : Args.t :=
  {| Args.account := "home"; Args.debug_imap := false; Args.chunksize := 2%nat;
     Args.query := None; Args.fail_if_empty := true;
     Args.flag := []; Args.label := [];
     Args.delete := false; Args.trash := false; Args.show := false;
     Args.archive := false; Args.folders := folders |}.

(** [-F +SEEN -L -old -A -S -T -D Inbox]: every action at once. *)
Definition all_actions : Args.t :=
  {| Args.account := "home"; Args.debug_imap := false; Args.chunksize := 2%nat;
     Args.query := None; Args.fail_if_empty := false;
     Args.flag := [("+", SEEN)]; Args.label := [("-", "old")];
     Args.delete := true; Args.trash := true; Args.show := true;
     Args.archive := true; Args.folders := ["Inbox"] |}.

(** [-S Inbox]: show the messages and change nothing. *)
Definition show_only : Args.t :=
  {| Args.account := "home"; Args.debug_imap := false; Args.chunksize := 2%nat;
     Args.query := None; Args.fail_if_empty := false;
     Args.flag := []; Args.label := [];
     Args.delete := false; Args.trash := false; Args.show := true;
     Args.archive := false; Args.folders := ["Inbox"] |}.

(** [-Q is:unread -F +SEEN Inbox Spam]: mark as seen what a query finds
    in two folders. *)
Definition mark_seen : Args.t :=
  {| Args.account := "home"; Args.debug_imap := false; Args.chunksize := 2%nat;
     Args.query := Some "is:unread"; Args.fail_if_empty := false;
     Args.flag := [("+", SEEN)]; Args.label := [];
     Args.delete := false; Args.trash := false; Args.show := false;
     Args.archive := false; Args.folders := ["Inbox"; "Spam"] |}.

(** A configuration without accounts. *)
Definition empty_config : app_config := {| accounts := None |}.

(** A server on which the login is refused. *)
Definition locked_server : Server :=
  {| raises := fun _ c =>
       match c with
       | server.login _ _ => Some (IMAP4_error "LOGIN failed")
       | _ => None
       end;
     resolved := fun _ folders => folders;
     found := fun _ => [7; 3; 1];
     fetched := fun _ => sample_fetch |}.

(** A server on which selecting a folder breaks the connection, and a
    server on which the search is refused. *)
Definition broken_server : Server :=
  {| raises := fun _ c =>
       match c with
       | server.select_folder _ => Some (other_error "connection reset")
       | _ => None
       end;
     resolved := fun _ folders => folders;
     found := fun _ => [];
     fetched := fun _ => ∅ |}.

Definition unsearchable_server : Server :=
  {| raises := fun _ c =>
       match c with
       | server.search | server.gmail_search _ => Some (IMAP4_error "BAD search")
       | _ => None
       end;
     resolved := fun _ folders => folders;
     found := fun _ => [];
     fetched := fun _ => ∅ |}.

(** A server whose folder listing resolves to nothing. *)
Definition bare_server : Server :=
  {| raises := fun _ _ => None;
     resolved := fun _ _ => [];
     found := fun _ => [];
     fetched := fun _ => ∅ |}.

(** A server that refuses every change to a message. *)
Definition read_only_server : Server :=
  {| raises := fun _ c =>
       match c with
       | server.add_flags _ _ | server.remove_flags _ _
       | server.add_gmail_labels _ _ | server.remove_gmail_labels _ _
       | server.delete_messages _ | server.expunge => Some (IMAP4_error "READ-ONLY")
       | _ => None
       end;
     resolved := fun _ folders => folders;
     found := fun _ => [7; 3; 1];
     fetched := fun _ => sample_fetch |}.

(* ===================================================================== *)
(** * Properties of the parsers *)

Lemma labelspec_plus (t : string) : labelspec (String "+" t) = ("+", t).
Proof. reflexivity. Qed.

Lemma labelspec_minus (t : string) : labelspec (String "-" t) = ("-", t).
Proof. reflexivity. Qed.

Lemma labelspec_unsigned (t : string) : no_leading_sign t -> labelspec t = ("+", t).
Proof.
  destruct t as [|c t]; [reflexivity|].
  intros [Hplus Hminus]. unfold labelspec.
  destruct c as [[] [] [] [] [] [] [] []]; try reflexivity; congruence.
Qed.

(** C2. [labelspec] maps ["+" + t] to [("+", t)], ["-" + t] to
    [("-", t)], and a token [t] without a leading sign to [("+", t)].
    It is a total function into pairs: there is no input on which it
    raises. *)
Theorem labelspec_spec (t : string) :
  labelspec ("+" +:+ t) = ("+", t) /\
  labelspec ("-" +:+ t) = ("-", t) /\
  (no_leading_sign t -> labelspec t = ("+", t)).
Proof.
  split; [apply labelspec_plus|].
  split; [apply labelspec_minus|].
  apply labelspec_unsigned.
Qed.

Lemma labelspec_spec_witness :
  no_leading_sign "inbox" /\
  labelspec "+inbox" = ("+", "inbox") /\
  labelspec "-inbox" = ("-", "inbox") /\
  labelspec "inbox" = ("+", "inbox").
Proof.
  assert (Hn : no_leading_sign "inbox") by (split; discriminate).
  destruct (labelspec_spec "inbox") as (Hp & Hm & Hu).
  split; [exact Hn|].
  split; [exact Hp|].
  split; [exact Hm|].
  exact (Hu Hn).
Defined.

(** *** Code points *)

Lemma append_cons (b : ascii) (x y : string) : String b x +:+ y = String b (x +:+ y).
Proof. reflexivity. Qed.

Lemma str_take_drop (k : nat) (s : string) : str_take k s +:+ str_drop k s = s.
Proof.
  revert s. induction k as [|k IH]; intros [|b s]; try reflexivity.
  cbn [str_take str_drop]. now rewrite append_cons, IH.
Qed.

Lemma length_str_drop (k : nat) (s : string) :
  String.length (str_drop k s) = (String.length s - k)%nat.
Proof.
  revert s. induction k as [|k IH]; intros s.
  - cbn [str_drop]. lia.
  - destruct s as [|b s]; [reflexivity|]. cbn [str_drop String.length]. now rewrite IH.
Qed.

Lemma utf8_len_bounds (b : ascii) (s : string) :
  (1 <= utf8_len (String b s) <= String.length (String b s))%nat.
Proof.
  unfold utf8_len. destruct s as [|b2 [|b3 [|b4 s]]];
    repeat match goal with
           | |- context [if ?c then _ else _] => destruct c
           end; simpl; lia.
Qed.

Lemma utf8_len_ascii (b : ascii) (s : string) :
  high b = 0%N -> utf8_len (String b s) = 1%nat.
Proof. intros H. unfold utf8_len. now rewrite H. Qed.

Lemma str_take_head (b : ascii) (s : string) :
  exists rest, str_take (utf8_len (String b s)) (String b s) = String b rest.
Proof.
  destruct (utf8_len_bounds b s) as [H _].
  destruct (utf8_len (String b s)) as [|k]; [lia|]. simpl. eauto.
Qed.

Lemma codepoints_from_fuel (fuel1 fuel2 : nat) (s : string) :
  (String.length s <= fuel1)%nat -> (String.length s <= fuel2)%nat ->
  codepoints_from fuel1 s = codepoints_from fuel2 s.
Proof.
  revert fuel2 s. induction fuel1 as [|fuel1 IH]; intros fuel2 s H1 H2.
  - destruct s; [now destruct fuel2 | simpl in H1; lia].
  - destruct s as [|b s]; [now destruct fuel2|].
    destruct fuel2 as [|fuel2]; [simpl in H2; lia|].
    cbn [codepoints_from]. f_equal.
    pose proof (utf8_len_bounds b s) as Hk.
    apply IH; rewrite length_str_drop; simpl in *; lia.
Qed.

Lemma codepoints_cons (b : ascii) (s : string) :
  codepoints (String b s)
  = str_take (utf8_len (String b s)) (String b s)
    :: codepoints (str_drop (utf8_len (String b s)) (String b s)).
Proof.
  unfold codepoints. cbn [String.length codepoints_from]. f_equal.
  pose proof (utf8_len_bounds b s) as Hk.
  apply codepoints_from_fuel; rewrite length_str_drop; simpl in *; lia.
Qed.

(** An induction that follows the code points of a string. *)
Lemma codepoints_ind (P : string -> Prop) :
  P "" ->
  (forall b s,
      P (str_drop (utf8_len (String b s)) (String b s)) -> P (String b s)) ->
  forall s, P s.
Proof.
  intros Hnil Hcons s.
  assert (H : forall n s, (String.length s <= n)%nat -> P s).
  { clear s. induction n as [|n IH]; intros [|b s] Hlen; try exact Hnil.
    - simpl in Hlen. lia.
    - apply Hcons, IH. pose proof (utf8_len_bounds b s) as Hk.
      rewrite length_str_drop. simpl in *. lia. }
  now apply (H (String.length s)).
Qed.

Lemma codepoints_one (s : string) : Forall one_codepoint (codepoints s).
Proof.
  induction s as [|b s IH] using codepoints_ind; [constructor|].
  rewrite codepoints_cons. constructor; [|exact IH].
  destruct (str_take_head b s) as [rest E].
  destruct (N.eq_dec (high b) 0%N) as [Hb|Hb].
  - rewrite (utf8_len_ascii b s Hb). simpl. now intros _.
  - rewrite E. simpl. intros Hb'. contradiction.
Qed.

Lemma cat_codepoints (s : string) : cat (codepoints s) = s.
Proof.
  induction s as [|b s IH] using codepoints_ind; [reflexivity|].
  rewrite codepoints_cons. cbn [cat]. rewrite IH. apply str_take_drop.
Qed.

(** *** [upper] and the signs *)

Lemma case_lookup_In (c u : string) (table : list (string * string)) :
  case_lookup c table = Some u -> In (c, u) table.
Proof.
  induction table as [|[k v] table IH]; simpl; [discriminate|].
  destruct (String.eqb c k) eqn:E.
  - apply String.eqb_eq in E. intros [= <-]. subst. now left.
  - intros H. right. now apply IH.
Qed.

Lemma forallb_In {A} (p : A -> bool) (l : list A) (x : A) :
  forallb p l = true -> In x l -> p x = true.
Proof. intros H. now apply forallb_forall. Qed.

Lemma upper_table_unsigned :
  forallb (fun entry => unsigned_head (snd entry)) upper_table = true.
Proof. vm_compute. reflexivity. Qed.

Lemma upper_cons (b : ascii) (s : string) :
  upper (String b s)
  = upper_codepoint (str_take (utf8_len (String b s)) (String b s))
    +:+ upper (str_drop (utf8_len (String b s)) (String b s)).
Proof. unfold upper. now rewrite codepoints_cons. Qed.

Lemma upper_sign (b : ascii) (s : string) :
  b = "+"%char \/ b = "-"%char -> upper (String b s) = String b (upper s).
Proof. intros [-> | ->]; rewrite upper_cons; reflexivity. Qed.

Lemma upper_unsigned (b : ascii) (s : string) :
  b <> "+"%char -> b <> "-"%char -> no_leading_sign (upper (String b s)).
Proof.
  intros Hp Hm. rewrite upper_cons.
  destruct (str_take_head b s) as [rest ->].
  unfold upper_codepoint, map_codepoint.
  destruct (case_lookup (String b rest) upper_table) as [u|] eqn:E.
  - apply case_lookup_In in E.
    pose proof (forallb_In _ _ _ upper_table_unsigned E) as Hu.
    destruct u as [|b' u]; [discriminate Hu|]. simpl in Hu |- *.
    apply negb_true_iff, orb_false_iff in Hu as [H1 H2].
    apply Ascii.eqb_neq in H1, H2. now split.
  - simpl. now split.
Qed.

(** Upper-casing leaves a sign alone and creates none, so it commutes
    with stripping the sign. *)
Lemma labelspec_upper (t : string) :
  labelspec (upper t) = (fst (labelspec t), upper (snd (labelspec t))).
Proof.
  destruct t as [|b s]; [reflexivity|].
  destruct (ascii_dec b "-") as [->|Hm]; [now rewrite upper_sign by auto|].
  destruct (ascii_dec b "+") as [->|Hp]; [now rewrite upper_sign by auto|].
  rewrite (labelspec_unsigned (String b s)) by (split; assumption).
  apply labelspec_unsigned. now apply upper_unsigned.
Qed.

(** *** Case folding and upper-casing around the flag names *)

Lemma prefix_app (u r : string) : String.prefix u (u +:+ r) = true.
Proof.
  induction u as [|a u IH]; [now destruct r|].
  rewrite append_cons. simpl. now destruct (ascii_dec a a).
Qed.

Lemma suffixes_self (s : string) : In s (suffixes s).
Proof. destruct s; now left. Qed.

Lemma suffixes_tail (a : ascii) (y s : string) :
  In (String a y) (suffixes s) -> In y (suffixes s).
Proof.
  induction s as [|b s IH]; simpl.
  - intros [H | []]. discriminate H.
  - intros [H | H].
    + inversion H; subst. right. apply suffixes_self.
    + right. now apply IH.
Qed.

Lemma suffixes_app (x r s : string) : In (x +:+ r) (suffixes s) -> In r (suffixes s).
Proof.
  induction x as [|a x IH]; [trivial|].
  rewrite append_cons. intros H. now apply IH, (suffixes_tail a).
Qed.

Lemma tails_app (names : list string) (x r : string) :
  In (x +:+ r) (flat_map suffixes names) -> In r (flat_map suffixes names).
Proof.
  rewrite !in_flat_map. intros (f & Hf & H). exists f. split; [exact Hf|].
  now apply (suffixes_app x).
Qed.

Lemma lower_app (x y : string) : lower (x +:+ y) = lower x +:+ lower y.
Proof. induction x as [|a x IH]; [reflexivity|]. rewrite !append_cons. simpl. now rewrite IH. Qed.

Lemma ascii_upper_app (x y : string) :
  ascii_upper (x +:+ y) = ascii_upper x +:+ ascii_upper y.
Proof. induction x as [|a x IH]; [reflexivity|]. rewrite !append_cons. simpl. now rewrite IH. Qed.

(** From one case mapping to the other.  When the images of the code
    points of a string under [table], put end to end, make up a tail of
    a flag name, their images under the other mapping make up that tail
    in the other case. *)
Section Transfer.

Variable table : list (string * string).
Variables other recase : string -> string.
Variable tails : list string.

Hypothesis tails_closed : forall x r, In (x +:+ r) tails -> In r tails.
Hypothesis tails_ascii : forallb ascii_head tails = true.
Hypothesis agree : tables_agree table other recase tails = true.
Hypothesis bytes_agree :
  forall b, high b = 0%N -> case_lookup (String b "") table = None ->
            other (String b "") = recase (String b "").
Hypothesis recase_nil : recase "" = "".
Hypothesis recase_app : forall x y, recase (x +:+ y) = recase x +:+ recase y.

Lemma transfer_step (c G r : string) :
  one_codepoint c -> In G tails -> map_codepoint table c +:+ r = G ->
  other c = recase (map_codepoint table c) /\ In r tails.
Proof.
  intros Hc HG E. split; [|apply (tails_closed (map_codepoint table c)); now rewrite E].
  unfold map_codepoint in *.
  destruct (case_lookup c table) as [u|] eqn:El.
  - apply case_lookup_In in El.
    pose proof (forallb_In _ _ _ agree El) as Hu. cbn [fst snd] in Hu.
    assert (Hp : existsb (String.prefix u) tails = true).
    { apply existsb_exists. exists G. split; [exact HG|]. rewrite <- E. apply prefix_app. }
    rewrite Hp in Hu. now apply String.eqb_eq.
  - destruct c as [|b c]; [destruct Hc|].
    pose proof (forallb_In _ _ _ tails_ascii HG) as Ha.
    rewrite <- E, append_cons in Ha. cbn [ascii_head] in Ha.
    apply N.eqb_eq in Ha. rewrite (Hc Ha) in *. now apply bytes_agree.
Qed.

Lemma transfer (cs : list string) :
  Forall one_codepoint cs ->
  forall G, In G tails -> cat (map (map_codepoint table) cs) = G ->
            cat (map other cs) = recase G.
Proof.
  induction 1 as [|c cs Hc _ IH]; intros G HG E; cbn [map cat] in *.
  - subst G. now rewrite recase_nil.
  - destruct (transfer_step c G _ Hc HG E) as [Ho Hr].
    rewrite Ho, (IH _ Hr eq_refl), <- recase_app. now rewrite E.
Qed.

End Transfer.

Lemma upper_to_fold (v G : string) :
  In G upper_tails -> upper v = G -> casefold v = lower G.
Proof.
  intros HG E.
  apply (transfer upper_table fold_codepoint lower upper_tails); try assumption.
  - apply tails_app.
  - vm_compute. reflexivity.
  - vm_compute. reflexivity.
  - intros b. destruct b as [[] [] [] [] [] [] [] []]; vm_compute;
      first [reflexivity | intros H; discriminate H | intros _ H; discriminate H].
  - reflexivity.
  - apply lower_app.
  - apply codepoints_one.
Qed.

Lemma fold_to_upper (v g : string) :
  In g lower_tails -> casefold v = g -> upper v = ascii_upper g.
Proof.
  intros Hg E.
  apply (transfer casefold_table upper_codepoint ascii_upper lower_tails); try assumption.
  - apply tails_app.
  - vm_compute. reflexivity.
  - vm_compute. reflexivity.
  - intros b. destruct b as [[] [] [] [] [] [] [] []]; vm_compute;
      first [reflexivity | intros H; discriminate H | intros _ H; discriminate H].
  - reflexivity.
  - apply ascii_upper_app.
  - apply codepoints_one.
Qed.

Lemma valid_flags_cases (f : string) :
  In f valid_flags -> casefold f = lower f /\ ascii_upper (lower f) = f.
Proof.
  unfold valid_flags. simpl.
  intros H; repeat (destruct H as [<- | H]; [split; vm_compute; reflexivity|]);
    contradiction.
Qed.

Lemma str_in_In (x : string) (xs : list string) : str_in x xs = true <-> In x xs.
Proof.
  unfold str_in. rewrite existsb_exists. split.
  - intros (y & Hy & Heq). apply String.eqb_eq in Heq. now subst.
  - intros Hx. exists x. split; [exact Hx | apply String.eqb_refl].
Qed.

(** Caseless membership in [valid_flags] is membership of the
    upper-cased value, which is what [flagspec] tests. *)
Lemma caseless_in_valid_flags (v : string) :
  caseless_in v valid_flags <-> In (upper v) valid_flags.
Proof.
  split.
  - intros (f & Hf & Heq).
    destruct (valid_flags_cases f Hf) as [Hfold Hup].
    rewrite Hfold in Heq.
    rewrite (fold_to_upper v (lower f)), Hup; [exact Hf| |exact Heq].
    apply in_flat_map. exists (lower f). split; [now apply in_map | apply suffixes_self].
  - intros H. exists (upper v). split; [exact H|].
    destruct (valid_flags_cases _ H) as [-> _].
    apply upper_to_fold; [|reflexivity].
    apply in_flat_map. exists (upper v). split; [exact H | apply suffixes_self].
Qed.

Lemma getattr_imapclient_valid (f : string) :
  In f valid_flags -> exists c, getattr_imapclient f = Ok c.
Proof.
  unfold valid_flags. simpl.
  intros H; repeat (destruct H as [<- | H]; [eexists; reflexivity|]); contradiction.
Qed.

(** C3. Let [v] be the token without its sign.  When [v] is,
    case-insensitively, one of SEEN, ANSWERED, FLAGGED, DELETED, DRAFT,
    RECENT, [flagspec] returns the sign with the client-library
    constant named by the upper-cased [v]; otherwise it raises
    [ValueError] on the upper-cased [v] (the invalid-flag error). *)
Theorem flagspec_spec (t : string) :
  (caseless_in (snd (labelspec t)) valid_flags ->
   In (upper (snd (labelspec t))) valid_flags /\
   exists c, getattr_imapclient (upper (snd (labelspec t))) = Ok c /\
             flagspec t = Ok (fst (labelspec t), c)) /\
  (~ caseless_in (snd (labelspec t)) valid_flags ->
   flagspec t = Raise (ValueError (upper (snd (labelspec t))))).
Proof.
  unfold flagspec. rewrite labelspec_upper.
  set (a := fst (labelspec t)). set (v := snd (labelspec t)).
  rewrite caseless_in_valid_flags.
  split; intros H.
  - split; [exact H|].
    destruct (getattr_imapclient_valid _ H) as [c Hc].
    exists c. split; [exact Hc|].
    apply str_in_In in H. now rewrite H, Hc.
  - destruct (str_in (upper v) valid_flags) eqn:E; [|reflexivity].
    apply str_in_In in E. contradiction.
Qed.

Lemma flagspec_spec_witness :
  caseless_in "Seen" valid_flags /\
  caseless_in "ﬂagged" valid_flags /\
  ~ caseless_in "spam" valid_flags /\
  flagspec "-Seen" = Ok ("-", SEEN) /\
  flagspec "ﬂagged" = Ok ("+", FLAGGED) /\
  flagspec "+spam" = Raise (ValueError "SPAM").
Proof.
  assert (H1 : caseless_in "Seen" valid_flags).
  { exists "SEEN". split; [simpl; tauto | vm_compute; reflexivity]. }
  assert (H2 : caseless_in "ﬂagged" valid_flags).
  { exists "FLAGGED". split; [simpl; tauto | vm_compute; reflexivity]. }
  assert (H3 : ~ caseless_in "spam" valid_flags).
  { rewrite caseless_in_valid_flags. vm_compute.
    intros H; repeat (destruct H as [H | H]; [discriminate H|]); exact H. }
  split; [exact H1|]. split; [exact H2|]. split; [exact H3|]. split; [|split].
  - destruct (proj1 (flagspec_spec "-Seen") H1) as (_ & c & Hc & Hr).
    rewrite Hr. vm_compute in Hc. now inversion Hc.
  - destruct (proj1 (flagspec_spec "ﬂagged") H2) as (_ & c & Hc & Hr).
    rewrite Hr. vm_compute in Hc. now inversion Hc.
  - exact (proj2 (flagspec_spec "+spam") H3).
Defined.

(* ===================================================================== *)
(** * Chunking *)

Section Chunker.

Context {A : Type}.
Variable size : nat.
Hypothesis size_pos : (0 < size)%nat.

(** With a positive size every batch removes at least one item, so the
    length of the sequence is fuel enough. *)
Lemma concat_chunker_from (fuel : nat) (seq : list A) :
  (length seq <= fuel)%nat -> concat (chunker_from fuel seq size) = seq.
Proof.
  revert seq. induction fuel as [|fuel IH]; intros seq Hlen.
  - destruct seq; [reflexivity | simpl in Hlen; lia].
  - destruct seq as [|x seq]; [reflexivity|].
    cbn [chunker_from concat]. rewrite IH.
    + apply take_drop.
    + rewrite length_drop. simpl in *. lia.
Qed.

Lemma chunker_from_length_le (fuel : nat) (seq : list A) :
  Forall (fun batch => (length batch <= size)%nat) (chunker_from fuel seq size).
Proof.
  revert seq. induction fuel as [|fuel IH]; intros seq; [constructor|].
  destruct seq as [|x seq]; [constructor|].
  cbn [chunker_from]. constructor; [|apply IH].
  rewrite length_take. lia.
Qed.

Lemma chunker_from_nonempty (fuel : nat) (seq : list A) :
  Forall (fun batch => batch <> []) (chunker_from fuel seq size).
Proof.
  revert seq. induction fuel as [|fuel IH]; intros seq; [constructor|].
  destruct seq as [|x seq]; [constructor|].
  cbn [chunker_from]. constructor; [|apply IH].
  destruct size; [lia | discriminate].
Qed.

(** A batch that is followed by another one is full. *)
Lemma chunker_from_full (fuel : nat) (seq : list A) (i : nat) (batch : list A) :
  chunker_from fuel seq size !! i = Some batch ->
  (S i < length (chunker_from fuel seq size))%nat ->
  length batch = size.
Proof.
  revert seq i. induction fuel as [|fuel IH]; intros seq i; [discriminate|].
  destruct seq as [|x seq]; [discriminate|].
  cbn [chunker_from]. destruct i as [|i]; cbn [lookup list_lookup length].
  - intros [= <-] Hnext. rewrite length_take.
    destruct (decide (size <= length (x :: seq))%nat) as [|Hshort]; [lia|].
    exfalso. rewrite drop_ge in Hnext by lia.
    destruct fuel; simpl in Hnext; lia.
  - intros Hi Hnext. apply (IH _ _ Hi). lia.
Qed.

End Chunker.

(** C4. For a positive batch size, the batches of [chunker] put end to
    end give back the sequence, no batch is longer than the size, and
    every batch but the last has exactly that size. *)
Theorem chunker_spec {A : Type} (seq : list A) (size : nat) :
  (0 < size)%nat ->
  concat (chunker seq size) = seq /\
  Forall (fun batch => (length batch <= size)%nat) (chunker seq size) /\
  (forall i batch,
      chunker seq size !! i = Some batch ->
      (S i < length (chunker seq size))%nat ->
      length batch = size).
Proof.
  intros Hpos. unfold chunker. split; [|split].
  - now apply concat_chunker_from.
  - now apply chunker_from_length_le.
  - intros i batch. now apply chunker_from_full.
Qed.

Lemma chunker_spec_witness :
  (0 < 2)%nat /\
  chunker [50; 10; 7; 3; 1] 2 = [[50; 10]; [7; 3]; [1]] /\
  concat (chunker [50; 10; 7; 3; 1] 2) = [50; 10; 7; 3; 1].
Proof.
  assert (Hpos : (0 < 2)%nat) by lia.
  split; [exact Hpos|]. split; [reflexivity|].
  exact (proj1 (chunker_spec [50; 10; 7; 3; 1] 2%nat Hpos)).
Defined.

Lemma chunker_nonempty {A : Type} (seq : list A) (size : nat) :
  (0 < size)%nat -> Forall (fun batch => batch <> []) (chunker seq size).
Proof. intros Hpos. now apply chunker_from_nonempty. Qed.

(* ===================================================================== *)
(** * Running computations *)

Lemma bind_Ok {A B} (m : M A) (k : A -> M B) tr a tr1 :
  m tr = (Ok a, tr1) -> bind m k tr = k a tr1.
Proof. unfold bind. now intros ->. Qed.

Lemma bind_Raise {A B} (m : M A) (k : A -> M B) tr e tr1 :
  m tr = (Raise e, tr1) -> bind m k tr = (Raise e, tr1).
Proof. unfold bind. now intros ->. Qed.

Lemma server_call_returns srv c tr :
  returns srv c -> server_call srv c tr = (Ok tt, tr ++ [Call c]).
Proof. intros H. unfold server_call. now rewrite H. Qed.

Lemma server_call_raises srv c tr e :
  raises srv tr c = Some e ->
  server_call srv c tr = (Raise (ServerError e), tr ++ [Call c]).
Proof. intros H. unfold server_call. now rewrite H. Qed.

(** *** Computations that only append *)

Lemma appends_ret : appends (ret tt) [].
Proof. intros tr. unfold ret. now rewrite app_nil_r. Qed.

Lemma appends_emit e : appends (emit e) [e].
Proof. intros tr. reflexivity. Qed.

Lemma appends_bind (m : M unit) (k : unit -> M unit) d1 d2 :
  appends m d1 -> appends (k tt) d2 -> appends (bind m k) (d1 ++ d2).
Proof.
  intros Hm Hk tr. rewrite (bind_Ok _ _ _ _ _ (Hm tr)), Hk.
  now rewrite app_assoc.
Qed.

Lemma appends_for_each {A} (xs : list A) (body : A -> M unit) (f : A -> list event) :
  (forall x, appends (body x) (f x)) ->
  appends (for_each xs body) (flat_map f xs).
Proof.
  intros Hbody. induction xs as [|x xs IH]; simpl.
  - apply appends_ret.
  - now apply appends_bind.
Qed.

Lemma appends_here (m : M unit) d : appends m d -> d = snd (m []).
Proof. intros H. now rewrite (H []). Qed.

Lemma appends_show_header env header :
  appends (show_header env header) (snd (show_header env header [])).
Proof.
  assert (H : exists d, appends (show_header env header) d).
  { unfold show_header. destruct (negb _); eexists.
    - apply appends_ret.
    - apply appends_emit. }
  destruct H as [d Hd]. now rewrite <- (appends_here _ _ Hd).
Qed.

(** [show_message] cannot raise, and what it prints does not depend on
    the trace before it. *)
Lemma appends_show_message msgid msg : appends (show_message msgid msg) (shown msgid msg).
Proof.
  assert (H : exists d, appends (show_message msgid msg) d).
  { unfold show_message, print. eexists.
    apply appends_bind; [apply appends_emit|].
    apply appends_bind; [apply appends_for_each, appends_show_header|].
    apply appends_bind; apply appends_emit. }
  destruct H as [d Hd]. unfold shown. now rewrite <- (appends_here _ _ Hd).
Qed.

Lemma shown_prints msgid msg : Forall (fun e => is_print e = true) (shown msgid msg).
Proof.
  unfold shown, show_message, print, bind, emit, headers, for_each, show_header, ret.
  cbn [fst snd app].
  repeat match goal with
         | |- context [if ?b then _ else _] => destruct b
         end; cbn [snd]; repeat constructor.
Qed.

(** *** The keys of a fetch result, sorted *)

Lemma elem_of_sorted_keys (res : gmap Z message) (k : Z) :
  k ∈ sorted_keys res <-> is_Some (res !! k).
Proof.
  unfold sorted_keys. rewrite merge_sort_Permutation.
  rewrite list_elem_of_fmap. split.
  - intros ([k' m] & -> & Hin). apply elem_of_map_to_list in Hin. eauto.
  - intros [m Hm]. exists (k, m). split; [reflexivity|].
    now apply elem_of_map_to_list.
Qed.

Lemma NoDup_sorted_keys (res : gmap Z message) : NoDup (sorted_keys res).
Proof.
  unfold sorted_keys. rewrite merge_sort_Permutation.
  apply NoDup_fst_map_to_list.
Qed.

Lemma StronglySorted_le_lt (l : list Z) :
  StronglySorted Z.le l -> NoDup l -> StronglySorted Z.lt l.
Proof.
  induction 1 as [|x l Hl IH Hx]; intros Hnd; [constructor|].
  apply NoDup_cons in Hnd as [Hnotin Hnd].
  constructor; [now apply IH|].
  rewrite Forall_forall in Hx |- *. intros y Hy.
  assert (x <> y) by (intros ->; apply Hnotin; now apply list_elem_of_In).
  specialize (Hx y Hy). lia.
Qed.

Lemma sorted_keys_ascending (res : gmap Z message) :
  StronglySorted Z.lt (sorted_keys res).
Proof.
  apply StronglySorted_le_lt; [|apply NoDup_sorted_keys].
  unfold sorted_keys. apply StronglySorted_merge_sort; apply _.
Qed.

(** The loop of the show action prints every fetched message, in the
    order of the sorted keys, and cannot raise. *)
Lemma show_loop (res : gmap Z message) (ks : list Z) tr :
  Forall (fun k => is_Some (res !! k)) ks ->
  for_each ks
    (fun msg => match res !! msg with
                | Some m => show_message msg m
                | None => raise KeyError
                end) tr
  = (Ok tt, tr ++ flat_map (shown_of res) ks).
Proof.
  intros H. revert tr. induction H as [|k ks [m Hk] _ IH]; intros tr; simpl.
  - unfold ret. now rewrite app_nil_r.
  - unfold shown_of at 1. rewrite Hk.
    rewrite (bind_Ok _ _ _ _ _ (appends_show_message k m tr)), IH.
    now rewrite app_assoc.
Qed.

Lemma show_loop_sorted (res : gmap Z message) tr :
  for_each (sorted_keys res)
    (fun msg => match res !! msg with
                | Some m => show_message msg m
                | None => raise KeyError
                end) tr
  = (Ok tt, tr ++ flat_map (shown_of res) (sorted_keys res)).
Proof.
  apply show_loop. apply Forall_forall. intros k Hk.
  now apply elem_of_sorted_keys.
Qed.

(** *** What a computation can append, however it ends *)

Section Emits.

Variable P : event -> Prop.

Lemma emits_ret {A} (a : A) : emits P (ret a).
Proof. intros tr. exists []. split; [symmetry; apply app_nil_r | constructor]. Qed.

Lemma emits_raise {A} (e : exn) : emits P (@raise A e).
Proof. intros tr. exists []. split; [symmetry; apply app_nil_r | constructor]. Qed.

Lemma emits_ask {A} (f : list event -> A) : emits P (ask f).
Proof. intros tr. exists []. split; [symmetry; apply app_nil_r | constructor]. Qed.

Lemma emits_emit (e : event) : P e -> emits P (emit e).
Proof. intros He tr. exists [e]. split; [reflexivity | now repeat constructor]. Qed.

Lemma emits_LOG lvl fmt largs : P (Log lvl fmt largs) -> emits P (LOG lvl fmt largs).
Proof. apply emits_emit. Qed.

Lemma emits_server_call srv c : P (Call c) -> emits P (server_call srv c).
Proof.
  intros Hc tr. exists [Call c]. unfold server_call.
  split; [now destruct (raises srv tr c) | now repeat constructor].
Qed.

Lemma emits_first_last chunk : emits P (first_last chunk).
Proof. destruct chunk; [apply emits_raise | apply emits_ret]. Qed.

Lemma emits_bind {A B} (m : M A) (k : A -> M B) :
  emits P m -> (forall a, emits P (k a)) -> emits P (bind m k).
Proof.
  intros Hm Hk tr. destruct (Hm tr) as (d1 & E1 & F1). unfold bind.
  destruct (m tr) as [[a|e] tr1]; simpl in E1; subst tr1.
  - destruct (Hk a (tr ++ d1)) as (d2 & E2 & F2).
    exists (d1 ++ d2). rewrite E2, app_assoc.
    split; [reflexivity | now apply Forall_app].
  - now exists d1.
Qed.

Lemma emits_for_each {A} (xs : list A) (body : A -> M unit) :
  (forall x, emits P (body x)) -> emits P (for_each xs body).
Proof.
  intros Hbody. induction xs as [|x xs IH]; simpl.
  - apply emits_ret.
  - now apply emits_bind.
Qed.

Lemma emits_try {A} (m : M A) : emits P m -> emits P (try_IMAP4_error m).
Proof.
  intros Hm tr. destruct (Hm tr) as (d & E & F). exists d.
  unfold try_IMAP4_error.
  destruct (m tr) as [[a|[]] tr1]; try destruct e; simpl in *; auto.
Qed.

Lemma emits_show_message msgid msg :
  (forall line, P (Printed line)) -> emits P (show_message msgid msg).
Proof.
  intros HP tr. exists (shown msgid msg).
  rewrite (appends_show_message msgid msg tr). split; [reflexivity|].
  eapply Forall_impl; [apply shown_prints|].
  intros [] Hp; try discriminate Hp. apply HP.
Qed.

End Emits.

(** Decomposes a goal [emits P m] along the structure of [m]; the
    events themselves are left to [tac]. *)
Ltac emits_with tac :=
  repeat first
    [ apply emits_ret | apply emits_raise | apply emits_ask
    | apply emits_first_last
    | apply emits_LOG; tac
    | apply emits_emit; tac
    | apply emits_server_call; tac
    | apply emits_show_message; intros; tac
    | apply emits_try
    | apply emits_for_each; intros ?
    | apply emits_bind; [|intros ?]
    | match goal with
      | |- emits _ (if ?b then _ else _) => destruct b
      | |- emits _ (match ?x with _ => _ end) => destruct x
      end ].

(* ===================================================================== *)
(** * The batch action dispatcher *)

Lemma bool_decide_nil {A} (l : list A) :
  bool_decide (l = []) = match l with [] => true | _ :: _ => false end.
Proof. now destruct l. Qed.

Lemma filter_none {A} (f : A -> bool) (l : list A) :
  Forall (fun x => f x = false) l -> List.filter f l = [].
Proof. induction 1 as [|x l Hx _ IH]; simpl; [reflexivity | now rewrite Hx]. Qed.

Lemma filter_all {A} (f : A -> bool) (l : list A) :
  Forall (fun x => f x = true) l -> List.filter f l = l.
Proof. induction 1 as [|x l Hx _ IH]; simpl; [reflexivity | now rewrite Hx, IH]. Qed.

Lemma calls_of_app (l1 l2 : list event) : calls_of (l1 ++ l2) = calls_of l1 ++ calls_of l2.
Proof.
  induction l1 as [|e l1 IH]; [reflexivity|].
  destruct e; simpl; now rewrite IH.
Qed.

Lemma calls_of_prints (l : list event) :
  Forall (fun e => is_print e = true) l -> calls_of l = [].
Proof.
  induction 1 as [|e l He _ IH]; [reflexivity|].
  destruct e; try discriminate He. exact IH.
Qed.

Lemma shown_of_prints (res : gmap Z message) (ks : list Z) :
  Forall (fun e => is_print e = true) (flat_map (shown_of res) ks).
Proof.
  induction ks as [|k ks IH]; simpl; [constructor|].
  apply Forall_app. split; [|exact IH].
  unfold shown_of. destruct (res !! k); [apply shown_prints | constructor].
Qed.

(** The first line printed for a message carries its identifier. *)
Lemma shown_head (k : Z) (m : message) :
  exists rest, shown k m = Printed (fmt_04d k +:+ ": " +:+ subject (ENVELOPE m)) :: rest.
Proof.
  unfold shown, show_message, print.
  assert (H : exists d,
             appends (for_each headers (show_header (ENVELOPE m)) ;;;
                      emit (Printed ("      Labels: " +:+ join " " (X_GM_LABELS m))) ;;;
                      emit (Printed "")) d).
  { eexists.
    apply appends_bind; [apply appends_for_each, appends_show_header|].
    apply appends_bind; apply appends_emit. }
  destruct H as [d Hd]. exists d.
  erewrite bind_Ok by reflexivity. now rewrite Hd.
Qed.

Section Dispatcher.

Variable srv : Server.
Variable args : Args.t.
Variable folder : string.

(** On a non-empty batch and with a server none of whose calls raises,
    the dispatcher returns, and its trace is the six actions one after
    the other. *)
Lemma process_messages_quiet (chunk : list Z) (tr : list event) :
  quiet srv -> chunk <> [] ->
  process_messages srv args folder chunk tr
  = (Ok tt, tr ++ batch_events srv args folder chunk tr).
Proof.
  intros Hq Hne. destruct chunk as [|x chunk]; [congruence|]. clear Hne.
  unfold batch_events, process_messages, trace_at_fetch, flags_action, labels_action,
    archive_action, show_action, trash_action, delete_action, range_args, signed.
  rewrite !bool_decide_nil.
  destruct (Args.flag args) as [|f fs], (Args.label args) as [|l ls],
    (Args.archive args), (Args.show args), (Args.trash args), (Args.delete args).
  all: unfold bind, first_last, LOG, emit, ret, ask; cbn [negb]; cbv beta iota.
  all: repeat (first [ rewrite show_loop_sorted
                     | rewrite (server_call_returns srv _ _ (Hq _)) ];
               cbv beta iota).
  all: rewrite <- ?app_assoc; cbn [app fst snd].
  all: rewrite ?app_nil_r; reflexivity.
Qed.

(** Without a flag spec the dispatcher makes no flag call, whatever
    the batch and whatever the server answers. *)
Lemma process_messages_no_flag_spec (chunk : list Z) :
  Args.flag args = [] ->
  emits (fun e => is_flag_call e = false) (process_messages srv args folder chunk).
Proof.
  intros H. unfold process_messages. cbv zeta.
  rewrite H, !bool_decide_nil. cbn [negb].
  emits_with ltac:(reflexivity).
Qed.

(** C6. With at least one flag spec, on a non-empty batch and when the
    add-flags call returns, the flag calls of the dispatcher are
    exactly two: [add_flags] with the flags signed [+], then
    [remove_flags] with the flags signed [-], whether or not those
    lists are empty and whatever happens afterwards.  Without a flag
    spec the dispatcher makes no flag call at all. *)
Theorem process_messages_flag_calls (chunk : list Z) (tr : list event) :
  (Args.flag args <> [] -> chunk <> [] ->
   returns srv (server.add_flags chunk (signed "+" (Args.flag args))) ->
   exists d,
     snd (process_messages srv args folder chunk tr) = tr ++ d /\
     List.filter is_flag_call d
     = [Call (server.add_flags chunk (signed "+" (Args.flag args)));
        Call (server.remove_flags chunk (signed "-" (Args.flag args)))]) /\
  (Args.flag args = [] ->
   exists d,
     snd (process_messages srv args folder chunk tr) = tr ++ d /\
     List.filter is_flag_call d = []).
Proof.
  split.
  - intros Hflags Hne Hret.
    destruct chunk as [|x chunk']; [congruence|]. clear Hne.
    unfold process_messages. cbv zeta. rewrite (bool_decide_nil (Args.flag args)).
    unfold signed in *.
    destruct (Args.flag args) as [|f fs]; [congruence|]. clear Hflags.
    cbn [negb].
    match goal with
    | |- context [bind ?m ?k tr] =>
        assert (Hrest : forall u, emits (fun e => is_flag_call e = false) (k u))
          by (intros u; emits_with ltac:(reflexivity));
        assert (Hm : exists r d0, m tr = (r, tr ++ d0) /\
                        List.filter is_flag_call d0
                        = [Call (server.add_flags (x :: chunk')
                                   (map snd (List.filter (fun s => String.eqb (fst s) "+") (f :: fs))));
                           Call (server.remove_flags (x :: chunk')
                                   (map snd (List.filter (fun s => String.eqb (fst s) "-") (f :: fs))))])
    end.
    { unfold bind at 1 2 3. unfold first_last, ret, LOG, emit.
      rewrite (server_call_returns _ _ _ Hret). unfold server_call.
      match goal with
      | |- context [raises srv ?t ?c] => destruct (raises srv t c)
      end; eexists; eexists; (split; [rewrite <- !app_assoc; reflexivity | reflexivity]). }
    destruct Hm as (r & d0 & Hm & Hd0).
    destruct r as [[]|e].
    + rewrite (bind_Ok _ _ _ _ _ Hm).
      destruct (Hrest tt (tr ++ d0)) as (d1 & E1 & F1).
      exists (d0 ++ d1). rewrite E1, app_assoc. split; [reflexivity|].
      rewrite List.filter_app, Hd0.
      now rewrite (filter_none _ _ F1).
    + rewrite (bind_Raise _ _ _ _ _ Hm). now exists d0.
  - intros Hflags.
    destruct (process_messages_no_flag_spec chunk Hflags tr) as (d & E & F).
    exists d. split; [exact E | now apply filter_none].
Qed.

(** C7. On a non-empty batch and with a server none of whose calls
    raises, the dispatcher runs the requested actions in the order
    flags, labels, archive, show, trash, delete, each contributing its
    own events or nothing; archive removes the label [\Inbox] and trash
    adds the label [\Trash]. *)
Theorem process_messages_order (chunk : list Z) (tr : list event) :
  quiet srv -> chunk <> [] ->
  process_messages srv args folder chunk tr
  = (Ok tt,
     tr ++ flags_action args folder chunk
        ++ labels_action args folder chunk
        ++ archive_action args folder chunk
        ++ show_action args folder chunk
             (fetched srv (trace_at_fetch args folder chunk tr))
        ++ trash_action args folder chunk
        ++ delete_action args folder chunk) /\
  calls_of (archive_action args folder chunk)
  = (if Args.archive args then [server.remove_gmail_labels chunk ["\Inbox"]] else []) /\
  calls_of (trash_action args folder chunk)
  = (if Args.trash args then [server.add_gmail_labels chunk ["\Trash"]] else []).
Proof.
  intros Hq Hne. split; [now apply process_messages_quiet|].
  unfold archive_action, trash_action.
  split; [now destruct (Args.archive args) | now destruct (Args.trash args)].
Qed.

(** The calls of the actions that come before the delete action: none
    of them is a delete or an expunge. *)
Lemma calls_before_delete (chunk : list Z) (res : gmap Z message) :
  Forall (fun c => is_delete_or_expunge c = false)
    (calls_of (flags_action args folder chunk
               ++ labels_action args folder chunk
               ++ archive_action args folder chunk
               ++ show_action args folder chunk res
               ++ trash_action args folder chunk)).
Proof.
  rewrite !calls_of_app, !Forall_app.
  unfold flags_action, labels_action, archive_action, show_action, trash_action.
  repeat split.
  - destruct (Args.flag args); repeat constructor.
  - destruct (Args.label args); repeat constructor.
  - destruct (Args.archive args); repeat constructor.
  - destruct (Args.show args); [|constructor].
    rewrite calls_of_app, (calls_of_prints _ (shown_of_prints _ _)).
    repeat constructor.
  - destruct (Args.trash args); repeat constructor.
Qed.

(** C8. With [--delete], on a non-empty batch and with a server none of
    whose calls raises, the calls of the dispatcher end with
    [delete_messages] on the batch followed at once by [expunge], and
    these are its only delete and expunge calls. *)
Theorem process_messages_delete (chunk : list Z) (tr : list event) :
  quiet srv -> chunk <> [] -> Args.delete args = true ->
  exists d before,
    process_messages srv args folder chunk tr = (Ok tt, tr ++ d) /\
    calls_of d = before ++ [server.delete_messages chunk; server.expunge] /\
    Forall (fun c => is_delete_or_expunge c = false) before.
Proof.
  intros Hq Hne Hdel.
  set (res := fetched srv (trace_at_fetch args folder chunk tr)).
  exists (batch_events srv args folder chunk tr).
  exists (calls_of (flags_action args folder chunk ++ labels_action args folder chunk
                    ++ archive_action args folder chunk
                    ++ show_action args folder chunk res
                    ++ trash_action args folder chunk)).
  split; [now apply process_messages_quiet|].
  split; [|apply calls_before_delete].
  unfold batch_events. fold res.
  rewrite !calls_of_app, <- !app_assoc.
  unfold delete_action. now rewrite Hdel.
Qed.

(** C9. With [--show], on a non-empty batch and with a server none of
    whose calls raises, the lines printed by the dispatcher are those of
    the fetched messages taken by ascending identifier, whatever the
    order of the batch: the identifiers are the keys of the fetch
    result, each once, in strictly increasing order, and the lines of a
    message start with the line that carries its identifier. *)
Theorem process_messages_show (chunk : list Z) (tr : list event) :
  quiet srv -> chunk <> [] -> Args.show args = true ->
  let res := fetched srv (trace_at_fetch args folder chunk tr) in
  exists d,
    process_messages srv args folder chunk tr = (Ok tt, tr ++ d) /\
    List.filter is_print d = flat_map (shown_of res) (sorted_keys res) /\
    StronglySorted Z.lt (sorted_keys res) /\
    (forall k, k ∈ sorted_keys res <-> is_Some (res !! k)) /\
    (forall k m, res !! k = Some m ->
       exists rest,
         shown_of res k = Printed (fmt_04d k +:+ ": " +:+ subject (ENVELOPE m)) :: rest).
Proof.
  intros Hq Hne Hshow res. eexists.
  split; [now apply process_messages_quiet|].
  split; [|split; [apply sorted_keys_ascending|split; [apply elem_of_sorted_keys|]]].
  - unfold batch_events. fold res. rewrite !List.filter_app.
    unfold flags_action, labels_action, archive_action, show_action, trash_action,
      delete_action.
    rewrite Hshow, List.filter_app, (filter_all _ _ (shown_of_prints res _)).
    destruct (Args.flag args), (Args.label args), (Args.archive args),
      (Args.trash args), (Args.delete args); cbn [List.filter is_print app];
      now rewrite ?app_nil_r.
  - intros k m Hk. unfold shown_of. rewrite Hk. apply shown_head.
Qed.

End Dispatcher.

(** *** The dispatcher on a sample batch *)

Lemma quiet_sample_server (ids : list Z) : quiet (sample_server ids).
Proof. intros c tr. reflexivity. Qed.

Lemma process_messages_flag_calls_witness :
  Args.flag all_actions <> [] /\
  [50; 10] <> [] /\
  returns (sample_server []) (server.add_flags [50; 10] [SEEN]) /\
  Args.flag (sample_args ["Inbox"]) = [] /\
  List.filter is_flag_call
    (snd (process_messages (sample_server []) all_actions "Inbox" [50; 10] []))
  = [Call (server.add_flags [50; 10] [SEEN]); Call (server.remove_flags [50; 10] [])] /\
  List.filter is_flag_call
    (snd (process_messages (sample_server []) (sample_args ["Inbox"]) "Inbox" [50; 10] []))
  = [].
Proof.
  assert (H1 : Args.flag all_actions <> []) by discriminate.
  assert (H2 : [50; 10] <> []) by discriminate.
  assert (H3 : returns (sample_server []) (server.add_flags [50; 10] [SEEN]))
    by (intros tr; reflexivity).
  assert (H4 : Args.flag (sample_args ["Inbox"]) = []) by reflexivity.
  repeat (split; [assumption|]).
  split.
  - destruct (proj1 (process_messages_flag_calls
                       (sample_server []) all_actions "Inbox" [50; 10] []) H1 H2 H3)
      as (d & E & F).
    change ([] ++ d) with d in E. rewrite E. exact F.
  - destruct (proj2 (process_messages_flag_calls
                       (sample_server []) (sample_args ["Inbox"]) "Inbox" [50; 10] []) H4)
      as (d & E & F).
    change ([] ++ d) with d in E. rewrite E. exact F.
Defined.

Lemma process_messages_order_witness :
  quiet (sample_server []) /\
  [50; 10] <> [] /\
  calls_of (snd (process_messages (sample_server []) all_actions "Inbox" [50; 10] []))
  = [server.add_flags [50; 10] [SEEN];
     server.remove_flags [50; 10] [];
     server.add_gmail_labels [50; 10] [];
     server.remove_gmail_labels [50; 10] ["old"];
     server.remove_gmail_labels [50; 10] ["\Inbox"];
     server.fetch [50; 10] ["ENVELOPE"; "X-GM-LABELS"];
     server.add_gmail_labels [50; 10] ["\Trash"];
     server.delete_messages [50; 10];
     server.expunge].
Proof.
  assert (H1 : quiet (sample_server [])) by apply quiet_sample_server.
  assert (H2 : [50; 10] <> []) by discriminate.
  split; [exact H1|]. split; [exact H2|].
  rewrite (proj1 (process_messages_order
                    (sample_server []) all_actions "Inbox" [50; 10] [] H1 H2)).
  vm_compute. reflexivity.
Defined.

Lemma process_messages_delete_witness :
  quiet (sample_server []) /\
  [50; 10] <> [] /\
  Args.delete all_actions = true /\
  exists d before,
    process_messages (sample_server []) all_actions "Inbox" [50; 10] [] = (Ok tt, [] ++ d) /\
    calls_of d = before ++ [server.delete_messages [50; 10]; server.expunge] /\
    Forall (fun c => is_delete_or_expunge c = false) before.
Proof.
  assert (H1 : quiet (sample_server [])) by apply quiet_sample_server.
  assert (H2 : [50; 10] <> []) by discriminate.
  assert (H3 : Args.delete all_actions = true) by reflexivity.
  split; [exact H1|]. split; [exact H2|]. split; [exact H3|].
  exact (process_messages_delete (sample_server []) all_actions "Inbox" [50; 10] [] H1 H2 H3).
Defined.

(** A batch fetched in the order 50, 10 is printed with 10 first. *)
Lemma process_messages_show_witness :
  quiet (sample_server []) /\
  [50; 10] <> [] /\
  Args.show all_actions = true /\
  List.filter is_print
    (snd (process_messages (sample_server []) all_actions "Inbox" [50; 10] []))
  = [Printed "0010: ten";
     Printed "      From: ann@example.org, bob@example.org";
     Printed "      To: ...";
     Printed "      Message ID: <1@example.org>";
     Printed "      Labels: ";
     Printed "";
     Printed "0050: fifty";
     Printed "      From: ann@example.org, bob@example.org";
     Printed "      To: ...";
     Printed "      Message ID: <1@example.org>";
     Printed "      Labels: x y";
     Printed ""].
Proof.
  assert (H1 : quiet (sample_server [])) by apply quiet_sample_server.
  assert (H2 : [50; 10] <> []) by discriminate.
  assert (H3 : Args.show all_actions = true) by reflexivity.
  split; [exact H1|]. split; [exact H2|]. split; [exact H3|].
  destruct (process_messages_show (sample_server []) all_actions "Inbox" [50; 10] [] H1 H2 H3)
    as (d & E & F & _).
  rewrite E. cbn [snd]. change ([] ++ d) with d. rewrite F.
  vm_compute. reflexivity.
Defined.

(* ===================================================================== *)
(** * The batches of a folder *)

Section Folder.

Variable srv : Server.
Variable args : Args.t.
Variable folder : string.

(** An empty batch never gets as far as a call: the first requested
    action raises [IndexError] on [chunk[0]] while building its log
    record.  The batches cut by [chunker] are not empty, so the
    dispatcher is never run on one. *)
Lemma process_messages_empty_batch (tr : list event) :
  Args.flag args <> [] \/ Args.label args <> [] \/ Args.archive args = true \/
  Args.show args = true \/ Args.trash args = true \/ Args.delete args = true ->
  process_messages srv args folder [] tr = (Raise IndexError, tr).
Proof.
  intros H. unfold process_messages. rewrite !bool_decide_nil.
  destruct (Args.flag args), (Args.label args), (Args.archive args), (Args.show args),
    (Args.trash args), (Args.delete args); try reflexivity.
  exfalso. intuition congruence.
Qed.

(** With a server none of whose calls raises, the loop over non-empty
    batches runs the dispatcher on each batch in turn and returns. *)
Lemma process_batches_quiet (chunks : list (list Z)) (tr : list event) :
  quiet srv ->
  Forall (fun chunk => chunk <> []) chunks ->
  for_each chunks (process_messages srv args folder) tr
  = (Ok tt, tr ++ batches_events srv args folder chunks tr).
Proof.
  intros Hq Hne. revert tr.
  induction Hne as [|chunk chunks Hchunk _ IH]; intros tr; cbn [for_each batches_events].
  - unfold ret. now rewrite app_nil_r.
  - rewrite (bind_Ok _ _ _ _ _ (process_messages_quiet srv args folder chunk tr Hq Hchunk)).
    rewrite IH. now rewrite app_assoc.
Qed.

(** A whole folder: selection, search, then the dispatcher on each
    batch of the search result. *)
Lemma process_one_folder_quiet (tr : list event) :
  quiet srv ->
  (0 < Args.chunksize args)%nat ->
  let messages := found srv (tr ++ folder_header args folder) in
  Args.fail_if_empty args && bool_decide (messages = []) = false ->
  process_one_folder srv args folder tr
  = (Ok tt,
     tr ++ folder_header args folder
        ++ [Log INFO "found %d messages" [a_int (Z.of_nat (length messages))]]
        ++ batches_events srv args folder (chunker messages (Args.chunksize args))
             (tr ++ folder_header args folder
                 ++ [Log INFO "found %d messages" [a_int (Z.of_nat (length messages))]])).
Proof.
  intros Hq Hsize messages Hgo. subst messages.
  unfold process_one_folder, folder_header, search_log, search_call in *.
  unfold bind at 1 2, LOG at 1, emit at 1, try_IMAP4_error.
  rewrite (server_call_returns _ _ _ (Hq _)).
  destruct (Args.query args) as [query|];
    unfold bind, LOG, emit, ask;
    rewrite (server_call_returns _ _ _ (Hq _));
    rewrite <- !app_assoc in *; cbn [app] in *;
    rewrite Hgo;
    rewrite process_batches_quiet by (auto using chunker_nonempty);
    now rewrite <- !app_assoc.
Qed.

(** With [--delete], the delete and expunge calls made over the batches
    of a folder are one [delete_messages] and one [expunge] per batch,
    batch after batch. *)
Lemma batches_delete_calls (chunks : list (list Z)) (tr : list event) :
  Args.delete args = true ->
  List.filter is_delete_or_expunge (calls_of (batches_events srv args folder chunks tr))
  = flat_map (fun chunk => [server.delete_messages chunk; server.expunge]) chunks.
Proof.
  intros Hdel. revert tr.
  induction chunks as [|chunk chunks IH]; intros tr; [reflexivity|].
  cbn [batches_events flat_map].
  rewrite calls_of_app, List.filter_app, IH. f_equal.
  unfold batch_events.
  rewrite !app_assoc, calls_of_app, List.filter_app, <- !app_assoc.
  rewrite (filter_none _ _ (calls_before_delete args folder chunk _)).
  unfold delete_action. now rewrite Hdel.
Qed.

End Folder.

(* ===================================================================== *)
(** * Folders and runs *)

Section Run.

Variable srv : Server.
Variable config : app_config.
Variable args : Args.t.

(** A folder whose selection raises [imaplib.IMAP4.error] is logged
    and skipped: nothing is searched and nothing is raised. *)
Lemma process_one_folder_refused (folder msg : string) (tr : list event) :
  raises srv (tr ++ [Log INFO "processing folder %s" [a_str folder]])
    (server.select_folder folder) = Some (IMAP4_error msg) ->
  process_one_folder srv args folder tr
  = (Ok tt,
     tr ++ [Log INFO "processing folder %s" [a_str folder];
            Call (server.select_folder folder);
            Log ERROR "failed to select %s (%s): %s"
              [a_str folder; a_type (IMAP4_error msg); a_exc (IMAP4_error msg)]]).
Proof.
  intros Hsel. unfold process_one_folder, bind, LOG, emit, try_IMAP4_error.
  rewrite (server_call_raises _ _ _ _ Hsel).
  now rewrite <- !app_assoc.
Qed.

(** With [--fail-if-empty], a folder whose search finds nothing ends
    the run before any batch is formed. *)
Lemma process_one_folder_empty (folder : string) (tr : list event) :
  Args.fail_if_empty args = true ->
  returns srv (server.select_folder folder) ->
  returns srv (search_call args) ->
  found srv (tr ++ folder_header args folder) = [] ->
  process_one_folder srv args folder tr
  = (Raise (NoMatchingMessages "Filter returned zero messages"),
     tr ++ folder_header args folder ++ [Log INFO "found %d messages" [a_int 0]]).
Proof.
  intros Hfail Hsel Hsearch Hfound.
  unfold process_one_folder, folder_header, search_call, search_log in *.
  unfold bind at 1 2, LOG at 1, emit at 1, try_IMAP4_error.
  rewrite (server_call_returns _ _ _ Hsel).
  destruct (Args.query args) as [query|];
    unfold bind, LOG, emit, ask;
    rewrite (server_call_returns _ _ _ Hsearch);
    rewrite <- !app_assoc; cbn [app];
    rewrite Hfound, Hfail; reflexivity.
Qed.

(** [take_action] once the session is open: what is left is the
    validation of the resolved folders and the loop over them. *)
Lemma take_action_session (account : Account) (tr : list event) :
  lookup_account config args = Some account ->
  session_opens srv account ->
  take_action srv config args tr
  = let tr1 := tr ++ session_events account args in
    let selected_folders := resolved srv tr1 (Args.folders args) in
    if bool_decide (selected_folders = [])
    then (Raise (NoMatchingFolders "No folders to process"), tr1)
    else if Args.fail_if_empty args && (1 <? length selected_folders)%nat
    then (Raise (InvalidOptions
                   "--fail-if-empty can only be used when processing a single folder"),
          tr1)
    else process_folders srv args selected_folders tr1.
Proof.
  unfold lookup_account. intros Hacc (Hc & Hl & Hf).
  unfold take_action, select_folders.
  destruct (accounts config) as [accts|]; [|discriminate]. rewrite Hacc.
  unfold bind, ret, emit, ask.
  rewrite (server_call_returns _ _ _ Hc), (server_call_returns _ _ _ Hl),
    (server_call_returns _ _ _ Hf).
  unfold session_events. rewrite <- !app_assoc. cbn [app].
  repeat match goal with
         | |- context [if ?b then _ else _] => destruct b
         end; reflexivity.
Qed.

(** C1, as the code has it.  With [--fail-if-empty], once the session
    is open and the folder tokens resolve to two or more folders, the
    run raises [InvalidOptions]; by then the client has been built, the
    login made and the folders listed, and nothing else: no folder has
    been selected or searched and no message touched. *)
Theorem fail_if_empty_many_folders (account : Account) :
  Args.fail_if_empty args = true ->
  lookup_account config args = Some account ->
  session_opens srv account ->
  (1 < length (resolved srv (session_events account args) (Args.folders args)))%nat ->
  take_action srv config args []
  = (Raise (InvalidOptions
              "--fail-if-empty can only be used when processing a single folder"),
     session_events account args) /\
  Exists (fun e => is_connect e = true) (session_events account args) /\
  Exists (fun e => is_login e = true) (session_events account args) /\
  Forall (fun e => is_select e = false /\ is_search e = false /\ is_mutation e = false)
    (session_events account args).
Proof.
  intros Hfail Hacc Hopen Hmany.
  split; [|split; [|split]].
  - rewrite (take_action_session account [] Hacc Hopen). cbn zeta.
    cbn [app].
    destruct (resolved srv _ _) as [|f1 [|f2 fs]]; simpl in Hmany; try lia.
    rewrite bool_decide_nil, Hfail. reflexivity.
  - apply Exists_cons_hd. reflexivity.
  - do 2 apply Exists_cons_tl. apply Exists_cons_hd. reflexivity.
  - repeat constructor.
Qed.

(** C5. With [--fail-if-empty], once the session is open and the
    folder tokens resolve to one folder that can be selected, a search
    that finds nothing makes the run raise [NoMatchingMessages], and no
    mutation call is in its trace. *)
Theorem fail_if_empty_no_messages (account : Account) (folder : string) :
  Args.fail_if_empty args = true ->
  lookup_account config args = Some account ->
  session_opens srv account ->
  resolved srv (session_events account args) (Args.folders args) = [folder] ->
  returns srv (server.select_folder folder) ->
  returns srv (search_call args) ->
  found srv (session_events account args ++ folder_header args folder) = [] ->
  exists tr,
    take_action srv config args []
    = (Raise (NoMatchingMessages "Filter returned zero messages"), tr) /\
    Exists (fun e => is_search e = true) tr /\
    Forall (fun e => is_mutation e = false) tr.
Proof.
  intros Hfail Hacc Hopen Hone Hsel Hsearch Hfound.
  rewrite (take_action_session account [] Hacc Hopen). cbn zeta. cbn [app].
  rewrite Hone, Hfail. cbn [length Nat.ltb Nat.leb andb].
  rewrite bool_decide_nil.
  unfold process_folders. cbn [for_each].
  erewrite bind_Raise by (now apply process_one_folder_empty).
  eexists. split; [reflexivity|].
  unfold folder_header, search_log, search_call. split.
  - apply Exists_app. right. do 3 apply Exists_cons_tl. apply Exists_cons_hd.
    now destruct (Args.query args).
  - apply Forall_app. split; [repeat constructor|].
    destruct (Args.query args); repeat constructor.
Qed.

(** C10. With [--fail-if-empty], once the session is open and the
    folder tokens resolve to one folder, a selection refused with
    [imaplib.IMAP4.error] is logged and the run returns normally:
    [NoMatchingMessages] is not raised, and no search is made. *)
Theorem fail_if_empty_select_refused (account : Account) (folder msg : string) :
  Args.fail_if_empty args = true ->
  lookup_account config args = Some account ->
  session_opens srv account ->
  resolved srv (session_events account args) (Args.folders args) = [folder] ->
  raises srv (session_events account args ++ [Log INFO "processing folder %s" [a_str folder]])
    (server.select_folder folder) = Some (IMAP4_error msg) ->
  take_action srv config args []
  = (Ok tt,
     session_events account args
     ++ [Log INFO "processing folder %s" [a_str folder];
         Call (server.select_folder folder);
         Log ERROR "failed to select %s (%s): %s"
           [a_str folder; a_type (IMAP4_error msg); a_exc (IMAP4_error msg)]]) /\
  Forall (fun e => is_search e = false /\ is_mutation e = false)
    (snd (take_action srv config args [])).
Proof.
  intros Hfail Hacc Hopen Hone Hsel.
  assert (Hrun : take_action srv config args []
                 = (Ok tt,
                    session_events account args
                    ++ [Log INFO "processing folder %s" [a_str folder];
                        Call (server.select_folder folder);
                        Log ERROR "failed to select %s (%s): %s"
                          [a_str folder; a_type (IMAP4_error msg);
                           a_exc (IMAP4_error msg)]])).
  { rewrite (take_action_session account [] Hacc Hopen). cbn zeta. cbn [app].
    rewrite Hone, Hfail. cbn [length Nat.ltb Nat.leb andb].
    rewrite bool_decide_nil.
    unfold process_folders. cbn [for_each].
    rewrite (bind_Ok _ _ _ _ _ (process_one_folder_refused folder msg _ Hsel)).
    reflexivity. }
  split; [exact Hrun|].
  rewrite Hrun. cbn [snd]. repeat constructor.
Qed.

End Run.

(** *** Sample runs *)

Lemma sample_session_opens (ids : list Z) : session_opens (sample_server ids) sample_account.
Proof. repeat split. Qed.

Lemma refusing_session_opens : session_opens refusing_server sample_account.
Proof. repeat split. Qed.

(** [--fail-if-empty Inbox Spam]: the run is refused with
    [InvalidOptions], but only after the client was built and the login
    made, so it is not refused before connecting. *)
Lemma fail_if_empty_two_folders_connects :
  Args.fail_if_empty (sample_args ["Inbox"; "Spam"]) = true /\
  length (Args.folders (sample_args ["Inbox"; "Spam"])) = 2%nat /\
  take_action (sample_server []) sample_config (sample_args ["Inbox"; "Spam"]) []
  = (Raise (InvalidOptions
              "--fail-if-empty can only be used when processing a single folder"),
     [Call (server.IMAPClient "imap.example.org" true true);
      SetDebug false;
      Call (server.login "me" "secret");
      Call server.list_folders]) /\
  ~ refused_before_connecting
      (take_action (sample_server []) sample_config (sample_args ["Inbox"; "Spam"])).
Proof.
  assert (Hrun :
    take_action (sample_server []) sample_config (sample_args ["Inbox"; "Spam"]) []
    = (Raise (InvalidOptions
                "--fail-if-empty can only be used when processing a single folder"),
       [Call (server.IMAPClient "imap.example.org" true true);
        SetDebug false;
        Call (server.login "me" "secret");
        Call server.list_folders])) by (vm_compute; reflexivity).
  split; [reflexivity|]. split; [reflexivity|]. split; [exact Hrun|].
  intros (msg & tr & E & F). rewrite Hrun in E.
  injection E as _ <-.
  apply Forall_cons in F as [(Hconnect & _) _]. discriminate Hconnect.
Qed.

Lemma fail_if_empty_many_folders_witness :
  Args.fail_if_empty (sample_args ["Inbox"; "Spam"]) = true /\
  lookup_account sample_config (sample_args ["Inbox"; "Spam"]) = Some sample_account /\
  session_opens (sample_server []) sample_account /\
  (1 < length (resolved (sample_server [])
                 (session_events sample_account (sample_args ["Inbox"; "Spam"]))
                 (Args.folders (sample_args ["Inbox"; "Spam"]))))%nat /\
  take_action (sample_server []) sample_config (sample_args ["Inbox"; "Spam"]) []
  = (Raise (InvalidOptions
              "--fail-if-empty can only be used when processing a single folder"),
     session_events sample_account (sample_args ["Inbox"; "Spam"])).
Proof.
  assert (H1 : Args.fail_if_empty (sample_args ["Inbox"; "Spam"]) = true) by reflexivity.
  assert (H2 : lookup_account sample_config (sample_args ["Inbox"; "Spam"])
               = Some sample_account) by (vm_compute; reflexivity).
  assert (H3 : session_opens (sample_server []) sample_account)
    by apply sample_session_opens.
  assert (H4 : (1 < length (resolved (sample_server [])
                              (session_events sample_account (sample_args ["Inbox"; "Spam"]))
                              (Args.folders (sample_args ["Inbox"; "Spam"]))))%nat)
    by (simpl; lia).
  split; [exact H1|]. split; [exact H2|]. split; [exact H3|]. split; [exact H4|].
  exact (proj1 (fail_if_empty_many_folders
                  (sample_server []) sample_config (sample_args ["Inbox"; "Spam"])
                  sample_account H1 H2 H3 H4)).
Defined.

Lemma fail_if_empty_no_messages_witness :
  Args.fail_if_empty (sample_args ["Inbox"]) = true /\
  lookup_account sample_config (sample_args ["Inbox"]) = Some sample_account /\
  session_opens (sample_server []) sample_account /\
  resolved (sample_server []) (session_events sample_account (sample_args ["Inbox"]))
    (Args.folders (sample_args ["Inbox"])) = ["Inbox"] /\
  returns (sample_server []) (server.select_folder "Inbox") /\
  returns (sample_server []) (search_call (sample_args ["Inbox"])) /\
  found (sample_server [])
    (session_events sample_account (sample_args ["Inbox"])
     ++ folder_header (sample_args ["Inbox"]) "Inbox") = [] /\
  exists tr,
    take_action (sample_server []) sample_config (sample_args ["Inbox"]) []
    = (Raise (NoMatchingMessages "Filter returned zero messages"), tr) /\
    Exists (fun e => is_search e = true) tr /\
    Forall (fun e => is_mutation e = false) tr.
Proof.
  assert (H1 : Args.fail_if_empty (sample_args ["Inbox"]) = true) by reflexivity.
  assert (H2 : lookup_account sample_config (sample_args ["Inbox"]) = Some sample_account)
    by (vm_compute; reflexivity).
  assert (H3 : session_opens (sample_server []) sample_account)
    by apply sample_session_opens.
  assert (H4 : resolved (sample_server [])
                 (session_events sample_account (sample_args ["Inbox"]))
                 (Args.folders (sample_args ["Inbox"])) = ["Inbox"])
    by reflexivity.
  assert (H5 : returns (sample_server []) (server.select_folder "Inbox"))
    by (intros tr; reflexivity).
  assert (H6 : returns (sample_server []) (search_call (sample_args ["Inbox"])))
    by (intros tr; reflexivity).
  assert (H7 : found (sample_server [])
                 (session_events sample_account (sample_args ["Inbox"])
                  ++ folder_header (sample_args ["Inbox"]) "Inbox") = [])
    by reflexivity.
  repeat (split; [assumption|]).
  exact (fail_if_empty_no_messages
           (sample_server []) sample_config (sample_args ["Inbox"])
           sample_account "Inbox" H1 H2 H3 H4 H5 H6 H7).
Defined.

Lemma fail_if_empty_select_refused_witness :
  Args.fail_if_empty (sample_args ["Inbox"]) = true /\
  lookup_account sample_config (sample_args ["Inbox"]) = Some sample_account /\
  session_opens refusing_server sample_account /\
  resolved refusing_server (session_events sample_account (sample_args ["Inbox"]))
    (Args.folders (sample_args ["Inbox"])) = ["Inbox"] /\
  raises refusing_server
    (session_events sample_account (sample_args ["Inbox"])
     ++ [Log INFO "processing folder %s" [a_str "Inbox"]])
    (server.select_folder "Inbox") = Some (IMAP4_error "NO such folder") /\
  take_action refusing_server sample_config (sample_args ["Inbox"]) []
  = (Ok tt,
     [Call (server.IMAPClient "imap.example.org" true true);
      SetDebug false;
      Call (server.login "me" "secret");
      Call server.list_folders;
      Log INFO "processing folder %s" [a_str "Inbox"];
      Call (server.select_folder "Inbox");
      Log ERROR "failed to select %s (%s): %s"
        [a_str "Inbox"; a_type (IMAP4_error "NO such folder");
         a_exc (IMAP4_error "NO such folder")]]).
Proof.
  assert (H1 : Args.fail_if_empty (sample_args ["Inbox"]) = true) by reflexivity.
  assert (H2 : lookup_account sample_config (sample_args ["Inbox"]) = Some sample_account)
    by (vm_compute; reflexivity).
  assert (H3 : session_opens refusing_server sample_account)
    by apply refusing_session_opens.
  assert (H4 : resolved refusing_server
                 (session_events sample_account (sample_args ["Inbox"]))
                 (Args.folders (sample_args ["Inbox"])) = ["Inbox"])
    by reflexivity.
  assert (H5 : raises refusing_server
                 (session_events sample_account (sample_args ["Inbox"])
                  ++ [Log INFO "processing folder %s" [a_str "Inbox"]])
                 (server.select_folder "Inbox") = Some (IMAP4_error "NO such folder"))
    by reflexivity.
  repeat (split; [assumption|]).
  exact (proj1 (fail_if_empty_select_refused
                  refusing_server sample_config (sample_args ["Inbox"])
                  sample_account "Inbox" "NO such folder" H1 H2 H3 H4 H5)).
Defined.

(* ===================================================================== *)
(** * More on the parsers *)

Lemma labelspec_cases (t : string) :
  (exists v, t = String "-" v /\ labelspec t = ("-", v)) \/
  (exists v, t = String "+" v /\ labelspec t = ("+", v)) \/
  (no_leading_sign t /\ labelspec t = ("+", t)).
Proof.
  destruct t as [|c t]; [right; right; split; [exact I | reflexivity]|].
  destruct (ascii_dec c "-") as [->|Hm]; [left; eauto|].
  destruct (ascii_dec c "+") as [->|Hp]; [right; left; eauto|].
  right; right. split; [split; assumption|].
  apply labelspec_unsigned. split; assumption.
Qed.

(** X1. The action [labelspec] returns is always ["+"] or ["-"]; the
    sign and the value written back as a token give the token again, up
    to the ["+"] that an unsigned token leaves out; and parsing that
    token gives the same spec. *)
Theorem labelspec_render (t : string) :
  (fst (labelspec t) = "+" \/ fst (labelspec t) = "-") /\
  (render_spec (labelspec t) = t \/ render_spec (labelspec t) = "+" +:+ t) /\
  labelspec (render_spec (labelspec t)) = labelspec t.
Proof.
  destruct (labelspec_cases t) as [(v & -> & E) | [(v & -> & E) | (Hn & E)]];
    rewrite E; unfold render_spec; cbn [fst snd].
  - split; [now right|]. split; [now left | reflexivity].
  - split; [now left|]. split; [now left | reflexivity].
  - split; [now left|]. split; [now right | reflexivity].
Qed.

(** *** Tokens that differ in the case of their ASCII letters *)

Lemma high_lower (b : ascii) : high (lower_ascii b) = high b.
Proof. destruct b as [[] [] [] [] [] [] [] []]; reflexivity. Qed.

Lemma lower_high (b : ascii) : high b <> 0%N -> lower_ascii b = b.
Proof.
  destruct b as [[] [] [] [] [] [] [] []]; try reflexivity; intros H; now destruct H.
Qed.

Lemma is_cont_high (b : ascii) : is_cont b = true -> high b <> 0%N.
Proof.
  unfold is_cont, between. rewrite andb_true_iff, !N.leb_le. lia.
Qed.

Lemma three_bytes_high (b1 b2 b3 : ascii) :
  three_bytes b1 b2 b3 = true -> high b2 <> 0%N /\ high b3 <> 0%N.
Proof.
  unfold three_bytes, is_cont, between.
  rewrite !andb_true_iff, !orb_true_iff, !andb_true_iff, !N.leb_le, !N.eqb_eq. lia.
Qed.

Lemma four_bytes_high (b1 b2 b3 b4 : ascii) :
  four_bytes b1 b2 b3 b4 = true -> high b2 <> 0%N /\ high b3 <> 0%N /\ high b4 <> 0%N.
Proof.
  unfold four_bytes, is_cont, between.
  rewrite !andb_true_iff, !orb_true_iff, !andb_true_iff, !N.leb_le, !N.eqb_eq. lia.
Qed.

Lemma utf8_len_lower (s : string) : utf8_len (lower s) = utf8_len s.
Proof.
  destruct s as [|b1 [|b2 [|b3 [|b4 s]]]];
    unfold utf8_len, three_bytes, four_bytes, is_cont; cbn [lower];
    now rewrite ?high_lower.
Qed.

Lemma str_take_lower (k : nat) (s : string) : str_take k (lower s) = lower (str_take k s).
Proof.
  revert s. induction k as [|k IH]; intros [|b s]; try reflexivity.
  cbn [lower str_take]. now rewrite IH.
Qed.

Lemma str_drop_lower (k : nat) (s : string) : str_drop k (lower s) = lower (str_drop k s).
Proof.
  revert s. induction k as [|k IH]; intros [|b s]; try reflexivity.
  cbn [lower str_drop]. now rewrite IH.
Qed.

Lemma upper_codepoint_lower_byte (b : ascii) :
  upper_codepoint (String (lower_ascii b) "") = upper_codepoint (String b "").
Proof. destruct b as [[] [] [] [] [] [] [] []]; vm_compute; reflexivity. Qed.

(** A code point of more than one byte, and a byte that starts none,
    hold no ASCII letter. *)
Lemma codepoint_lower (b : ascii) (s : string) :
  high b <> 0%N ->
  lower (str_take (utf8_len (String b s)) (String b s))
  = str_take (utf8_len (String b s)) (String b s).
Proof.
  intros Hb. unfold utf8_len.
  destruct (high b =? 0)%N eqn:E0; [apply N.eqb_eq in E0; contradiction|].
  destruct s as [|b2 [|b3 [|b4 s]]];
    repeat match goal with
           | |- context [if ?c then _ else _] => destruct c eqn:?
           end;
    repeat match goal with
           | H : _ && is_cont _ = true |- _ => apply andb_true_iff in H as [_ H]
           | H : is_cont _ = true |- _ => apply is_cont_high in H
           | H : three_bytes _ _ _ = true |- _ => apply three_bytes_high in H as [? ?]
           | H : four_bytes _ _ _ _ = true |- _ => apply four_bytes_high in H as (? & ? & ?)
           end;
    cbn [str_take lower]; now rewrite ?lower_high by assumption.
Qed.

(** Lower-casing the ASCII letters of a string first does not change
    what [str.upper] makes of it. *)
Lemma upper_lower (s : string) : upper (lower s) = upper s.
Proof.
  induction s as [|b s IH] using codepoints_ind; [reflexivity|].
  rewrite (upper_cons b s).
  change (lower (String b s)) with (String (lower_ascii b) (lower s)).
  rewrite upper_cons.
  change (String (lower_ascii b) (lower s)) with (lower (String b s)).
  rewrite utf8_len_lower, str_take_lower, str_drop_lower, IH. f_equal.
  destruct (N.eq_dec (high b) 0%N) as [Hb|Hb].
  - rewrite (utf8_len_ascii b s Hb). apply upper_codepoint_lower_byte.
  - now rewrite codepoint_lower.
Qed.

(** X2. [flagspec] does not look at the case of ASCII letters: two
    tokens that differ only in the case of their ASCII letters are both
    rejected, or both accepted with the same result. *)
Theorem flagspec_caseless (s t : string) :
  lower s = lower t -> flagspec s = flagspec t.
Proof.
  intros H. unfold flagspec.
  now rewrite <- (upper_lower s), <- (upper_lower t), H.
Qed.

Lemma flagspec_caseless_witness :
  lower "-Seen" = lower "-sEEN" /\
  flagspec "-Seen" = flagspec "-sEEN" /\
  flagspec "-sEEN" = Ok ("-", SEEN).
Proof.
  assert (H : lower "-Seen" = lower "-sEEN") by reflexivity.
  split; [exact H|].
  split; [exact (flagspec_caseless "-Seen" "-sEEN" H) | vm_compute; reflexivity].
Defined.

Lemma labelspec_sign (t : string) :
  fst (labelspec t) = if starts_minus t then "-" else "+".
Proof.
  destruct (labelspec_cases t) as [(v & -> & E) | [(v & -> & E) | (Hn & E)]];
    rewrite E; try reflexivity.
  destruct t as [|c t]; [reflexivity|]. destruct Hn as [_ Hm].
  unfold starts_minus.
  destruct c as [[] [] [] [] [] [] [] []]; try reflexivity. congruence.
Qed.

Lemma signed_cons {B} (sign a : string) (v : B) (specs : list (string * B)) :
  signed sign ((a, v) :: specs)
  = if String.eqb a sign then v :: signed sign specs else signed sign specs.
Proof. unfold signed. simpl. now destruct (String.eqb a sign). Qed.

(** X3. The lists [process_messages] builds from the parsed [-L]
    tokens lose nothing: the labels to remove are the values of the
    tokens that start with ['-'], the labels to add are the values of
    all the others, each in the order given. *)
Theorem label_tokens_partition (tokens : list string) :
  signed "+" (map labelspec tokens)
  = map (fun t => snd (labelspec t)) (List.filter (fun t => negb (starts_minus t)) tokens) /\
  signed "-" (map labelspec tokens)
  = map (fun t => snd (labelspec t)) (List.filter starts_minus tokens) /\
  (length (signed "+" (map labelspec tokens))
   + length (signed "-" (map labelspec tokens)) = length tokens)%nat.
Proof.
  induction tokens as [|t tokens (IHp & IHm & IHl)]; [repeat split|].
  cbn [map List.filter].
  pose proof (labelspec_sign t) as Hsign.
  destruct (labelspec t) as [a v] eqn:E. cbn [fst snd] in *. subst a.
  rewrite !signed_cons.
  destruct (starts_minus t); cbn [negb]; simpl String.eqb; cbn [map length];
    rewrite ?E; cbn [snd];
    (split; [now rewrite IHp | split; [now rewrite IHm | lia]]).
Qed.

(* ===================================================================== *)
(** * More on [show_message] *)

Lemma strs_all_render (xs : list (option string)) :
  strs xs = if all_render xs then Some (renderings xs) else None.
Proof.
  induction xs as [|[s|] xs IH]; simpl; [reflexivity| |reflexivity].
  rewrite IH. now destruct (all_render xs).
Qed.

(** X5. A header that holds a non-empty tuple of addresses is printed
    on one line: the addresses joined by a comma and a space when every
    one of them can be rendered, and three dots as soon as one cannot.
    A header that holds the empty tuple prints nothing. *)
Theorem show_header_tuple (env : envelope) (header : string * string)
    (xs : list (option string)) (tr : list event) :
  getattr_envelope env (fst header) = h_tuple xs ->
  show_header env header tr
  = (Ok tt,
     tr ++ match xs with
           | [] => []
           | _ :: _ =>
               [Printed ("      " +:+ snd header +:+ ": "
                         +:+ (if all_render xs then join ", " (renderings xs) else "..."))]
           end).
Proof.
  intros H. unfold show_header. rewrite H. cbn [truthy].
  rewrite bool_decide_nil, strs_all_render.
  destruct xs as [|x xs]; cbn [negb].
  - unfold ret. now rewrite app_nil_r.
  - now destruct (all_render (x :: xs)).
Qed.

Lemma show_header_tuple_witness :
  getattr_envelope (sample_envelope "ten") (fst ("to", "To")) = h_tuple [None] /\
  show_header (sample_envelope "ten") ("to", "To") [] = (Ok tt, [Printed "      To: ..."]) /\
  show_header (sample_envelope "ten") ("from_", "From") []
  = (Ok tt, [Printed "      From: ann@example.org, bob@example.org"]) /\
  show_header (sample_envelope "ten") ("cc", "Cc") [] = (Ok tt, []).
Proof.
  assert (H1 : getattr_envelope (sample_envelope "ten") (fst ("to", "To")) = h_tuple [None])
    by reflexivity.
  assert (H2 : getattr_envelope (sample_envelope "ten") (fst ("from_", "From"))
               = h_tuple [Some "ann@example.org"; Some "bob@example.org"]) by reflexivity.
  assert (H3 : getattr_envelope (sample_envelope "ten") (fst ("cc", "Cc")) = h_tuple [])
    by reflexivity.
  split; [exact H1|]. split; [|split].
  - exact (show_header_tuple (sample_envelope "ten") ("to", "To") [None] [] H1).
  - exact (show_header_tuple (sample_envelope "ten") ("from_", "From") _ [] H2).
  - exact (show_header_tuple (sample_envelope "ten") ("cc", "Cc") [] [] H3).
Defined.

(* ===================================================================== *)
(** * What a run never does *)

(** As [emits_with], with the lemma [lem] tried first on every
    subgoal. *)
Ltac emits_by lem tac :=
  repeat first
    [ apply lem
    | apply emits_ret | apply emits_raise | apply emits_ask
    | apply emits_first_last
    | apply emits_LOG; tac
    | apply emits_emit; tac
    | apply emits_server_call; tac
    | apply emits_show_message; intros; tac
    | apply emits_try
    | apply emits_for_each; intros ?
    | apply emits_bind; [|intros ?]
    | match goal with
      | |- emits _ (if ?b then _ else _) => destruct b
      | |- emits _ (match ?x with _ => _ end) => destruct x
      end ].

Section Never.

Variable srv : Server.
Variable config : app_config.
Variable args : Args.t.

(** Whatever the dispatcher emits on the batches of a folder, the
    folder and the run emit besides only what precedes any batch. *)
Lemma emits_process_one_folder (P : event -> Prop) (folder : string) :
  (forall e, is_mutation e = false -> is_fetch e = false -> is_print e = false -> P e) ->
  (forall chunk, emits P (process_messages srv args folder chunk)) ->
  emits P (process_one_folder srv args folder).
Proof.
  intros HP Hpm. unfold process_one_folder.
  emits_by Hpm ltac:(apply HP; reflexivity).
Qed.

Lemma emits_take_action (P : event -> Prop) :
  (forall e, is_mutation e = false -> is_fetch e = false -> is_print e = false -> P e) ->
  (forall folder chunk, emits P (process_messages srv args folder chunk)) ->
  emits P (take_action srv config args).
Proof.
  intros HP Hpm.
  assert (Hpof : forall folder, emits P (process_one_folder srv args folder))
    by (intros folder; apply emits_process_one_folder; auto).
  unfold take_action, select_folders, process_folders.
  emits_by Hpof ltac:(apply HP; reflexivity).
Qed.

(** X6. Whatever the server answers, every call the dispatcher makes
    for a batch is a call on exactly the messages of that batch, or
    [expunge]: it never touches other messages and never opens,
    selects or searches anything. *)
Theorem process_messages_on_batch (folder : string) (chunk : list Z) :
  emits (on_batch chunk) (process_messages srv args folder chunk).
Proof.
  unfold process_messages. cbv zeta.
  emits_with ltac:(exact I || reflexivity).
Qed.

(** X7. Without [--delete] a run never calls [delete_messages] or
    [expunge], whatever the configuration and whatever the server
    answers. *)
Theorem no_delete_without_option :
  Args.delete args = false ->
  emits (fun e => is_delete_event e = false) (take_action srv config args).
Proof.
  intros Hdel. apply emits_take_action.
  - intros [[]| | |]; intros; try reflexivity; discriminate.
  - intros folder chunk. unfold process_messages. cbv zeta. rewrite Hdel.
    emits_with ltac:(reflexivity).
Qed.

(** X8. A run with no [-F], [-L], [--archive], [--trash] and
    [--delete] changes nothing: it makes no mutation call, whatever the
    server answers ([--show] alone only reads). *)
Theorem read_only_without_actions :
  Args.flag args = [] -> Args.label args = [] -> Args.archive args = false ->
  Args.trash args = false -> Args.delete args = false ->
  emits (fun e => is_mutation e = false) (take_action srv config args).
Proof.
  intros Hf Hl Ha Ht Hd. apply emits_take_action.
  - intros e He _ _. exact He.
  - intros folder chunk. unfold process_messages. cbv zeta.
    rewrite Hf, Hl, Ha, Ht, Hd, !bool_decide_nil. cbn [negb].
    emits_with ltac:(reflexivity).
Qed.

(** X9. Without [--show] a run fetches nothing and prints nothing,
    whatever the server answers. *)
Theorem no_fetch_without_show :
  Args.show args = false ->
  emits (fun e => is_fetch e = false /\ is_print e = false) (take_action srv config args).
Proof.
  intros Hshow. apply emits_take_action.
  - intros e _ Hf Hp. now split.
  - intros folder chunk. unfold process_messages. cbv zeta. rewrite Hshow.
    emits_with ltac:(split; reflexivity).
Qed.

End Never.

Lemma no_delete_without_option_witness :
  Args.delete mark_seen = false /\
  emits (fun e => is_delete_event e = false)
    (take_action (sample_server [7; 3; 1]) sample_config mark_seen) /\
  calls_of (snd (take_action (sample_server [7; 3; 1]) sample_config mark_seen []))
  = [server.IMAPClient "imap.example.org" true true;
     server.login "me" "secret";
     server.list_folders;
     server.select_folder "Inbox";
     server.gmail_search "is:unread";
     server.add_flags [7; 3] [SEEN]; server.remove_flags [7; 3] [];
     server.add_flags [1] [SEEN]; server.remove_flags [1] [];
     server.select_folder "Spam";
     server.gmail_search "is:unread";
     server.add_flags [7; 3] [SEEN]; server.remove_flags [7; 3] [];
     server.add_flags [1] [SEEN]; server.remove_flags [1] []].
Proof.
  assert (H : Args.delete mark_seen = false) by reflexivity.
  split; [exact H|]. split.
  - exact (no_delete_without_option (sample_server [7; 3; 1]) sample_config mark_seen H).
  - vm_compute. reflexivity.
Defined.

Lemma read_only_without_actions_witness :
  Args.flag show_only = [] /\ Args.label show_only = [] /\
  Args.archive show_only = false /\ Args.trash show_only = false /\
  Args.delete show_only = false /\
  emits (fun e => is_mutation e = false)
    (take_action (sample_server [50; 10]) sample_config show_only) /\
  calls_of (snd (take_action (sample_server [50; 10]) sample_config show_only []))
  = [server.IMAPClient "imap.example.org" true true;
     server.login "me" "secret";
     server.list_folders;
     server.select_folder "Inbox";
     server.search;
     server.fetch [50; 10] ["ENVELOPE"; "X-GM-LABELS"]].
Proof.
  repeat (split; [reflexivity|]). split.
  - exact (read_only_without_actions (sample_server [50; 10]) sample_config show_only
             eq_refl eq_refl eq_refl eq_refl eq_refl).
  - vm_compute. reflexivity.
Defined.

Lemma no_fetch_without_show_witness :
  Args.show mark_seen = false /\
  emits (fun e => is_fetch e = false /\ is_print e = false)
    (take_action (sample_server [7; 3; 1]) sample_config mark_seen).
Proof.
  split; [reflexivity|].
  exact (no_fetch_without_show (sample_server [7; 3; 1]) sample_config mark_seen eq_refl).
Defined.

(* ===================================================================== *)
(** * What a run can raise *)

Lemma bind_inv {A B} (m : M A) (k : A -> M B) tr r tr' :
  bind m k tr = (r, tr') ->
  (exists e, m tr = (Raise e, tr') /\ r = Raise e) \/
  (exists a tr1, m tr = (Ok a, tr1) /\ k a tr1 = (r, tr')).
Proof.
  unfold bind. destruct (m tr) as [[a|e] tr1]; intros H.
  - right. eauto.
  - left. inversion H. eauto.
Qed.

Section RaisesOnly.

Variable P : exn -> Prop.

Lemma raises_only_ret {A} (a : A) : raises_only P (ret a).
Proof. intros tr e tr' H. discriminate H. Qed.

Lemma raises_only_raise {A} (e : exn) : P e -> raises_only P (@raise A e).
Proof. intros He tr e' tr' H. inversion H. now subst. Qed.

Lemma raises_only_ask {A} (f : list event -> A) : raises_only P (ask f).
Proof. intros tr e tr' H. discriminate H. Qed.

Lemma raises_only_emit (ev : event) : raises_only P (emit ev).
Proof. intros tr e tr' H. discriminate H. Qed.

Lemma raises_only_LOG lvl fmt largs : raises_only P (LOG lvl fmt largs).
Proof. apply raises_only_emit. Qed.

Lemma raises_only_server_call srv c :
  (forall e, P (ServerError e)) -> raises_only P (server_call srv c).
Proof.
  intros HP tr e tr'. unfold server_call.
  destruct (raises srv tr c); intros H; inversion H. apply HP.
Qed.

Lemma raises_only_first_last chunk : P IndexError -> raises_only P (first_last chunk).
Proof. destruct chunk; [apply raises_only_raise | intros _; apply raises_only_ret]. Qed.

Lemma raises_only_first_last_cons x chunk : raises_only P (first_last (x :: chunk)).
Proof. apply raises_only_ret. Qed.

Lemma raises_only_bind {A B} (m : M A) (k : A -> M B) :
  raises_only P m -> (forall a, raises_only P (k a)) -> raises_only P (bind m k).
Proof.
  intros Hm Hk tr e tr' H.
  apply bind_inv in H as [(e' & H & Heq) | (a & tr1 & _ & H)].
  - inversion Heq; subst. exact (Hm _ _ _ H).
  - exact (Hk a _ _ _ H).
Qed.

Lemma raises_only_for_each {A} (xs : list A) (body : A -> M unit) :
  (forall x, raises_only P (body x)) -> raises_only P (for_each xs body).
Proof.
  intros Hbody. induction xs as [|x xs IH]; simpl.
  - apply raises_only_ret.
  - now apply raises_only_bind.
Qed.

Lemma raises_only_try {A} (m : M A) :
  raises_only P m -> raises_only P (try_IMAP4_error m).
Proof.
  intros Hm tr e tr'. unfold try_IMAP4_error.
  destruct (m tr) as [[a|e0] tr1] eqn:E; [discriminate|].
  destruct e0 as [| | | | | | | | [|]]; intros H; inversion H; subst; eapply Hm; eauto.
Qed.

(** The loop of the show action looks up keys of the fetch result
    only, so its [KeyError] is never raised. *)
Lemma raises_only_show_loop (res : gmap Z message) :
  raises_only P
    (for_each (sorted_keys res)
       (fun msg => match res !! msg with
                   | Some m => show_message msg m
                   | None => raise KeyError
                   end)).
Proof. intros tr e tr' H. rewrite show_loop_sorted in H. discriminate H. Qed.

End RaisesOnly.

Lemma raises_only_impl {A} (P Q : exn -> Prop) (m : M A) :
  (forall e, P e -> Q e) -> raises_only P m -> raises_only Q m.
Proof. intros HPQ Hm tr e tr' H. eauto. Qed.

(** Decomposes a goal [raises_only P m] along the structure of [m],
    trying the lemma [lem] first; the exceptions themselves are left to
    [tac]. *)
Ltac raises_by lem tac :=
  repeat first
    [ apply lem
    | apply raises_only_show_loop
    | apply raises_only_ret | apply raises_only_ask
    | apply raises_only_LOG | apply raises_only_emit
    | apply raises_only_first_last_cons
    | apply raises_only_raise; tac
    | apply raises_only_first_last; tac
    | apply raises_only_server_call; intros; tac
    | apply raises_only_try
    | apply raises_only_for_each; intros ?
    | apply raises_only_bind; [|intros ?]
    | match goal with
      | |- raises_only _ (if ?b then _ else _) => destruct b
      | |- raises_only _ (match ?x with _ => _ end) => destruct x
      end ].

Section Raises.

Variable srv : Server.
Variable config : app_config.
Variable args : Args.t.

Lemma process_messages_raises (folder : string) (chunk : list Z) :
  raises_only is_dispatch_error (process_messages srv args folder chunk).
Proof.
  unfold process_messages. cbv zeta.
  raises_by raises_only_ret ltac:(exact I).
Qed.

(** X10. Without [--show] the dispatcher raises nothing of its own
    on a batch that holds a message: every failure is the failure of a
    server call.  On an empty batch it can also raise [IndexError],
    when it formats the range of the batch, and nothing else. *)
Theorem process_messages_errors (folder : string) (chunk : list Z) tr e tr' :
  Args.show args = false ->
  process_messages srv args folder chunk tr = (Raise e, tr') ->
  is_dispatch_error e /\ (chunk <> [] -> exists se, e = ServerError se).
Proof.
  intros Hshow H.
  assert (Hany : raises_only is_dispatch_error (process_messages srv args folder chunk)).
  { unfold process_messages. cbv zeta. rewrite Hshow.
    raises_by raises_only_ret ltac:(exact I). }
  split; [exact (Hany tr e tr' H)|].
  intros Hne. destruct chunk as [|x chunk]; [congruence|].
  revert tr e tr' H.
  change (raises_only (fun e => exists se, e = ServerError se)
            (process_messages srv args folder (x :: chunk))).
  unfold process_messages. cbv zeta. rewrite Hshow.
  raises_by raises_only_ret ltac:(eexists; reflexivity).
Qed.

Lemma process_one_folder_raises (P : exn -> Prop) (folder : string) :
  (forall e, is_dispatch_error e -> P e) ->
  (Args.fail_if_empty args = true -> forall m, P (NoMatchingMessages m)) ->
  raises_only P (process_one_folder srv args folder).
Proof.
  intros HP Hfail.
  assert (Hpm : forall chunk, raises_only P (process_messages srv args folder chunk))
    by (intros chunk; eapply raises_only_impl; [exact HP | apply process_messages_raises]).
  unfold process_one_folder.
  destruct (Args.fail_if_empty args); cbn [andb];
    raises_by Hpm ltac:(first [apply HP; exact I | now apply Hfail]).
Qed.

(** X11. Without [--fail-if-empty] a run never raises
    [NoMatchingMessages] or [InvalidOptions], whatever the server
    answers. *)
Theorem no_fail_if_empty_errors tr e tr' :
  Args.fail_if_empty args = false ->
  take_action srv config args tr = (Raise e, tr') ->
  forall m, e <> NoMatchingMessages m /\ e <> InvalidOptions m.
Proof.
  intros Hfail. revert tr e tr'.
  change (raises_only (fun e => forall m, e <> NoMatchingMessages m /\ e <> InvalidOptions m)
            (take_action srv config args)).
  assert (Hpof : forall folder,
             raises_only (fun e => forall m, e <> NoMatchingMessages m /\ e <> InvalidOptions m)
               (process_one_folder srv args folder)).
  { intros folder. apply process_one_folder_raises.
    - intros [] He m; try contradiction; split; discriminate.
    - rewrite Hfail. discriminate. }
  unfold take_action, select_folders, process_folders. rewrite Hfail. cbn [andb].
  raises_by Hpof ltac:(intros; split; discriminate).
Qed.

(** X12. [NoSuchAccount] is raised exactly when the account is not in
    the configuration, and then before anything else happens: the trace
    is left as it was, no client is built. *)
Theorem no_such_account (tr : list event) :
  (lookup_account config args = None ->
   take_action srv config args tr = (Raise (NoSuchAccount (Args.account args)), tr)) /\
  (forall a tr',
      take_action srv config args tr = (Raise (NoSuchAccount a), tr') ->
      lookup_account config args = None).
Proof.
  unfold lookup_account. split.
  - intros H. unfold take_action.
    destruct (accounts config) as [accts|]; [rewrite H|]; reflexivity.
  - intros a tr' H.
    destruct (accounts config) as [accts|] eqn:Ea; [|reflexivity].
    destruct (accts !! Args.account args) as [account|] eqn:E; [|reflexivity].
    exfalso.
    assert (Hpof : forall folder,
               raises_only (fun e => forall a, e <> NoSuchAccount a)
                 (process_one_folder srv args folder)).
    { intros folder. apply process_one_folder_raises.
      - intros [] He ?; try contradiction; discriminate.
      - discriminate. }
    assert (Hrun : raises_only (fun e => forall a, e <> NoSuchAccount a)
                     (take_action srv config args)).
    { unfold take_action, select_folders, process_folders. rewrite Ea, E.
      raises_by Hpof ltac:(intros; discriminate). }
    exact (Hrun _ _ _ H a eq_refl).
Qed.

End Raises.

Lemma process_messages_errors_witness :
  Args.show mark_seen = false /\
  process_messages read_only_server mark_seen "Inbox" [7; 3] []
  = (Raise (ServerError (IMAP4_error "READ-ONLY")),
     [Log INFO "applying flags to  messages %d...%d from %s (%s)"
        [a_int 7; a_int 3; a_str "Inbox"; a_flags [("+", SEEN)]];
      Call (server.add_flags [7; 3] [SEEN])]) /\
  is_dispatch_error (ServerError (IMAP4_error "READ-ONLY")) /\
  ([7; 3] <> [] -> exists se, ServerError (IMAP4_error "READ-ONLY") = ServerError se).
Proof.
  assert (Hshow : Args.show mark_seen = false) by reflexivity.
  assert (H : process_messages read_only_server mark_seen "Inbox" [7; 3] []
              = (Raise (ServerError (IMAP4_error "READ-ONLY")),
                 [Log INFO "applying flags to  messages %d...%d from %s (%s)"
                    [a_int 7; a_int 3; a_str "Inbox"; a_flags [("+", SEEN)]];
                  Call (server.add_flags [7; 3] [SEEN])])) by reflexivity.
  split; [exact Hshow|]. split; [exact H|].
  exact (process_messages_errors read_only_server mark_seen "Inbox" [7; 3] [] _ _ Hshow H).
Defined.

Lemma no_fail_if_empty_errors_witness :
  Args.fail_if_empty mark_seen = false /\
  take_action locked_server sample_config mark_seen []
  = (Raise (ServerError (IMAP4_error "LOGIN failed")),
     [Call (server.IMAPClient "imap.example.org" true true);
      SetDebug false;
      Call (server.login "me" "secret")]) /\
  forall m, ServerError (IMAP4_error "LOGIN failed") <> NoMatchingMessages m /\
            ServerError (IMAP4_error "LOGIN failed") <> InvalidOptions m.
Proof.
  assert (H1 : Args.fail_if_empty mark_seen = false) by reflexivity.
  assert (H2 : take_action locked_server sample_config mark_seen []
               = (Raise (ServerError (IMAP4_error "LOGIN failed")),
                  [Call (server.IMAPClient "imap.example.org" true true);
                   SetDebug false;
                   Call (server.login "me" "secret")])) by (vm_compute; reflexivity).
  split; [exact H1|]. split; [exact H2|].
  exact (no_fail_if_empty_errors locked_server sample_config mark_seen [] _ _ H1 H2).
Defined.

Lemma no_such_account_witness :
  lookup_account empty_config mark_seen = None /\
  take_action (sample_server []) empty_config mark_seen []
  = (Raise (NoSuchAccount "home"), []) /\
  (take_action (sample_server []) empty_config mark_seen [] = (Raise (NoSuchAccount "home"), [])
   -> lookup_account empty_config mark_seen = None).
Proof.
  assert (H : lookup_account empty_config mark_seen = None) by reflexivity.
  split; [exact H|]. split.
  - exact (proj1 (no_such_account (sample_server []) empty_config mark_seen []) H).
  - exact (proj2 (no_such_account (sample_server []) empty_config mark_seen [])
             "home" []).
Defined.

(* ===================================================================== *)
(** * Where a run stops *)

Section StopsAtFailure.

Variable srv : Server.

Lemma stops_ret {A} (a : A) : stops_at_failure srv (ret a).
Proof. intros tr e tr' H. discriminate H. Qed.

Lemma stops_ask {A} (f : list event -> A) : stops_at_failure srv (ask f).
Proof. intros tr e tr' H. discriminate H. Qed.

Lemma stops_emit (ev : event) : stops_at_failure srv (emit ev).
Proof. intros tr e tr' H. discriminate H. Qed.

Lemma stops_LOG lvl fmt largs : stops_at_failure srv (LOG lvl fmt largs).
Proof. apply stops_emit. Qed.

Lemma stops_raise {A} (e : exn) :
  (forall se, e <> ServerError se) -> stops_at_failure srv (@raise A e).
Proof. intros He tr se tr' H. inversion H. now destruct (He se). Qed.

Lemma stops_first_last chunk : stops_at_failure srv (first_last chunk).
Proof. destruct chunk; [now apply stops_raise | apply stops_ret]. Qed.

Lemma stops_server_call c : stops_at_failure srv (server_call srv c).
Proof.
  intros tr e tr'. unfold server_call.
  destruct (raises srv tr c) as [e0|] eqn:E; intros H; inversion H; subst.
  now exists tr, c.
Qed.

Lemma stops_bind {A B} (m : M A) (k : A -> M B) :
  stops_at_failure srv m -> (forall a, stops_at_failure srv (k a)) ->
  stops_at_failure srv (bind m k).
Proof.
  intros Hm Hk tr e tr' H.
  apply bind_inv in H as [(e' & H & Heq) | (a & tr1 & _ & H)].
  - inversion Heq; subst. exact (Hm _ _ _ H).
  - exact (Hk a _ _ _ H).
Qed.

Lemma stops_for_each {A} (xs : list A) (body : A -> M unit) :
  (forall x, stops_at_failure srv (body x)) -> stops_at_failure srv (for_each xs body).
Proof.
  intros Hbody. induction xs as [|x xs IH]; simpl.
  - apply stops_ret.
  - now apply stops_bind.
Qed.

Lemma stops_try {A} (m : M A) :
  stops_at_failure srv m -> stops_at_failure srv (try_IMAP4_error m).
Proof.
  intros Hm tr e tr'. unfold try_IMAP4_error.
  destruct (m tr) as [[a|e0] tr1] eqn:E; [discriminate|].
  destruct e0 as [| | | | | | | | [|]]; intros H; inversion H; subst; eapply Hm; eauto.
Qed.

Lemma stops_show_loop (res : gmap Z message) :
  stops_at_failure srv
    (for_each (sorted_keys res)
       (fun msg => match res !! msg with
                   | Some m => show_message msg m
                   | None => raise KeyError
                   end)).
Proof. intros tr e tr' H. rewrite show_loop_sorted in H. discriminate H. Qed.

End StopsAtFailure.

Ltac stops_by lem :=
  repeat first
    [ apply lem
    | apply stops_show_loop
    | apply stops_ret | apply stops_ask | apply stops_LOG | apply stops_emit
    | apply stops_first_last
    | apply stops_server_call
    | apply stops_raise; intros; discriminate
    | apply stops_try
    | apply stops_for_each; intros ?
    | apply stops_bind; [|intros ?]
    | match goal with
      | |- stops_at_failure _ (if ?b then _ else _) => destruct b
      | |- stops_at_failure _ (match ?x with _ => _ end) => destruct x
      end ].

Section Stops.

Variable srv : Server.
Variable config : app_config.
Variable args : Args.t.

Lemma server_call_inv (c : server.call) t r t' :
  server_call srv c t = (r, t') ->
  t' = t ++ [Call c] /\ (r = Ok tt \/ exists se, r = Raise (ServerError se)).
Proof.
  unfold server_call. destruct (raises srv t c); intros H; inversion H; eauto.
Qed.

Lemma process_messages_stops (folder : string) (chunk : list Z) :
  stops_at_failure srv (process_messages srv args folder chunk).
Proof. unfold process_messages. cbv zeta. stops_by stops_ret. Qed.

Lemma process_one_folder_stops (folder : string) :
  stops_at_failure srv (process_one_folder srv args folder).
Proof.
  unfold process_one_folder. stops_by (process_messages_stops folder).
Qed.

(** X13. Nothing is retried and nothing follows a failure: when a run
    ends with the error of a server call, that call is the last event
    of its trace, and it is the call the server raised the error on. *)
Theorem take_action_stops_at_failure tr e tr' :
  take_action srv config args tr = (Raise (ServerError e), tr') ->
  exists pre c, tr' = pre ++ [Call c] /\ raises srv pre c = Some e.
Proof.
  revert tr e tr'.
  change (stops_at_failure srv (take_action srv config args)).
  unfold take_action, select_folders, process_folders.
  stops_by process_one_folder_stops.
Qed.

(** X14. The three errors of validation, [NoSuchAccount],
    [NoMatchingFolders] and [InvalidOptions], are raised before any
    folder is processed: a run that ends with one of them has selected,
    searched, fetched, changed and printed nothing. *)
Theorem validation_before_processing tr e tr' :
  take_action srv config args tr = (Raise e, tr') ->
  is_validation_error e ->
  exists d, tr' = tr ++ d /\ Forall (fun ev => is_processing ev = false) d.
Proof.
  assert (Hpof : forall folder,
             raises_only (fun e => ~ is_validation_error e)
               (process_one_folder srv args folder)).
  { intros folder. apply process_one_folder_raises.
    - intros [] He; try contradiction; exact (fun H => H).
    - intros _ m H. exact H. }
  unfold take_action, select_folders.
  destruct (accounts config) as [accts|];
    [destruct (accts !! Args.account args) as [account|]|].
  2, 3: intros H _; inversion H; subst; exists []; now rewrite app_nil_r.
  unfold bind at 1, ret at 1. intros H Hv.
  apply bind_inv in H as [(e' & H & Heq) | ([] & tr1 & Hc & H)];
    [apply server_call_inv in H as [_ [H | (se & H)]]; inversion H; subst;
     inversion Heq; subst; contradiction|].
  apply server_call_inv in Hc as [-> _].
  unfold bind at 1, emit at 1 in H.
  apply bind_inv in H as [(e' & H & Heq) | ([] & tr1 & Hc & H)];
    [apply server_call_inv in H as [_ [H | (se & H)]]; inversion H; subst;
     inversion Heq; subst; contradiction|].
  apply server_call_inv in Hc as [-> _].
  apply bind_inv in H as [(e' & H & Heq) | (selected & tr1 & Hs & H)].
  - apply bind_inv in H as [(e'' & H & Heq') | ([] & tr2 & _ & H)]; [|discriminate H].
    apply server_call_inv in H as [_ [H | (se & H)]]; inversion H; subst.
    inversion Heq'; subst. inversion Heq; subst. contradiction.
  - apply bind_inv in Hs as [(e'' & _ & Heq') | ([] & tr2 & Hc & Hs)]; [discriminate Heq'|].
    apply server_call_inv in Hc as [-> _].
    unfold ask in Hs. inversion Hs; subst. clear Hs.
    rewrite <- !app_assoc in H. cbn [app] in H.
    destruct (bool_decide _); [|destruct (_ && _)].
    1, 2: inversion H; subst; eexists; split; [reflexivity | repeat constructor].
    exfalso. unfold process_folders in H.
    exact (raises_only_for_each _ _ _ Hpof _ _ _ H Hv).
Qed.

End Stops.

Lemma take_action_stops_at_failure_witness :
  take_action locked_server sample_config mark_seen []
  = (Raise (ServerError (IMAP4_error "LOGIN failed")),
     [Call (server.IMAPClient "imap.example.org" true true);
      SetDebug false;
      Call (server.login "me" "secret")]) /\
  exists pre c,
    [Call (server.IMAPClient "imap.example.org" true true);
     SetDebug false;
     Call (server.login "me" "secret")] = pre ++ [Call c] /\
    raises locked_server pre c = Some (IMAP4_error "LOGIN failed").
Proof.
  assert (H : take_action locked_server sample_config mark_seen []
              = (Raise (ServerError (IMAP4_error "LOGIN failed")),
                 [Call (server.IMAPClient "imap.example.org" true true);
                  SetDebug false;
                  Call (server.login "me" "secret")])) by (vm_compute; reflexivity).
  split; [exact H|].
  exact (take_action_stops_at_failure locked_server sample_config mark_seen [] _ _ H).
Defined.

Lemma validation_before_processing_witness :
  take_action bare_server sample_config mark_seen []
  = (Raise (NoMatchingFolders "No folders to process"),
     [Call (server.IMAPClient "imap.example.org" true true);
      SetDebug false;
      Call (server.login "me" "secret");
      Call server.list_folders]) /\
  is_validation_error (NoMatchingFolders "No folders to process") /\
  exists d,
    [Call (server.IMAPClient "imap.example.org" true true);
     SetDebug false;
     Call (server.login "me" "secret");
     Call server.list_folders] = [] ++ d /\
    Forall (fun ev => is_processing ev = false) d.
Proof.
  assert (H : take_action bare_server sample_config mark_seen []
              = (Raise (NoMatchingFolders "No folders to process"),
                 [Call (server.IMAPClient "imap.example.org" true true);
                  SetDebug false;
                  Call (server.login "me" "secret");
                  Call server.list_folders])) by (vm_compute; reflexivity).
  split; [exact H|]. split; [exact I|].
  exact (validation_before_processing bare_server sample_config mark_seen [] _ _ H I).
Defined.

(* ===================================================================== *)
(** * More on folders *)

Section MoreFolder.

Variable srv : Server.
Variable args : Args.t.
Variable folder : string.

(** X15. Only [imaplib.IMAP4.error] is caught around the selection of a
    folder: any other error of [select_folder] ends the run, with
    nothing logged after the call. *)
Theorem select_other_error_propagates (msg : string) (tr : list event) :
  raises srv (tr ++ [Log INFO "processing folder %s" [a_str folder]])
    (server.select_folder folder) = Some (other_error msg) ->
  process_one_folder srv args folder tr
  = (Raise (ServerError (other_error msg)),
     tr ++ [Log INFO "processing folder %s" [a_str folder];
            Call (server.select_folder folder)]).
Proof.
  intros Hsel. unfold process_one_folder, bind, LOG, emit, try_IMAP4_error.
  rewrite (server_call_raises _ _ _ _ Hsel).
  now rewrite <- !app_assoc.
Qed.

(** X16. The search is outside the [try]: an error it raises, be it an
    [imaplib.IMAP4.error], is not caught and ends the run on the search
    call. *)
Theorem search_error_propagates (e : server_error) (tr : list event) :
  raises srv (tr ++ [Log INFO "processing folder %s" [a_str folder]])
    (server.select_folder folder) = None ->
  raises srv (tr ++ [Log INFO "processing folder %s" [a_str folder];
                     Call (server.select_folder folder);
                     search_log args folder])
    (search_call args) = Some e ->
  process_one_folder srv args folder tr
  = (Raise (ServerError e), tr ++ folder_header args folder).
Proof.
  intros Hsel Hsearch.
  unfold process_one_folder, folder_header, search_call, search_log in *.
  unfold bind at 1 2, LOG at 1, emit at 1, try_IMAP4_error, server_call at 1.
  rewrite Hsel.
  destruct (Args.query args) as [query|];
    unfold bind, LOG, emit, ask, server_call;
    rewrite <- !app_assoc; cbn [app];
    rewrite Hsearch; reflexivity.
Qed.

(** X17. Without [--fail-if-empty] a search that finds nothing is not
    an error: the count is logged, no batch is formed, and the folder
    is done. *)
Theorem empty_result_is_fine (tr : list event) :
  Args.fail_if_empty args = false ->
  returns srv (server.select_folder folder) ->
  returns srv (search_call args) ->
  found srv (tr ++ folder_header args folder) = [] ->
  process_one_folder srv args folder tr
  = (Ok tt, tr ++ folder_header args folder ++ [Log INFO "found %d messages" [a_int 0]]).
Proof.
  intros Hfail Hsel Hsearch Hfound.
  unfold process_one_folder, folder_header, search_call, search_log in *.
  unfold bind at 1 2, LOG at 1, emit at 1, try_IMAP4_error.
  rewrite (server_call_returns _ _ _ Hsel).
  destruct (Args.query args) as [query|];
    unfold bind, LOG, emit, ask;
    rewrite (server_call_returns _ _ _ Hsearch);
    rewrite <- !app_assoc; cbn [app];
    rewrite Hfound, Hfail; reflexivity.
Qed.

(** X18. With [--delete] and a server none of whose calls raises, the
    loop over non-empty batches makes one [delete_messages] and one
    [expunge] for each batch, in the order of the batches, and no other
    delete or expunge. *)
Theorem delete_per_batch (chunks : list (list Z)) (tr : list event) :
  quiet srv ->
  Forall (fun chunk => chunk <> []) chunks ->
  Args.delete args = true ->
  exists d,
    for_each chunks (process_messages srv args folder) tr = (Ok tt, tr ++ d) /\
    List.filter is_delete_or_expunge (calls_of d)
    = flat_map (fun chunk => [server.delete_messages chunk; server.expunge]) chunks.
Proof.
  intros Hq Hne Hdel. exists (batches_events srv args folder chunks tr).
  split; [now apply process_batches_quiet | now apply batches_delete_calls].
Qed.

(** X19. On an empty batch the dispatcher raises [IndexError] before
    any call as soon as one action is requested; with no action
    requested it does nothing, on any batch. *)
Theorem dispatch_empty_batch (tr : list event) :
  (~ no_action args -> process_messages srv args folder [] tr = (Raise IndexError, tr)) /\
  (no_action args -> forall chunk, process_messages srv args folder chunk tr = (Ok tt, tr)).
Proof.
  unfold no_action. split.
  - intros H. apply process_messages_empty_batch.
    destruct (Args.flag args), (Args.label args), (Args.archive args), (Args.show args),
      (Args.trash args), (Args.delete args); auto 7; try (left; discriminate);
      try (right; left; discriminate).
    exfalso. apply H. repeat split.
  - intros (Hf & Hl & Ha & Hs & Ht & Hd) chunk. unfold process_messages.
    now rewrite Hf, Hl, Ha, Hs, Ht, Hd.
Qed.

Lemma deleted_by_batches (chunks : list (list Z)) :
  flat_map deleted_by
    (flat_map (fun chunk => [server.delete_messages chunk; server.expunge]) chunks)
  = concat chunks.
Proof.
  induction chunks as [|chunk chunks IH]; [reflexivity|].
  cbn [flat_map concat app deleted_by]. now rewrite IH.
Qed.

Lemma deleted_by_filter (calls : list server.call) :
  flat_map deleted_by (List.filter is_delete_or_expunge calls) = flat_map deleted_by calls.
Proof.
  induction calls as [|c calls IH]; [reflexivity|].
  destruct c; cbn [List.filter is_delete_or_expunge flat_map deleted_by app]; now rewrite IH.
Qed.

(** X20. With [--delete], a positive batch size and a server none of
    whose calls raises, the messages a folder's [delete_messages] calls
    are made on are, put end to end, exactly the messages the search
    found, in the order found: each one is deleted once (the batches
    are those of the chunker as the spec describes it). *)
Theorem folder_deletes_what_it_found (tr : list event) :
  quiet srv ->
  (0 < Args.chunksize args)%nat ->
  Args.delete args = true ->
  let messages := found srv (tr ++ folder_header args folder) in
  Args.fail_if_empty args && bool_decide (messages = []) = false ->
  exists d,
    process_one_folder srv args folder tr = (Ok tt, tr ++ d) /\
    flat_map deleted_by (calls_of d) = messages.
Proof.
  intros Hq Hsize Hdel messages Hgo.
  eexists. split; [now apply process_one_folder_quiet|].
  fold messages.
  rewrite !calls_of_app, !List.flat_map_app.
  rewrite <- (deleted_by_filter (calls_of (batches_events srv args folder _ _))).
  rewrite batches_delete_calls by assumption.
  rewrite deleted_by_batches.
  unfold chunker. rewrite (concat_chunker_from _ Hsize) by lia.
  unfold folder_header, search_log, search_call.
  now destruct (Args.query args).
Qed.

End MoreFolder.

Lemma select_other_error_propagates_witness :
  raises broken_server ([] ++ [Log INFO "processing folder %s" [a_str "Inbox"]])
    (server.select_folder "Inbox") = Some (other_error "connection reset") /\
  process_one_folder broken_server mark_seen "Inbox" []
  = (Raise (ServerError (other_error "connection reset")),
     [] ++ [Log INFO "processing folder %s" [a_str "Inbox"];
            Call (server.select_folder "Inbox")]).
Proof.
  assert (H : raises broken_server ([] ++ [Log INFO "processing folder %s" [a_str "Inbox"]])
                (server.select_folder "Inbox") = Some (other_error "connection reset"))
    by reflexivity.
  split; [exact H|].
  exact (select_other_error_propagates broken_server mark_seen "Inbox" _ [] H).
Defined.

Lemma search_error_propagates_witness :
  raises unsearchable_server ([] ++ [Log INFO "processing folder %s" [a_str "Inbox"]])
    (server.select_folder "Inbox") = None /\
  raises unsearchable_server
    ([] ++ [Log INFO "processing folder %s" [a_str "Inbox"];
            Call (server.select_folder "Inbox");
            search_log mark_seen "Inbox"])
    (search_call mark_seen) = Some (IMAP4_error "BAD search") /\
  process_one_folder unsearchable_server mark_seen "Inbox" []
  = (Raise (ServerError (IMAP4_error "BAD search")),
     [Log INFO "processing folder %s" [a_str "Inbox"];
      Call (server.select_folder "Inbox");
      Log INFO "selecting messages in %s matching: %s" [a_str "Inbox"; a_str "is:unread"];
      Call (server.gmail_search "is:unread")]).
Proof.
  assert (H1 : raises unsearchable_server
                 ([] ++ [Log INFO "processing folder %s" [a_str "Inbox"]])
                 (server.select_folder "Inbox") = None) by reflexivity.
  assert (H2 : raises unsearchable_server
                 ([] ++ [Log INFO "processing folder %s" [a_str "Inbox"];
                         Call (server.select_folder "Inbox");
                         search_log mark_seen "Inbox"])
                 (search_call mark_seen) = Some (IMAP4_error "BAD search")) by reflexivity.
  split; [exact H1|]. split; [exact H2|].
  exact (search_error_propagates unsearchable_server mark_seen "Inbox" _ [] H1 H2).
Defined.

Lemma empty_result_is_fine_witness :
  Args.fail_if_empty mark_seen = false /\
  returns (sample_server []) (server.select_folder "Inbox") /\
  returns (sample_server []) (search_call mark_seen) /\
  found (sample_server []) ([] ++ folder_header mark_seen "Inbox") = [] /\
  process_one_folder (sample_server []) mark_seen "Inbox" []
  = (Ok tt,
     [Log INFO "processing folder %s" [a_str "Inbox"];
      Call (server.select_folder "Inbox");
      Log INFO "selecting messages in %s matching: %s" [a_str "Inbox"; a_str "is:unread"];
      Call (server.gmail_search "is:unread");
      Log INFO "found %d messages" [a_int 0]]).
Proof.
  assert (H1 : Args.fail_if_empty mark_seen = false) by reflexivity.
  assert (H2 : returns (sample_server []) (server.select_folder "Inbox"))
    by (intros tr; reflexivity).
  assert (H3 : returns (sample_server []) (search_call mark_seen))
    by (intros tr; reflexivity).
  assert (H4 : found (sample_server []) ([] ++ folder_header mark_seen "Inbox") = [])
    by reflexivity.
  repeat (split; [assumption|]).
  exact (empty_result_is_fine (sample_server []) mark_seen "Inbox" [] H1 H2 H3 H4).
Defined.

Lemma delete_per_batch_witness :
  quiet (sample_server []) /\
  Forall (fun chunk => chunk <> []) [[50; 10]; [7]] /\
  Args.delete all_actions = true /\
  exists d,
    for_each [[50; 10]; [7]] (process_messages (sample_server []) all_actions "Inbox") []
    = (Ok tt, [] ++ d) /\
    List.filter is_delete_or_expunge (calls_of d)
    = [server.delete_messages [50; 10]; server.expunge;
       server.delete_messages [7]; server.expunge].
Proof.
  assert (H1 : quiet (sample_server [])) by apply quiet_sample_server.
  assert (H2 : Forall (fun chunk : list Z => chunk <> []) [[50; 10]; [7]])
    by (repeat constructor; discriminate).
  assert (H3 : Args.delete all_actions = true) by reflexivity.
  split; [exact H1|]. split; [exact H2|]. split; [exact H3|].
  exact (delete_per_batch (sample_server []) all_actions "Inbox" [[50; 10]; [7]] [] H1 H2 H3).
Defined.

Lemma dispatch_empty_batch_witness :
  ~ no_action all_actions /\
  no_action (sample_args ["Inbox"]) /\
  process_messages (sample_server []) all_actions "Inbox" [] [] = (Raise IndexError, []) /\
  process_messages (sample_server []) (sample_args ["Inbox"]) "Inbox" [] [] = (Ok tt, []).
Proof.
  assert (H1 : ~ no_action all_actions) by (intros (H & _); discriminate H).
  assert (H2 : no_action (sample_args ["Inbox"])) by (repeat split).
  split; [exact H1|]. split; [exact H2|]. split.
  - exact (proj1 (dispatch_empty_batch (sample_server []) all_actions "Inbox" []) H1).
  - exact (proj2 (dispatch_empty_batch (sample_server []) (sample_args ["Inbox"]) "Inbox" [])
             H2 []).
Defined.

Lemma folder_deletes_what_it_found_witness :
  quiet (sample_server [7; 3; 1]) /\
  (0 < Args.chunksize all_actions)%nat /\
  Args.delete all_actions = true /\
  Args.fail_if_empty all_actions
  && bool_decide (found (sample_server [7; 3; 1]) ([] ++ folder_header all_actions "Inbox") = [])
  = false /\
  exists d,
    process_one_folder (sample_server [7; 3; 1]) all_actions "Inbox" [] = (Ok tt, [] ++ d) /\
    flat_map deleted_by (calls_of d) = [7; 3; 1].
Proof.
  assert (H1 : quiet (sample_server [7; 3; 1])) by apply quiet_sample_server.
  assert (H2 : (0 < Args.chunksize all_actions)%nat) by (simpl; lia).
  assert (H3 : Args.delete all_actions = true) by reflexivity.
  assert (H4 : Args.fail_if_empty all_actions
               && bool_decide (found (sample_server [7; 3; 1])
                                 ([] ++ folder_header all_actions "Inbox") = [])
               = false) by reflexivity.
  split; [exact H1|]. split; [exact H2|]. split; [exact H3|]. split; [exact H4|].
  exact (folder_deletes_what_it_found (sample_server [7; 3; 1]) all_actions "Inbox" []
           H1 H2 H3 H4).
Defined.

(* ===================================================================== *)
(** * The order of a run *)

Section Order.

Variable srv : Server.
Variable config : app_config.
Variable args : Args.t.

Lemma emits_anything_process_messages (folder : string) (chunk : list Z) :
  emits (fun _ => True) (process_messages srv args folder chunk).
Proof. unfold process_messages. cbv zeta. emits_with ltac:(exact I). Qed.

Lemma emits_anything_process_one_folder (folder : string) :
  emits (fun _ => True) (process_one_folder srv args folder).
Proof.
  apply emits_process_one_folder; [auto | apply emits_anything_process_messages].
Qed.

(** X21. When the folder tokens resolve to no folder at all the run
    raises [NoMatchingFolders], with or without [--fail-if-empty], once
    the session is open and before any folder is selected. *)
Theorem no_matching_folders (account : Account) :
  lookup_account config args = Some account ->
  session_opens srv account ->
  resolved srv (session_events account args) (Args.folders args) = [] ->
  take_action srv config args []
  = (Raise (NoMatchingFolders "No folders to process"), session_events account args).
Proof.
  intros Hacc Hopen Hnone.
  rewrite (take_action_session srv config args account [] Hacc Hopen).
  cbn zeta. cbn [app]. now rewrite Hnone.
Qed.

(** X22. Whatever the server answers, a folder's messages are fetched
    or changed only after the folder was selected and searched, and
    both calls returned: a trace of [process_one_folder] that holds a
    fetch or a mutation call starts with the selection and the search. *)
Theorem nothing_before_search (folder : string) (tr : list event) :
  exists d,
    snd (process_one_folder srv args folder tr) = tr ++ d /\
    (Exists (fun e => is_mutation e = true \/ is_fetch e = true) d ->
     raises srv (tr ++ [Log INFO "processing folder %s" [a_str folder]])
       (server.select_folder folder) = None /\
     raises srv (tr ++ [Log INFO "processing folder %s" [a_str folder];
                        Call (server.select_folder folder);
                        search_log args folder])
       (search_call args) = None /\
     exists rest, d = folder_header args folder ++ rest).
Proof.
  assert (Hno : forall l : list event,
             Forall (fun e => is_mutation e = false /\ is_fetch e = false) l ->
             ~ Exists (fun e => is_mutation e = true \/ is_fetch e = true) l).
  { intros l Hl Hex. apply Exists_exists in Hex as (e & He & Hm).
    rewrite Forall_forall in Hl. destruct (Hl e He) as [H1 H2].
    destruct Hm; congruence. }
  unfold process_one_folder, folder_header, search_log, search_call.
  unfold bind at 1 2, LOG at 1, emit at 1, try_IMAP4_error, server_call at 1.
  destruct (raises srv _ (server.select_folder folder)) as [[msg|msg]|] eqn:Esel.
  - eexists. split; [unfold LOG, emit; cbn [snd]; rewrite <- !app_assoc; reflexivity|].
    intros Hex. exfalso. revert Hex. apply Hno. repeat constructor.
  - eexists. split; [cbn [snd]; rewrite <- !app_assoc; reflexivity|].
    intros Hex. exfalso. revert Hex. apply Hno. repeat constructor.
  - match goal with
    | |- context [bind ?m ?k ?t] =>
        assert (Hm : exists r, m t = (r, tr ++ folder_header args folder) /\
                       (forall a, r = Ok a ->
                          raises srv (tr ++ [Log INFO "processing folder %s" [a_str folder];
                                             Call (server.select_folder folder);
                                             search_log args folder])
                            (search_call args) = None));
        [|assert (Hk : forall a, emits (fun _ => True) (k a))
            by (intros a; emits_by emits_anything_process_messages ltac:(exact I))]
    end.
    { unfold folder_header, search_log, search_call.
      destruct (Args.query args) as [query|];
        unfold bind, LOG, emit, ask, server_call;
        rewrite <- !app_assoc; cbn [app];
        match goal with
        | |- context [raises srv ?t ?c] => destruct (raises srv t c) eqn:Es
        end; eexists; (split; [rewrite <- ?app_assoc; reflexivity|]);
        intros a Ha; try discriminate Ha; reflexivity. }
    destruct Hm as ([messages|e] & Hm & Hs).
    + rewrite (bind_Ok _ _ _ _ _ Hm).
      destruct (Hk messages (tr ++ folder_header args folder)) as (rest & E & _).
      exists (folder_header args folder ++ rest).
      split; [now rewrite E, app_assoc|].
      intros _. split; [reflexivity|]. split; [now apply (Hs messages) | now exists rest].
    + rewrite (bind_Raise _ _ _ _ _ Hm). exists (folder_header args folder).
      split; [reflexivity|].
      intros Hex. exfalso. revert Hex. apply Hno.
      unfold folder_header, search_log, search_call.
      destruct (Args.query args); repeat constructor.
Qed.

Lemma not_processing (l : list event) :
  Forall (fun e => is_processing e = false) l ->
  ~ Exists (fun e => is_processing e = true) l.
Proof.
  intros Hl Hex. apply Exists_exists in Hex as (e & He & Hp).
  rewrite Forall_forall in Hl. rewrite (Hl e He) in Hp. discriminate Hp.
Qed.

(** X23. Whatever the server answers, nothing is selected, searched,
    fetched, changed or printed before the session is open: a trace of
    [take_action] that holds such an event starts with the client
    built for the configured account, the login and the listing of the
    folders. *)
Theorem session_before_processing tr r tr' :
  take_action srv config args tr = (r, tr') ->
  exists d,
    tr' = tr ++ d /\
    (Exists (fun e => is_processing e = true) d ->
     exists account rest,
       lookup_account config args = Some account /\
       d = session_events account args ++ rest).
Proof.
  unfold take_action, select_folders, lookup_account.
  destruct (accounts config) as [accts|];
    [destruct (accts !! Args.account args) as [account|]|].
  2, 3: intros H; inversion H; subst; exists []; split; [now rewrite app_nil_r|];
        intros Hex; inversion Hex.
  unfold bind at 1, ret at 1. intros H.
  apply bind_inv in H as [(e' & H & Heq) | ([] & tr1 & Hc & H)].
  { apply (server_call_inv srv) in H as [-> _]. eexists. split; [reflexivity|].
    intros Hex. exfalso. revert Hex. apply not_processing. repeat constructor. }
  apply (server_call_inv srv) in Hc as [-> _].
  unfold bind at 1, emit at 1 in H.
  apply bind_inv in H as [(e' & H & Heq) | ([] & tr1 & Hc & H)].
  { apply (server_call_inv srv) in H as [-> _]. eexists.
    split; [rewrite <- !app_assoc; reflexivity|].
    intros Hex. exfalso. revert Hex. apply not_processing. repeat constructor. }
  apply (server_call_inv srv) in Hc as [-> _].
  apply bind_inv in H as [(e' & H & Heq) | (selected & tr1 & Hs & H)].
  { apply bind_inv in H as [(e'' & H & Heq') | ([] & tr2 & _ & H)]; [|discriminate H].
    apply (server_call_inv srv) in H as [-> _]. eexists.
    split; [rewrite <- !app_assoc; reflexivity|].
    intros Hex. exfalso. revert Hex. apply not_processing. repeat constructor. }
  apply bind_inv in Hs as [(e'' & _ & Heq') | ([] & tr2 & Hc & Hs)]; [discriminate Heq'|].
  apply (server_call_inv srv) in Hc as [-> _].
  unfold ask in Hs. inversion Hs; subst. clear Hs.
  rewrite <- !app_assoc in H. cbn [app] in H.
  match type of H with
  | ?m ?t = _ =>
      assert (Hm : emits (fun _ => True) m)
        by (unfold process_folders;
            emits_by emits_anything_process_one_folder ltac:(exact I));
      destruct (Hm t) as (rest & E & _)
  end.
  rewrite H in E. cbn [snd] in E. subst tr'.
  exists (session_events account args ++ rest).
  split; [unfold session_events; now rewrite <- !app_assoc|].
  intros _. now exists account, rest.
Qed.

End Order.

Lemma no_matching_folders_witness :
  lookup_account sample_config mark_seen = Some sample_account /\
  session_opens bare_server sample_account /\
  resolved bare_server (session_events sample_account mark_seen) (Args.folders mark_seen) = [] /\
  take_action bare_server sample_config mark_seen []
  = (Raise (NoMatchingFolders "No folders to process"),
     session_events sample_account mark_seen).
Proof.
  assert (H1 : lookup_account sample_config mark_seen = Some sample_account)
    by (vm_compute; reflexivity).
  assert (H2 : session_opens bare_server sample_account) by (repeat split).
  assert (H3 : resolved bare_server (session_events sample_account mark_seen)
                 (Args.folders mark_seen) = []) by reflexivity.
  split; [exact H1|]. split; [exact H2|]. split; [exact H3|].
  exact (no_matching_folders bare_server sample_config mark_seen sample_account H1 H2 H3).
Defined.

Lemma nothing_before_search_witness :
  Exists (fun e => is_mutation e = true \/ is_fetch e = true)
    (snd (process_one_folder (sample_server [7]) mark_seen "Inbox" [])) /\
  exists rest,
    snd (process_one_folder (sample_server [7]) mark_seen "Inbox" [])
    = folder_header mark_seen "Inbox" ++ rest.
Proof.
  assert (Hex : Exists (fun e => is_mutation e = true \/ is_fetch e = true)
                  (snd (process_one_folder (sample_server [7]) mark_seen "Inbox" []))).
  { vm_compute. do 6 apply Exists_cons_tl. apply Exists_cons_hd. left. reflexivity. }
  split; [exact Hex|].
  destruct (nothing_before_search (sample_server [7]) mark_seen "Inbox" []) as (d & E & H).
  change ([] ++ d) with d in E. rewrite E in Hex |- *.
  exact (proj2 (proj2 (H Hex))).
Defined.

Lemma session_before_processing_witness :
  Exists (fun e => is_processing e = true)
    (snd (take_action (sample_server [7]) sample_config mark_seen [])) /\
  exists account rest,
    lookup_account sample_config mark_seen = Some account /\
    snd (take_action (sample_server [7]) sample_config mark_seen [])
    = session_events account mark_seen ++ rest.
Proof.
  assert (Hex : Exists (fun e => is_processing e = true)
                  (snd (take_action (sample_server [7]) sample_config mark_seen []))).
  { vm_compute. do 5 apply Exists_cons_tl. apply Exists_cons_hd. reflexivity. }
  split; [exact Hex|].
  destruct (session_before_processing (sample_server [7]) sample_config mark_seen []
              (fst (take_action (sample_server [7]) sample_config mark_seen []))
              (snd (take_action (sample_server [7]) sample_config mark_seen []))
              (surjective_pairing _)) as (d & E & H).
  change ([] ++ d) with d in E. rewrite E in Hex |- *.
  exact (H Hex).
Defined.
